(** * QuestionsProcessor: a shallow embedding of [src/questions_processing.py]

    The development follows the Python class method by method.  Python
    integers are [Z], lists are [list], sets are [gset], dictionaries are
    insertion-ordered association lists, and methods that touch [self] or an
    external collaborator are programs of a small resumption monad whose
    atomic actions are the places where another thread may be scheduled. *)

From Stdlib Require Import ZArith String Ascii Floats DecimalString DecimalZ DecimalPos
  Sorted.
From stdpp Require Import base decidable option list gmap sets strings.

Set Warnings "-clear-no-such-hyp,-register-all".

Open Scope Z_scope.

(** ** Python list primitives *)

(** [len(l)] *)
Definition len {A} (l : list A) : Z := Z.of_nat (length l).

(** [l[:k]]: a negative bound counts from the end of the list. *)
Definition py_slice_to {A} (l : list A) (k : Z) : list A :=
  if bool_decide (0 ≤ k) then take (Z.to_nat k) l
  else take (length l - Z.to_nat (- k))%nat l.

(** Truth value of a list: [if l:] holds for the non-empty ones. *)
Definition truthy_list {A} (l : list A) : bool :=
  match l with [] => false | _ :: _ => true end.

(** ** Python values

    The JSON-shaped values the processor handles.  A dictionary keeps its
    insertion order and has string keys. *)
Inductive pyval : Type :=
| PNone
| PBool (b : bool)
| PInt (z : Z)
| PFloat (f : float)
| PStr (s : string)
| PList (l : list pyval)
| PDict (d : list (string * pyval)).

Abbreviation dict := (list (string * pyval)).

(** ** Exceptions

    An instance of a subclass of [Exception]: the name of its class, which
    [type(err).__name__] returns, and its message, which [str(err)] returns.
    The messages of errors raised by the interpreter follow CPython 3.11. *)
Record exn := Exn { exn_type : string; exn_msg : string }.

#[global] Instance exn_eq_dec : EqDecision exn.
Proof. solve_decision. Defined.

Definition KeyError (key : string) : exn := Exn "KeyError" ("'" ++ key ++ "'").
Definition TypeError (msg : string) : exn := Exn "TypeError" msg.
Definition ValueError (msg : string) : exn := Exn "ValueError" msg.
Definition AttributeError (msg : string) : exn := Exn "AttributeError" msg.
Definition IndexError (msg : string) : exn := Exn "IndexError" msg.
Definition ZeroDivisionError : exn := Exn "ZeroDivisionError" "division by zero".

(** A computation that returns or raises. *)
Inductive res (A : Type) : Type :=
| Ok (a : A)
| Raises (e : exn).
Arguments Ok {A} a.
Arguments Raises {A} e.

#[global] Instance res_ret : MRet res := λ A a, Ok a.
#[global] Instance res_fmap : FMap res :=
  λ A B f m, match m with Ok a => Ok (f a) | Raises e => Raises e end.
#[global] Instance res_bind : MBind res :=
  λ A B f m, match m with Ok a => f a | Raises e => Raises e end.

(** [for x in l: ... f(x) ...] collecting the results; the first exception
    leaves the loop. *)
Fixpoint res_map {A B} (f : A → res B) (l : list A) : res (list B) :=
  match l with
  | [] => Ok []
  | x :: l' => y ← f x; ys ← res_map f l'; Ok (y :: ys)
  end.

(** [except (T1, T2, ...)]: the clause matches the exception by its class. *)
Definition except_matches (types : list string) (e : exn) : bool :=
  bool_decide (exn_type e ∈ types).

(** ** Dictionaries *)

Fixpoint dict_get (d : dict) (k : string) : option pyval :=
  match d with
  | [] => None
  | (k', v) :: d' => if String.eqb k' k then Some v else dict_get d' k
  end.

(** [k in d] *)
Definition dict_mem (k : string) (d : dict) : bool :=
  match dict_get d k with Some _ => true | None => false end.

(** [d.get(k)] and [d.get(k, dflt)] *)
Definition py_get (d : dict) (k : string) : pyval := default PNone (dict_get d k).
Definition py_get_default (d : dict) (k : string) (dflt : pyval) : pyval :=
  default dflt (dict_get d k).

(** [d[k] = v]: an existing key keeps its position, a new one goes last. *)
Fixpoint dict_set (d : dict) (k : string) (v : pyval) : dict :=
  match d with
  | [] => [(k, v)]
  | (k', v') :: d' =>
      if String.eqb k' k then (k, v) :: d' else (k', v') :: dict_set d' k v
  end.

(** [d[k]] on a dictionary. *)
Definition dict_item (d : dict) (k : string) : res pyval :=
  match dict_get d k with Some v => Ok v | None => Raises (KeyError k) end.

(** ** Operations on arbitrary values *)

(** The truth value [bool(v)], as [if v:] and [or] test it. *)
Definition truthy (v : pyval) : bool :=
  match v with
  | PNone => false
  | PBool b => b
  | PInt z => negb (z =? 0)
  | PFloat f => negb (PrimFloat.eqb f 0%float)
  | PStr s => negb (String.eqb s EmptyString)
  | PList l => truthy_list l
  | PDict d => truthy_list d
  end.

(** [a or b] *)
Definition py_or (a b : pyval) : pyval := if truthy a then a else b.

(** [v == "..."] for a string literal: only a string compares equal to it. *)
Definition py_eq_str (v : pyval) (s : string) : bool :=
  match v with PStr s' => String.eqb s' s | _ => false end.

(** The class name of a value, for the messages of type errors. *)
Definition type_name (v : pyval) : string :=
  match v with
  | PNone => "NoneType" | PBool _ => "bool" | PInt _ => "int"
  | PFloat _ => "float" | PStr _ => "str" | PList _ => "list"
  | PDict _ => "dict"
  end.

(** [v.get(k, dflt)] on a value that may not be a dictionary. *)
Definition py_method_get (v : pyval) (k : string) (dflt : pyval) : res pyval :=
  match v with
  | PDict d => Ok (py_get_default d k dflt)
  | _ => Raises (AttributeError
           ("'" ++ type_name v ++ "' object has no attribute 'get'"))
  end.

(** [v[k]] for a string key [k]. *)
Definition py_getitem (v : pyval) (k : string) : res pyval :=
  match v with
  | PDict d => dict_item d k
  | PList _ => Raises (TypeError "list indices must be integers or slices, not str")
  | PStr _ => Raises (TypeError "string indices must be integers, not 'str'")
  | _ => Raises (TypeError ("'" ++ type_name v ++ "' object is not subscriptable"))
  end.

(** The characters of a string, each as a string of its own. *)
Fixpoint chars_of (s : string) : list pyval :=
  match s with
  | EmptyString => []
  | String c s' => PStr (String c EmptyString) :: chars_of s'
  end.

(** The elements [for x in v] runs over. *)
Definition py_iter (v : pyval) : res (list pyval) :=
  match v with
  | PList l => Ok l
  | PStr s => Ok (chars_of s)
  | PDict d => Ok ((λ kv, PStr (fst kv)) <$> d)
  | _ => Raises (TypeError ("'" ++ type_name v ++ "' object is not iterable"))
  end.

(** [v - 1] *)
Definition py_sub1 (v : pyval) : res pyval :=
  match v with
  | PInt z => Ok (PInt (z - 1))
  | PBool b => Ok (PInt ((if b then 1 else 0) - 1))
  | PFloat f => Ok (PFloat (PrimFloat.sub f 1%float))
  | _ => Raises (TypeError
           ("unsupported operand type(s) for -: '" ++ type_name v ++ "' and 'int'"))
  end.

(** ** Strings *)

(** [s.split("/")[-1]]: what follows the last slash, or all of [s]. *)
Fixpoint last_segment_from (s acc : string) : string :=
  match s with
  | EmptyString => acc
  | String c s' =>
      if Ascii.eqb c "/"%char then last_segment_from s' EmptyString
      else last_segment_from s' (acc ++ String c EmptyString)
  end.

Definition last_segment (s : string) : string := last_segment_from s EmptyString.

(** [str(z)] and the [{z}] of an f-string, for an integer. *)
Definition py_str_int (z : Z) : string :=
  DecimalString.NilZero.string_of_int (Z.to_int z).

(** The white space [int()] strips, within ASCII. *)
Definition is_py_space (c : ascii) : bool :=
  let n := nat_of_ascii c in
  ((9 <=? n)%nat && (n <=? 13)%nat) || ((28 <=? n)%nat && (n <=? 32)%nat).

Definition is_digit (c : ascii) : bool :=
  let n := nat_of_ascii c in (48 <=? n)%nat && (n <=? 57)%nat.

(** A string of decimal digits. *)
Fixpoint all_digits (s : string) : bool :=
  match s with
  | EmptyString => true
  | String c s' => is_digit c && all_digits s'
  end.

Fixpoint lstrip (s : string) : string :=
  match s with
  | EmptyString => EmptyString
  | String c s' => if is_py_space c then lstrip s' else s
  end.

Fixpoint rstrip (s : string) : string :=
  match s with
  | EmptyString => EmptyString
  | String c s' =>
      match rstrip s' with
      | EmptyString => if is_py_space c then EmptyString else String c EmptyString
      | r => String c r
      end
  end.

(** The digits of an integer literal without their grouping underscores: an
    underscore is accepted only between two digits. *)
Fixpoint literal_digits (s : string) (after_digit : bool) : option string :=
  match s with
  | EmptyString => if after_digit then Some EmptyString else None
  | String c s' =>
      if is_digit c then String c <$> literal_digits s' true
      else if Ascii.eqb c "_"%char && after_digit then literal_digits s' false
      else None
  end.

(** [int(s)] in base 10 on an ASCII string: optional white space around an
    optional sign and a digit sequence; anything else is a [ValueError].
    CPython's bound on the number of digits is left out: a literal that long
    denotes no index of a list. *)
Definition py_int (s : string) : res Z :=
  let invalid :=
    Raises (ValueError ("invalid literal for int() with base 10: '" ++ s ++ "'")) in
  let body := rstrip (lstrip s) in
  let '(negative, magnitude) :=
    match body with
    | String c rest =>
        if Ascii.eqb c "-"%char then (true, rest)
        else if Ascii.eqb c "+"%char then (false, rest)
        else (false, body)
    | EmptyString => (false, body)
    end in
  match literal_digits magnitude false ≫= DecimalString.NilEmpty.uint_of_string with
  | Some u => let n := Z.of_uint u in Ok (if negative then - n else n)
  | None => invalid
  end.

(** ** Retrieved passages

    A retrieval result is a dictionary of which the processor reads the keys
    ['page'] and ['text']. *)
Record passage := Passage { page : Z; text : string }.

Module Validator.

(** The [for result in retrieval_results] loop of
    [_validate_page_references], with its two loop-carried variables
    [validated_pages] and [existing_pages]; the [break] ends the recursion. *)
Fixpoint backfill (min_pages : Z) (retrieval_results : list passage)
    (validated_pages : list Z) (existing_pages : gset Z) : list Z :=
  match retrieval_results with
  | [] => validated_pages
  | result :: rest =>
      let p := page result in
      if bool_decide (p ∉ existing_pages) then
        let validated_pages := validated_pages ++ [p] in
        let existing_pages := existing_pages ∪ {[ p ]} in
        if bool_decide (len validated_pages >= min_pages) then validated_pages
        else backfill min_pages rest validated_pages existing_pages
      else backfill min_pages rest validated_pages existing_pages
  end.

(** Lines 92-97: [None] is read as the empty list, then the hallucination
    filter keeps the claimed pages that occur among the retrieved ones. *)
Definition retrieved_pages (retrieval_results : list passage) : list Z :=
  page <$> retrieval_results.

Definition filter_claimed (claimed_pages : option (list Z))
    (retrieval_results : list passage) : list Z :=
  let claimed_pages := default [] claimed_pages in
  filter (λ p, p ∈ retrieved_pages retrieval_results) claimed_pages.

(** Lines 103-113: the list after the filter and the optional backfill, that
    is, the claimed pages first and the backfilled ones after them. *)
Definition claimed_then_backfilled (claimed_pages : option (list Z))
    (retrieval_results : list passage) (min_pages : Z) : list Z :=
  let validated_pages := filter_claimed claimed_pages retrieval_results in
  if bool_decide (len validated_pages < min_pages) && truthy_list retrieval_results
  then backfill min_pages retrieval_results validated_pages
         (list_to_set validated_pages)
  else validated_pages.

(** [_validate_page_references(claimed_pages, retrieval_results, min_pages,
    max_pages)].  The two [print] calls have no effect on the result; the set
    difference computed for the warning cannot fail on integers. *)
Definition _validate_page_references (claimed_pages : option (list Z))
    (retrieval_results : list passage) (min_pages max_pages : Z) : list Z :=
  let validated_pages :=
    claimed_then_backfilled claimed_pages retrieval_results min_pages in
  if bool_decide (len validated_pages > max_pages)
  then py_slice_to validated_pages max_pages
  else validated_pages.

(** The call with the default [min_pages=2, max_pages=8], as
    [get_answer_for_company] makes it. *)
Definition validate_default (claimed_pages : option (list Z))
    (retrieval_results : list passage) : list Z :=
  _validate_page_references claimed_pages retrieval_results 2 8.

(** Number of distinct pages the retrieval offers. *)
Definition available (retrieval_results : list passage) : Z :=
  Z.of_nat (size (list_to_set (C := gset Z) (retrieved_pages retrieval_results))).

(** Passages with the given page numbers, in that order. *)
Definition passages_of (pages : list Z) : list passage :=
  (λ p, Passage p EmptyString) <$> pages.

(** How often page [p] occurs in a list of pages. *)
Definition occurrences (p : Z) (l : list Z) : nat := length (filter (λ q, q = p) l).

End Validator.


(** ** Statistics *)

(** The dictionary [_calculate_statistics] returns, by its four keys. *)
Record statistics := Statistics {
  total_questions : Z;
  error_count : Z;
  na_count : Z;
  success_count : Z
}.

(** [q.get("value") if "value" in q else q.get("answer")] *)
Definition answer_value (q : dict) : pyval :=
  if dict_mem "value" q then py_get q "value" else py_get q "answer".

(** [sum(1 for q in l if test(q))] *)
Definition count_if {A} (test : A → bool) (l : list A) : Z :=
  len (filter (λ q, test q = true) l).

(** [_calculate_statistics(processed_questions, print_stats)].  It reads its
    argument only.  Of the printing only the percentages matter here: each
    divides by [total_questions]. *)
Definition _calculate_statistics (processed_questions : list dict)
    (print_stats : bool) : res statistics :=
  let total_questions := len processed_questions in
  let error_count := count_if (dict_mem "error") processed_questions in
  let na_count :=
    count_if (λ q, py_eq_str (answer_value q) "N/A") processed_questions in
  let success_count := total_questions - error_count - na_count in
  _ ← (if print_stats && bool_decide (total_questions = 0)
       then Raises ZeroDivisionError else Ok ());
  Ok {| total_questions := total_questions;
        error_count := error_count;
        na_count := na_count;
        success_count := success_count |}.

Definition statistics_dict (s : statistics) : pyval :=
  PDict [("total_questions", PInt (total_questions s));
         ("error_count", PInt (error_count s));
         ("na_count", PInt (na_count s));
         ("success_count", PInt (success_count s))].

(** ** Submission export *)

(** The answer-detail ledger [self.answer_details]: a slot holds [None] or a
    detail record. *)
Abbreviation ledger := (list (option dict)).

Definition detail_prefix : string := "#/answer_details/".

(** Lines 379-386 of [_post_process_submission_answers]: the step-by-step
    analysis a handle leads to, [None] when it leads nowhere. *)
Definition resolve_step_by_step (answer_details : ledger)
    (answer_details_ref : pyval) : res pyval :=
  if truthy answer_details_ref then
    match answer_details_ref with
    | PStr s =>
        if String.prefix detail_prefix s then
          match py_int (last_segment s) with
          | Ok index =>
              if bool_decide (0 ≤ index) && bool_decide (index < len answer_details)
              then
                match answer_details !! Z.to_nat index with
                | Some (Some detail) =>
                    if truthy_list detail
                    then Ok (py_get detail "step_by_step_analysis")
                    else Ok PNone
                | _ => Ok PNone
                end
              else Ok PNone
          | Raises e =>
              if except_matches ["ValueError"; "IndexError"] e
              then Ok PNone else Raises e
          end
        else Ok PNone
    | v => Raises (AttributeError
             ("'" ++ type_name v ++ "' object has no attribute 'startswith'"))
    end
  else Ok PNone.

(** Line 378 followed by the resolution above. *)
Definition narrative (answer_details : ledger) (q : dict) : res pyval :=
  answer_details_ref ←
    py_method_get (py_get_default q "answer_details" (PDict [])) "$ref" (PStr EmptyString);
  resolve_step_by_step answer_details answer_details_ref.

(** One element of the comprehension of lines 393-399. *)
Definition zero_based (ref : pyval) : res pyval :=
  pdf_sha1 ← py_getitem ref "pdf_sha1";
  page_index ← py_getitem ref "page_index";
  page_index ← py_sub1 page_index;
  Ok (PDict [("pdf_sha1", pdf_sha1); ("page_index", page_index)]).

(** The body of the loop of [_post_process_submission_answers]. *)
Definition submission_answer (answer_details : ledger) (q : dict) : res dict :=
  let question_text := py_or (py_get q "question_text") (py_get q "question") in
  let kind := py_or (py_get q "kind") (py_get q "schema") in
  let value := if dict_mem "error" q then PStr "N/A" else answer_value q in
  let references := py_get_default q "references" (PList []) in
  step_by_step_analysis ← narrative answer_details q;
  references ←
    (if py_eq_str value "N/A" then Ok []
     else refs ← py_iter references; res_map zero_based refs);
  let submission_answer :=
    [("question_text", question_text); ("kind", kind); ("value", value);
     ("references", PList references)] in
  Ok (if truthy step_by_step_analysis
      then dict_set submission_answer "reasoning_process" step_by_step_analysis
      else submission_answer).

Definition _post_process_submission_answers (answer_details : ledger)
    (processed_questions : list dict) : res (list dict) :=
  res_map (submission_answer answer_details) processed_questions.

(** An evidence reference as [_extract_references] builds it, from the sha1
    of the company and a page number. *)
Definition evidence_reference (ref : pyval * Z) : pyval :=
  PDict [("pdf_sha1", fst ref); ("page_index", PInt (snd ref))].

(** The same reference, one page lower. *)
Definition lowered (ref : pyval * Z) : pyval * Z := (fst ref, snd ref - 1).

(** A processed result as the pipeline builds it: the detail handle, where
    there is one, is a string, and the references of a result that is
    neither an error nor "N/A" are evidence references. *)
Definition well_formed_result (q : dict) : Prop :=
  (∃ d h, py_get_default q "answer_details" (PDict []) = PDict d ∧
          py_get_default d "$ref" (PStr EmptyString) = PStr h) ∧
  (dict_mem "error" q = true ∨ py_eq_str (answer_value q) "N/A" = true ∨
   ∃ rs, py_get_default q "references" (PList []) = PList (evidence_reference <$> rs)).

(** What the export makes of a result [q], by the result: an error gives
    the value "N/A"; any other result keeps its value; a value that is "N/A"
    gives no references, whatever the result had; any other value gives the
    evidence references of the result, each one page lower. *)
Definition exported (q a : dict) : Prop :=
  (dict_mem "error" q = true →
   py_get a "value" = PStr "N/A" ∧ py_get a "references" = PList []) ∧
  (dict_mem "error" q = false →
   py_get a "value" = answer_value q ∧
   (py_eq_str (answer_value q) "N/A" = true → py_get a "references" = PList []) ∧
   (py_eq_str (answer_value q) "N/A" = false →
    ∀ rs : list (pyval * Z),
      py_get_default q "references" (PList []) = PList (evidence_reference <$> rs) →
      py_get a "references" = PList (evidence_reference <$> (lowered <$> rs)))).

(** The handles that lead nowhere: no ['#/answer_details/'] prefix, a last
    segment [int()] rejects, an index outside the ledger, an unfilled slot. *)
Inductive bad_handle (answer_details : ledger) (h : string) : Prop :=
| bad_prefix :
    String.prefix detail_prefix h = false → bad_handle answer_details h
| bad_suffix e :
    py_int (last_segment h) = Raises e → bad_handle answer_details h
| bad_index i :
    py_int (last_segment h) = Ok i → i < 0 ∨ len answer_details ≤ i →
    bad_handle answer_details h
| unfilled_slot i :
    py_int (last_segment h) = Ok i →
    answer_details !! Z.to_nat i = Some None → bad_handle answer_details h.

(** Three results for the export: a regular one, an "N/A" one and an error. *)
Definition export_example : list dict :=
  [ [("question_text", PStr "q1"); ("kind", PStr "number"); ("value", PInt 7);
     ("references", PList [evidence_reference (PStr "sha", 1);
                           evidence_reference (PStr "sha", 12)]);
     ("answer_details", PDict [("$ref", PStr "#/answer_details/0")])];
    [("question_text", PStr "q2"); ("kind", PStr "name"); ("value", PStr "N/A");
     ("references", PList [evidence_reference (PStr "sha", 3)]);
     ("answer_details", PDict [("$ref", PStr "#/answer_details/1")])];
    [("question_text", PStr "q3"); ("kind", PStr "name"); ("value", PNone);
     ("references", PList []); ("error", PStr "ValueError: No relevant context found");
     ("answer_details", PDict [("$ref", PStr "#/answer_details/2")])] ].

Definition export_example_out : list dict :=
  [ [("question_text", PStr "q1"); ("kind", PStr "number"); ("value", PInt 7);
     ("references", PList [evidence_reference (PStr "sha", 0);
                           evidence_reference (PStr "sha", 11)])];
    [("question_text", PStr "q2"); ("kind", PStr "name"); ("value", PStr "N/A");
     ("references", PList [])];
    [("question_text", PStr "q3"); ("kind", PStr "name"); ("value", PStr "N/A");
     ("references", PList [])] ].


(** ** External collaborators

    What the processor calls but does not define: the retrievers, the
    answering service [APIProcessor], the subset table read with pandas, the
    files written with [json.dump], and [traceback.format_exc].  A call acts
    on the collaborators' own state [world] and returns or raises. *)
Class Collaborators := {
  world : Type;
  (** [retriever.retrieve_all(company_name)], the retriever being the hybrid
      one when the first argument is [true] *)
  retrieve_all : bool → string → world → res (list passage) * world;
  (** [retriever.retrieve_by_company_name(company_name, query,
      llm_reranking_sample_size, top_n, return_parent_pages)] *)
  retrieve_by_company_name :
    bool → string → pyval → Z → Z → bool → world → res (list passage) * world;
  (** [openai_processor.get_answer_from_rag_context(question, rag_context,
      schema, model)] *)
  get_answer_from_rag_context :
    pyval → pyval → pyval → string → world → res pyval * world;
  (** the attribute [openai_processor.response_data] *)
  processor_response_data : world → res pyval;
  (** [openai_processor.get_rephrased_questions(original_question, companies)] *)
  get_rephrased_questions : pyval → list string → world → res pyval * world;
  (** [pd.read_csv(subset_path)]: the rows of the subset table, each with
      its [company_name] and its [sha1] *)
  read_csv : string → world → res (list (string * pyval)) * world;
  (** [json.dump] of the debug document and of the submission document, to
      the files derived from [output_path] *)
  dump_debug : string → pyval → world → res () * world;
  dump_submission : string → pyval → world → res () * world;
  (** [traceback.format_exc()] while [err] is being handled *)
  format_exc : exn → string
}.

(** The configuration [__init__] stores. *)
Record config := Config {
  new_challenge_pipeline : bool;
  subset_path : option string;
  return_parent_pages : bool;
  llm_reranking : bool;
  llm_reranking_sample_size : Z;
  top_n_retrieval : Z;
  answering_model : string;
  parallel_requests : Z;
  full_context : bool
}.

Section Processor.
Context `{Collaborators}.

(** ** The mutable state

    The attributes the methods assign after construction, and the world of
    the collaborators.  [response_data] and [companies_df] do not exist until
    they are first assigned. *)
Record state := State {
  answer_details : ledger;
  response_data : option pyval;
  companies_df : option (list (string * pyval));
  environment : world
}.

Definition set_answer_details (st : state) (l : ledger) : state :=
  {| answer_details := l; response_data := response_data st;
     companies_df := companies_df st; environment := environment st |}.

Definition set_response_data (st : state) (v : pyval) : state :=
  {| answer_details := answer_details st; response_data := Some v;
     companies_df := companies_df st; environment := environment st |}.

Definition set_companies_df (st : state) (table : list (string * pyval)) : state :=
  {| answer_details := answer_details st; response_data := response_data st;
     companies_df := Some table; environment := environment st |}.

Definition set_environment (st : state) (w : world) : state :=
  {| answer_details := answer_details st; response_data := response_data st;
     companies_df := companies_df st; environment := w |}.

(** ** Programs

    A method is a tree of atomic actions on the state.  Between two actions
    of a thread any other thread of the same pool may run. *)
Inductive prog (A : Type) : Type :=
| Ret (a : A)
| Raise (e : exn)
| Atom {X : Type} (act : state → X * state) (k : X → prog A).
Arguments Ret {A} a.
Arguments Raise {A} e.
Arguments Atom {A X} act k.

Fixpoint prog_bind {A B} (f : A → prog B) (p : prog A) : prog B :=
  match p with
  | Ret a => f a
  | Raise e => Raise e
  | Atom act k => Atom act (λ x, prog_bind f (k x))
  end.

#[global] Instance prog_ret : MRet prog := λ A a, Ret a.
#[global] Instance prog_mbind : MBind prog := λ A B f p, prog_bind f p.

(** [try: p except Exception as err: handler(err)] *)
Fixpoint try_except {A} (p : prog A) (handler : exn → prog A) : prog A :=
  match p with
  | Ret a => Ret a
  | Raise e => handler e
  | Atom act k => Atom act (λ x, try_except (k x) handler)
  end.

(** A computation without effect. *)
Definition lift {A} (r : res A) : prog A :=
  match r with Ok a => Ret a | Raises e => Raise e end.

(** One atomic action that returns or raises. *)
Definition atomic {A} (f : state → res A * state) : prog A := Atom f lift.

(** A call of a collaborator. *)
Definition call {A} (f : world → res A * world) : prog A :=
  atomic (λ st, let '(r, w) := f (environment st) in (r, set_environment st w)).

(** Running a program alone, from a state to its outcome. *)
Fixpoint run {A} (p : prog A) (st : state) : res A * state :=
  match p with
  | Ret a => (Ok a, st)
  | Raise e => (Raises e, st)
  | Atom act k => let '(x, st') := act st in run (k x) st'
  end.

(** ** Thread pools

    The tasks of a pool are interleaved by a schedule, a list of task
    numbers: a number makes that task take its next atomic action, or, once
    the task has ended, makes its future complete.  What the schedule leaves
    open is run afterwards, task by task. *)
Definition ended {A} (p : prog A) : bool :=
  match p with Atom _ _ => false | _ => true end.

Definition note_completed (i : nat) (completed : list nat) : list nat :=
  if bool_decide (i ∈ completed) then completed else completed ++ [i].

Fixpoint interleave {A} (sched : list nat) (tasks : list (prog A))
    (completed : list nat) : prog (list (prog A) * list nat) :=
  match sched with
  | [] => Ret (tasks, completed)
  | i :: sched' =>
      match tasks !! i with
      | Some (Atom act k) =>
          Atom act (λ x, interleave sched' (<[i := k x]> tasks) completed)
      | Some _ => interleave sched' tasks (note_completed i completed)
      | None => interleave sched' tasks completed
      end
  end.

(** The outcome of a task, run to its end. *)
Definition outcome {A} (p : prog A) : prog (res A) :=
  try_except (a ← p; Ret (Ok a)) (λ e, Ret (Raises e)).

Fixpoint drain {A} (tasks : list (prog A)) : prog (list (res A)) :=
  match tasks with
  | [] => Ret []
  | t :: tasks' => r ← outcome t; rs ← drain tasks'; Ret (r :: rs)
  end.

(** All tasks run to their end: their outcomes by task number, and the order
    in which their futures completed. *)
Definition run_pool {A} (sched : list nat) (tasks : list (prog A)) :
    prog (list (res A) * list nat) :=
  '(tasks', completed) ← interleave sched tasks [];
  outcomes ← drain tasks';
  Ret (outcomes,
       foldl (λ c i, note_completed i c) completed (seq 0 (length tasks))).

(** [list(executor.map(f, batch))]: the results in the order of submission;
    the first task that raised, in that order, raises again here. *)
Definition executor_map {A} (sched : list nat) (tasks : list (prog A)) :
    prog (list A) :=
  '(outcomes, _) ← run_pool sched tasks;
  lift (res_map id outcomes).

End Processor.

Arguments Ret {_ A} a.
Arguments Raise {_ A} e.
Arguments Atom {_ A X} act k.

(** ** More Python primitives, for the pipeline *)

(** The double quote, and the line feed. *)
Definition dquote : ascii := ascii_of_nat 34.
Definition newline : string := String (ascii_of_nat 10) EmptyString.

(** [re.findall] with the pattern of line 188: the texts between successive
    pairs of double quotes; an opening quote without a closing one matches
    nothing. *)
Fixpoint findall_quoted_from (s : string) (inside : option string) : list string :=
  match s with
  | EmptyString => []
  | String c s' =>
      match inside with
      | None =>
          if Ascii.eqb c dquote then findall_quoted_from s' (Some EmptyString)
          else findall_quoted_from s' None
      | Some acc =>
          if Ascii.eqb c dquote then acc :: findall_quoted_from s' None
          else findall_quoted_from s' (Some (acc ++ String c EmptyString)%string)
      end
  end.

Definition findall_quoted (v : pyval) : res (list string) :=
  match v with
  | PStr s => Ok (findall_quoted_from s None)
  | _ => Raises (TypeError
           ("expected string or bytes-like object, got '" ++ type_name v ++ "'"))
  end.

(** [s1 in s2] on strings. *)
Fixpoint is_substring (s1 s2 : string) : bool :=
  String.prefix s1 s2 ||
  match s2 with
  | EmptyString => false
  | String _ s2' => is_substring s1 s2'
  end.

(** ["..." in v] for a string literal. *)
Definition py_contains_str (k : string) (v : pyval) : res bool :=
  match v with
  | PDict d => Ok (dict_mem k d)
  | PList l => Ok (existsb (λ x, py_eq_str x k) l)
  | PStr s => Ok (is_substring k s)
  | _ => Raises (TypeError
           ("argument of type '" ++ type_name v ++ "' is not iterable"))
  end.

(** [v[k] = x] for a string key. *)
Definition py_setitem (v : pyval) (k : string) (x : pyval) : res pyval :=
  match v with
  | PDict d => Ok (PDict (dict_set d k x))
  | PList _ => Raises (TypeError "list indices must be integers or slices, not str")
  | _ => Raises (TypeError
           ("'" ++ type_name v ++ "' object does not support item assignment"))
  end.

(** Whether an integer and a float denote the same number. *)
Definition float_eq_int (f : float) (z : Z) : bool :=
  match Prim2SF f with
  | S754_zero _ => z =? 0
  | S754_finite s m e =>
      let v := if s then Z.neg m else Z.pos m in
      if 0 <=? e then z =? v * 2 ^ e else z * 2 ^ (- e) =? v
  | _ => false
  end.

Definition int_of_bool (b : bool) : Z := if b then 1 else 0.

(** [a == b] on the values that can be keys: [None], numbers and strings. *)
Definition py_eq (a b : pyval) : bool :=
  match a, b with
  | PNone, PNone => true
  | PStr s, PStr t => String.eqb s t
  | PInt x, PInt y => x =? y
  | PInt x, PBool y => x =? int_of_bool y
  | PBool x, PInt y => int_of_bool x =? y
  | PBool x, PBool y => Bool.eqb x y
  | PFloat f, PFloat g => PrimFloat.eqb f g
  | PFloat f, PInt y => float_eq_int f y
  | PInt x, PFloat g => float_eq_int g x
  | PFloat f, PBool y => float_eq_int f (int_of_bool y)
  | PBool x, PFloat g => float_eq_int g (int_of_bool x)
  | _, _ => false
  end.

(** Lists and dictionaries cannot be hashed. *)
Definition py_hashable (v : pyval) : res () :=
  match v with
  | PList _ | PDict _ =>
      Raises (TypeError ("unhashable type: '" ++ type_name v ++ "'"))
  | _ => Ok ()
  end.

(** [unique_refs[key] = ref] for a pair [key]: a key already present keeps
    its place and takes the new value. *)
Fixpoint unique_set (u : list ((pyval * pyval) * pyval)) (key : pyval * pyval)
    (ref : pyval) : list ((pyval * pyval) * pyval) :=
  match u with
  | [] => [(key, ref)]
  | (key', ref') :: u' =>
      if py_eq (fst key') (fst key) && py_eq (snd key') (snd key)
      then (key', ref) :: u'
      else (key', ref') :: unique_set u' key ref
  end.

(** [l[i] = x] on a list: negative indices count from the end. *)
Definition ledger_set (l : ledger) (i : Z) (x : dict) : res ledger :=
  if bool_decide (0 ≤ i < len l) then Ok (<[Z.to_nat i := Some x]> l)
  else if bool_decide (- len l ≤ i < 0) then Ok (<[Z.to_nat (len l + i) := Some x]> l)
  else Raises (IndexError "list assignment index out of range").

(** [l[i:j]] for [0 ≤ i]. *)
Definition py_slice {A} (l : list A) (i j : Z) : list A :=
  take (Z.to_nat (j - i)) (drop (Z.to_nat i) l).

(** [range(0, stop, step)] for a positive step. *)
Definition py_range_step (stop step : Z) : list Z :=
  (λ k, Z.of_nat k * step) <$> seq 0 (Z.to_nat ((stop + step - 1) `div` step)).

(** The ledger as the JSON value that is dumped. *)
Definition ledger_value (l : ledger) : pyval :=
  PList ((λ slot, match slot with Some d => PDict d | None => PNone end) <$> l).

(** A question as [process_questions_list] hands it to the pipeline: the
    question's own entries, and the entry ['_question_index'], an integer
    where it is present. *)
Record question_data := QuestionData {
  question_fields : dict;
  _question_index : option Z
}.

(** What [process_questions_list] returns. *)
Record output := Output {
  out_questions : list dict;
  out_answer_details : ledger;
  out_statistics : statistics
}.

(** The choices the thread scheduler makes during a run: the interleaving of
    each batch, by the index of its first question, and the interleaving of
    the per-company tasks of each question, by the index of the question. *)
Record schedules := Schedules {
  batch_schedule : Z → list nat;
  company_schedule : Z → list nat
}.

(** ** The scan for company names

    Lines 171-180 on ASCII text.  The pattern of a company is its escaped
    name followed by a non-word character or the end of the text, matched
    without regard to case. *)
Definition to_lower (c : ascii) : ascii :=
  let n := nat_of_ascii c in
  if (65 <=? n)%nat && (n <=? 90)%nat then ascii_of_nat (n + 32) else c.

Definition is_word_char (c : ascii) : bool :=
  let n := nat_of_ascii (to_lower c) in
  is_digit c || ((97 <=? n)%nat && (n <=? 122)%nat) || Ascii.eqb c "_"%char.

(** A match of the pattern at the start of [text]: what follows it. *)
Fixpoint match_company (company text : string) : option string :=
  match company with
  | EmptyString =>
      match text with
      | EmptyString => Some EmptyString
      | String c rest => if is_word_char c then None else Some rest
      end
  | String a company' =>
      match text with
      | EmptyString => None
      | String c rest =>
          if Ascii.eqb (to_lower a) (to_lower c) then match_company company' rest
          else None
      end
  end.

(** [re.search(pattern, text, re.IGNORECASE)], as a truth value. *)
Fixpoint search_company (company text : string) : bool :=
  match match_company company text with
  | Some _ => true
  | None =>
      match text with
      | EmptyString => false
      | String _ rest => search_company company rest
      end
  end.

(** [re.sub(pattern, '', text, flags=re.IGNORECASE)]: the matches are removed
    from left to right; [skip] counts the characters of the current match
    that are still to be removed. *)
Fixpoint remove_company (company text : string) (skip : nat) : string :=
  match text with
  | EmptyString => EmptyString
  | String c rest =>
      match skip with
      | S skip' => remove_company company rest skip'
      | O =>
          match match_company company text with
          | Some after =>
              remove_company company rest
                (String.length text - String.length after - 1)
          | None => String c (remove_company company rest 0)
          end
      end
  end.

(** The loop of lines 173-180. *)
Fixpoint scan_companies (company_names : list string) (question_text : string) :
    list string :=
  match company_names with
  | [] => []
  | company :: rest =>
      if search_company company question_text
      then company :: scan_companies rest (remove_company company question_text 0)
      else scan_companies rest question_text
  end.

(** The same loop on a question text that may not be a string: the first
    search raises then. *)
Definition found_companies (company_names : list string) (question_text : pyval) :
    res (list string) :=
  match company_names, question_text with
  | [], _ => Ok []
  | _, PStr s => Ok (scan_companies company_names s)
  | _, v => Raises (TypeError
      ("expected string or bytes-like object, got '" ++ type_name v ++ "'"))
  end.

(** [Series.unique()]: the values in the order of their first appearance. *)
Definition unique (l : list string) : list string :=
  foldl (λ seen x, if bool_decide (x ∈ seen) then seen else seen ++ [x]) [] l.

(** [sorted(l, key=len, reverse=True)]: longest first, names of one length
    in their given order. *)
Fixpoint insert_by_len (x : string) (l : list string) : list string :=
  match l with
  | [] => [x]
  | y :: l' =>
      if (String.length x <? String.length y)%nat then y :: insert_by_len x l'
      else x :: l
  end.

Definition sorted_by_len_desc (l : list string) : list string :=
  foldr insert_by_len [] l.

(** ** The validator on the values of an answer

    [get_answer_for_company] hands [_validate_page_references] whatever the
    answer holds under ['relevant_pages']: the claimed pages are then values
    of any type, compared with the integer pages of the retrieval by [==].
    Lines 92-119 once more, on values; on a list of integers they agree with
    [Validator._validate_page_references]. *)
Module AnyPages.

(** [page in retrieved_pages], for a claimed page. *)
Definition page_in (retrieved_pages : list Z) (claimed_page : pyval) : bool :=
  existsb (λ p, py_eq (PInt p) claimed_page) retrieved_pages.

(** [page in existing_pages], for a page of the retrieval: the set holds the
    validated pages, and finds a number by its value. *)
Definition counted (existing_pages : list pyval) (p : Z) : bool :=
  existsb (λ v, py_eq v (PInt p)) existing_pages.

(** The [for result in retrieval_results] loop, with [validated_pages] and
    [existing_pages]. *)
Fixpoint backfill (min_pages : Z) (retrieval_results : list passage)
    (validated_pages existing_pages : list pyval) : list pyval :=
  match retrieval_results with
  | [] => validated_pages
  | result :: rest =>
      let p := page result in
      if negb (counted existing_pages p) then
        let validated_pages := validated_pages ++ [PInt p] in
        let existing_pages := existing_pages ++ [PInt p] in
        if bool_decide (len validated_pages >= min_pages) then validated_pages
        else backfill min_pages rest validated_pages existing_pages
      else backfill min_pages rest validated_pages existing_pages
  end.

(** [_validate_page_references(claimed_pages, retrieval_results, min_pages,
    max_pages)].  The comprehension of line 97 iterates over the claimed
    value; the sets of line 100, built when a claimed page was removed, hash
    every claimed page. *)
Definition _validate_page_references (claimed_pages : pyval)
    (retrieval_results : list passage) (min_pages max_pages : Z) : res (list pyval) :=
  claimed_pages ← (match claimed_pages with PNone => Ok [] | v => py_iter v end);
  let retrieved_pages := Validator.retrieved_pages retrieval_results in
  let validated_pages :=
    filter (λ page, page_in retrieved_pages page = true) claimed_pages in
  _ ← (if bool_decide (len validated_pages < len claimed_pages)
       then _ ← res_map py_hashable claimed_pages;
            _ ← res_map py_hashable validated_pages; Ok ()
       else Ok ());
  let validated_pages :=
    if bool_decide (len validated_pages < min_pages) && truthy_list retrieval_results
    then backfill min_pages retrieval_results validated_pages validated_pages
    else validated_pages in
  Ok (if bool_decide (len validated_pages > max_pages)
      then py_slice_to validated_pages max_pages
      else validated_pages).

End AnyPages.

Section Pipeline.
Context `{Collaborators}.
Variable cfg : config.

(** [_format_retrieval_results(retrieval_results)] *)
Definition _format_retrieval_results (retrieval_results : list passage) : string :=
  if negb (truthy_list retrieval_results) then EmptyString
  else
    let triple := String dquote (String dquote (String dquote EmptyString)) in
    String.concat (newline ++ newline ++ "---" ++ newline ++ newline)
      ((λ result,
          ("Text retrieved from page " ++ py_str_int (page result) ++ ": "
           ++ newline ++ triple ++ newline ++ text result ++ newline ++ triple)%string)
       <$> retrieval_results).

(** [self.companies_df = pd.read_csv(self.subset_path)] *)
Definition load_companies (path : string) : prog () :=
  table ← call (read_csv path);
  Atom (λ st, ((), set_companies_df st table)) Ret.

(** The attribute [self.companies_df], once it exists. *)
Definition the_companies : prog (list (string * pyval)) :=
  atomic (λ st,
    (match companies_df st with
     | Some table => Ok table
     | None => Raises (AttributeError
         "'QuestionsProcessor' object has no attribute 'companies_df'")
     end, st)).

(** [_extract_references(pages_list, company_name)] *)
Definition _extract_references (pages_list : list pyval) (company_name : string) :
    prog (list pyval) :=
  match subset_path cfg with
  | None => Raise (ValueError
      "subset_path is required for new challenge pipeline when processing references.")
  | Some path =>
      _ ← load_companies path;
      table ← the_companies;
      let company_sha1 :=
        match find (λ row, String.eqb (fst row) company_name) table with
        | Some row => snd row
        | None => PStr EmptyString
        end in
      Ret ((λ page, PDict [("pdf_sha1", company_sha1); ("page_index", page)])
           <$> pages_list)
  end.

(** [_extract_companies_from_subset(question_text)] *)
Definition _extract_companies_from_subset (question_text : pyval) : prog (list string) :=
  known ← Atom (λ st, (companies_df st, st)) Ret;
  _ ← match known with
      | Some _ => Ret ()
      | None =>
          match subset_path cfg with
          | None => Raise (ValueError
              "subset_path must be provided to use subset extraction")
          | Some path => load_companies path
          end
      end;
  table ← the_companies;
  let company_names := sorted_by_len_desc (unique (fst <$> table)) in
  lift (found_companies company_names question_text).

(** [self.response_data = self.openai_processor.response_data]: the read and
    the write are two actions. *)
Definition copy_response_data : prog () :=
  data ← call (λ w, (processor_response_data w, w));
  Atom (λ st, ((), set_response_data st data)) Ret.

(** [get_answer_for_company(company_name, question, schema)] *)
Definition get_answer_for_company (company_name : string) (question schema : pyval) :
    prog pyval :=
  retrieval_results ←
    (if full_context cfg
     then call (retrieve_all (llm_reranking cfg) company_name)
     else call (retrieve_by_company_name (llm_reranking cfg) company_name question
                  (llm_reranking_sample_size cfg) (top_n_retrieval cfg)
                  (return_parent_pages cfg)));
  if negb (truthy_list retrieval_results)
  then Raise (ValueError "No relevant context found")
  else
    let rag_context := _format_retrieval_results retrieval_results in
    answer_dict ← call (get_answer_from_rag_context question (PStr rag_context)
                          schema (answering_model cfg));
    _ ← copy_response_data;
    if new_challenge_pipeline cfg then
      pages ← lift (py_method_get answer_dict "relevant_pages" (PList []));
      validated_pages ←
        lift (AnyPages._validate_page_references pages retrieval_results 2 8);
      answer_dict ← lift (py_setitem answer_dict "relevant_pages"
                            (PList validated_pages));
      references ← _extract_references validated_pages company_name;
      lift (py_setitem answer_dict "references" (PList references))
    else Ret answer_dict.

(** The nested function [process_company_question(company)]. *)
Definition process_company_question (rephrased_questions : pyval) (company : string) :
    prog (string * pyval) :=
  sub_question ← lift (py_method_get rephrased_questions company PNone);
  if negb (truthy sub_question)
  then Raise (ValueError ("Could not generate sub-question for company: " ++ company))
  else
    answer_dict ← get_answer_for_company company sub_question (PStr "number");
    Ret (company, answer_dict).

(** The loop over [as_completed]: futures are taken in the order of their
    completion, and the first exception met is raised again. *)
Fixpoint collect_answers (completed : list nat) (outcomes : list (res (string * pyval)))
    (individual_answers : dict) (aggregated_references : list pyval) :
    res (dict * list pyval) :=
  match completed with
  | [] => Ok (individual_answers, aggregated_references)
  | i :: completed' =>
      match outcomes !! i with
      | Some (Ok (company, answer_dict)) =>
          company_references ← py_method_get answer_dict "references" (PList []);
          items ← py_iter company_references;
          collect_answers completed' outcomes
            (dict_set individual_answers company answer_dict)
            (aggregated_references ++ items)
      | Some (Raises e) => Raises e
      | None => collect_answers completed' outcomes individual_answers
                  aggregated_references
      end
  end.

(** Lines 502-506: one reference per pair of sha1 and page index. *)
Fixpoint unique_references (aggregated_references : list pyval)
    (unique_refs : list ((pyval * pyval) * pyval)) : res (list pyval) :=
  match aggregated_references with
  | [] => Ok (snd <$> unique_refs)
  | ref :: rest =>
      pdf_sha1 ← py_method_get ref "pdf_sha1" PNone;
      page_index ← py_method_get ref "page_index" PNone;
      _ ← py_hashable pdf_sha1;
      _ ← py_hashable page_index;
      unique_references rest (unique_set unique_refs (pdf_sha1, page_index) ref)
  end.

(** [process_comparative_question(question, companies, schema)], under the
    interleaving [sched] of its per-company tasks. *)
Definition process_comparative_question (sched : list nat) (question : pyval)
    (companies : list string) (schema : pyval) : prog pyval :=
  rephrased_questions ← call (get_rephrased_questions question companies);
  '(outcomes, completed) ←
    run_pool sched (process_company_question rephrased_questions <$> companies);
  '(individual_answers, aggregated_references) ←
    lift (collect_answers completed outcomes [] []);
  aggregated_references ← lift (unique_references aggregated_references []);
  comparative_answer ← call (get_answer_from_rag_context question
                               (PDict individual_answers) (PStr "comparative")
                               (answering_model cfg));
  _ ← copy_response_data;
  lift (py_setitem comparative_answer "references" (PList aggregated_references)).

(** The company names found in the question, by the pipeline in use. *)
Definition extract_companies (question : pyval) : prog (list string) :=
  if new_challenge_pipeline cfg
  then _extract_companies_from_subset question
  else lift (findall_quoted question).

(** [process_question(question, schema)] *)
Definition process_question (sched : list nat) (question schema : pyval) : prog pyval :=
  extracted_companies ← extract_companies question;
  match extracted_companies with
  | [] => Raise (ValueError "No company name found in the question.")
  | [company_name] => get_answer_for_company company_name question schema
  | _ => process_comparative_question sched question extracted_companies schema
  end.

(** The handle of the detail record of a question. *)
Definition detail_handle (question_index : Z) : string :=
  detail_prefix ++ py_str_int question_index.

(** The record [_create_answer_detail_ref] stores, built in a given state. *)
Definition answer_detail (st : state) (answer_dict : pyval) (ref_id : string) :
    res dict :=
  step_by_step_analysis ← py_getitem answer_dict "step_by_step_analysis";
  reasoning_summary ← py_getitem answer_dict "reasoning_summary";
  relevant_pages ← py_getitem answer_dict "relevant_pages";
  data ← match response_data st with
         | Some v => Ok v
         | None => Raises (AttributeError
             "'QuestionsProcessor' object has no attribute 'response_data'")
         end;
  Ok [("step_by_step_analysis", step_by_step_analysis);
      ("reasoning_summary", reasoning_summary);
      ("relevant_pages", relevant_pages);
      ("response_data", data);
      ("self", PStr ref_id)].

(** [with self._lock: self.answer_details[question_index] = detail], one
    atomic action. *)
Definition store_detail (detail : state → res dict) (question_index : Z) : prog () :=
  atomic (λ st,
    match (d ← detail st; ledger_set (answer_details st) question_index d) with
    | Ok l => (Ok (), set_answer_details st l)
    | Raises e => (Raises e, st)
    end).

(** [_create_answer_detail_ref(answer_dict, question_index)] *)
Definition _create_answer_detail_ref (answer_dict : pyval) (question_index : Z) :
    prog string :=
  let ref_id := detail_handle question_index in
  _ ← store_detail (λ st, answer_detail st answer_dict ref_id) question_index;
  Ret ref_id.

(** The error result of [_handle_processing_error], by pipeline. *)
Definition error_result (question_text schema : pyval) (err : exn) (error_ref : string) :
    dict :=
  let message := (exn_type err ++ ": " ++ exn_msg err)%string in
  if new_challenge_pipeline cfg then
    [("question_text", question_text); ("kind", schema); ("value", PNone);
     ("references", PList []); ("error", PStr message);
     ("answer_details", PDict [("$ref", PStr error_ref)])]
  else
    [("question", question_text); ("schema", schema); ("answer", PNone);
     ("error", PStr message);
     ("answer_details", PDict [("$ref", PStr error_ref)])].

Definition error_detail (err : exn) (error_ref : string) : dict :=
  [("error_traceback", PStr (format_exc err)); ("self", PStr error_ref)].

(** [_handle_processing_error(question_text, schema, err, question_index)] *)
Definition _handle_processing_error (question_text schema : pyval) (err : exn)
    (question_index : Z) : prog dict :=
  let error_ref := detail_handle question_index in
  _ ← store_detail (λ _, Ok (error_detail err error_ref)) question_index;
  Ret (error_result question_text schema err error_ref).

(** The question text and the schema, by pipeline. *)
Definition question_text_of (q : question_data) : pyval :=
  if new_challenge_pipeline cfg then py_get (question_fields q) "text"
  else py_get (question_fields q) "question".

Definition schema_of (q : question_data) : pyval :=
  if new_challenge_pipeline cfg then py_get (question_fields q) "kind"
  else py_get (question_fields q) "schema".

Definition question_index_of (q : question_data) : Z := default 0 (_question_index q).

(** The body of the [try] of [_process_single_question]. *)
Definition try_body (sched : list nat) (q : question_data) : prog dict :=
  let question_index := question_index_of q in
  let question_text := question_text_of q in
  let schema := schema_of q in
  answer_dict ← process_question sched question_text schema;
  has_error ← lift (py_contains_str "error" answer_dict);
  if (has_error : bool) then
    detail_ref ← _create_answer_detail_ref
      (PDict [("step_by_step_analysis", PNone); ("reasoning_summary", PNone);
              ("relevant_pages", PNone)]) question_index;
    error ← lift (py_getitem answer_dict "error");
    Ret (if new_challenge_pipeline cfg then
           [("question_text", question_text); ("kind", schema); ("value", PNone);
            ("references", PList []); ("error", error);
            ("answer_details", PDict [("$ref", PStr detail_ref)])]
         else
           [("question", question_text); ("schema", schema); ("answer", PNone);
            ("error", error);
            ("answer_details", PDict [("$ref", PStr detail_ref)])])
  else
    detail_ref ← _create_answer_detail_ref answer_dict question_index;
    final_answer ← lift (py_method_get answer_dict "final_answer" PNone);
    if new_challenge_pipeline cfg then
      references ← lift (py_method_get answer_dict "references" (PList []));
      Ret [("question_text", question_text); ("kind", schema);
           ("value", final_answer); ("references", references);
           ("answer_details", PDict [("$ref", PStr detail_ref)])]
    else
      Ret [("question", question_text); ("schema", schema);
           ("answer", final_answer);
           ("answer_details", PDict [("$ref", PStr detail_ref)])].

(** [_process_single_question(question_data)] *)
Definition _process_single_question (sched : list nat) (q : question_data) : prog dict :=
  try_except (try_body sched q)
    (λ err, _handle_processing_error (question_text_of q) (schema_of q) err
              (question_index_of q)).

(** [_save_progress(processed_questions, output_path, submission_file, ...)] *)
Definition _save_progress (processed_questions : list dict) (output_path : string)
    (submission_file : bool) (team_email submission_name pipeline_details : string) :
    prog () :=
  if negb (String.eqb output_path EmptyString) then
    statistics ← lift (_calculate_statistics processed_questions false);
    details ← Atom (λ st, (answer_details st, st)) Ret;
    _ ← call (dump_debug output_path
                (PDict [("questions", PList (PDict <$> processed_questions));
                        ("answer_details", ledger_value details);
                        ("statistics", statistics_dict statistics)]));
    if submission_file then
      details ← Atom (λ st, (answer_details st, st)) Ret;
      submission_answers ←
        lift (_post_process_submission_answers details processed_questions);
      call (dump_submission output_path
              (PDict [("answers", PList (PDict <$> submission_answers));
                      ("team_email", PStr team_email);
                      ("submission_name", PStr submission_name);
                      ("details", PStr pipeline_details)]))
    else Ret ()
  else Ret ().

Section Batches.
Variable sch : schedules.
(** [output_path] is [None] or a string. *)
Variable output_path : option string.
Variable submission_file : bool.
Variables team_email submission_name pipeline_details : string.

(** [if output_path: self._save_progress(...)] *)
Definition save_if_path (processed_questions : list dict) : prog () :=
  match output_path with
  | Some path =>
      if negb (String.eqb path EmptyString)
      then _save_progress processed_questions path submission_file team_email
             submission_name pipeline_details
      else Ret ()
  | None => Ret ()
  end.

Definition worker (q : question_data) : prog dict :=
  _process_single_question (company_schedule sch (question_index_of q)) q.

(** The loop of lines 242-246. *)
Fixpoint sequential_loop (questions_with_index : list question_data)
    (processed_questions : list dict) : prog (list dict) :=
  match questions_with_index with
  | [] => Ret processed_questions
  | question_data :: rest =>
      processed_question ← worker question_data;
      let processed_questions := processed_questions ++ [processed_question] in
      _ ← save_if_path processed_questions;
      sequential_loop rest processed_questions
  end.

(** The loop of lines 249-258 over the batch starts. *)
Fixpoint batch_loop (parallel_threads : Z) (questions_with_index : list question_data)
    (starts : list Z) (processed_questions : list dict) : prog (list dict) :=
  match starts with
  | [] => Ret processed_questions
  | i :: starts' =>
      let batch := py_slice questions_with_index i (i + parallel_threads) in
      batch_results ← executor_map (batch_schedule sch i) (worker <$> batch);
      let processed_questions := processed_questions ++ batch_results in
      _ ← save_if_path processed_questions;
      batch_loop parallel_threads questions_with_index starts' processed_questions
  end.

(** [process_questions_list(questions_list, output_path, submission_file,
    team_email, submission_name, pipeline_details)] *)
Definition process_questions_list (questions_list : list dict) : prog output :=
  let total_questions := len questions_list in
  let questions_with_index :=
    imap (λ i q, QuestionData q (Some (Z.of_nat i))) questions_list in
  _ ← Atom (λ st, ((), set_answer_details st
                          (replicate (length questions_list) None))) Ret;
  let parallel_threads := parallel_requests cfg in
  processed_questions ←
    (if bool_decide (parallel_threads ≤ 1)
     then sequential_loop questions_with_index []
     else batch_loop parallel_threads questions_with_index
            (py_range_step total_questions parallel_threads) []);
  statistics ← lift (_calculate_statistics processed_questions true);
  details ← Atom (λ st, (answer_details st, st)) Ret;
  Ret {| out_questions := processed_questions;
         out_answer_details := details;
         out_statistics := statistics |}.

(** The loop the configured parallelism selects (lines 241-258), on the
    indexed questions. *)
Definition main_loop (questions_list : list dict) : prog (list dict) :=
  let questions_with_index :=
    imap (λ i q, QuestionData q (Some (Z.of_nat i))) questions_list in
  if bool_decide (parallel_requests cfg ≤ 1)
  then sequential_loop questions_with_index []
  else batch_loop (parallel_requests cfg) questions_with_index
         (py_range_step (len questions_list) (parallel_requests cfg)) [].

End Batches.
End Pipeline.

(** ** Reasoning about programs under interference

    [wp R p Q st]: from [st], whatever the other threads do between the
    actions of [p] within the relation [R], every action of [p] stays within
    [R] and every outcome of [p] satisfies [Q] in the state it is reached. *)
Section Logic.
Context `{Collaborators}.

Fixpoint wp (R : relation state) {A} (p : prog A) (Q : res A → state → Prop)
    (st : state) : Prop :=
  match p with
  | Ret a => Q (Ok a) st
  | Raise e => Q (Raises e) st
  | Atom act k =>
      ∀ st1, R st st1 →
             R st1 (act st1).2 ∧ wp R (k (act st1).1) Q (act st1).2
  end.

(** A postcondition that survives interference. *)
Definition stable (R : relation state) {A} (Q : res A → state → Prop) : Prop :=
  ∀ r st st', Q r st → R st st' → Q r st'.

(** A program all of whose actions stay within [R]. *)
Definition harmless (R : relation state) {A} (p : prog A) : Prop :=
  ∀ st, wp R p (λ _ _, True) st.

(** No interference is excluded. *)
Definition anything : relation state := λ _ _, True.

(** A program that never returns: under any interference all its outcomes
    are exceptions. *)
Definition fails {A} (p : prog A) : Prop :=
  ∀ st, wp anything p (λ r _, ∃ e, r = Raises e) st.

(** Slot [i] of the ledger holds a record whose handle names [i]. *)
Definition filled (i : nat) (st : state) : Prop :=
  ∃ d, answer_details st !! i = Some (Some d) ∧
       dict_get d "self" = Some (PStr (detail_handle (Z.of_nat i))).

(** What the workers of a run do to the ledger: its length stays, and a
    filled slot stays filled. *)
Definition evolves : relation state :=
  λ st st', length (answer_details st') = length (answer_details st) ∧
            ∀ i, filled i st → filled i st'.

(** The result [res] answers question [q], the [i]-th of the list: it
    carries the text and the schema of [q] and the handle of slot [i]. *)
Definition result_of_question (cfg : config) (q : question_data) (i : nat)
    (res : dict) : Prop :=
  py_get res (if new_challenge_pipeline cfg then "question_text" else "question")
  = question_text_of cfg q ∧
  py_get res (if new_challenge_pipeline cfg then "kind" else "schema")
  = schema_of cfg q ∧
  py_get res "answer_details" = PDict [("$ref", PStr (detail_handle (Z.of_nat i)))].

(** What a worker owes for question [q] at index [i]: a result for [q], and
    slot [i] filled. *)
Definition worker_post (cfg : config) (q : question_data) (i : nat) :
    res dict → state → Prop :=
  λ r st, ∃ res, r = Ok res ∧ result_of_question cfg q i res ∧ filled i st.

(** The questions [done] have been answered by [processed], in order, and
    their slots are filled. *)
Definition covered (cfg : config) (done : list question_data)
    (processed : list dict) (st : state) : Prop :=
  length processed = length done ∧
  (∀ k q, done !! k = Some q →
          ∃ res, processed !! k = Some res ∧ result_of_question cfg q k res) ∧
  (∀ k, (k < length done)%nat → filled k st).

(** Progress is saved: [output_path] is a non-empty string. *)
Definition saving (output_path : option string) : Prop :=
  ∃ path, output_path = Some path ∧ path ≠ EmptyString.

(** The questions as [process_questions_list] indexes them. *)
Definition with_index (questions_list : list dict) : list question_data :=
  imap (λ i q, QuestionData q (Some (Z.of_nat i))) questions_list.

(** The postcondition inside the [try] of a worker: a result, or an
    exception the handler will turn into one. *)
Definition try_post (cfg : config) (q : question_data) (i : nat) :
    res dict → state → Prop :=
  λ r st, (i < length (answer_details st))%nat →
          match r with
          | Ok res => worker_post cfg q i (Ok res) st
          | Raises e =>
              wp evolves (_handle_processing_error cfg (question_text_of cfg q)
                            (schema_of cfg q) e (question_index_of q))
                (worker_post cfg q i) st
          end.

(** What a loop delivers: every question answered in order and every slot
    filled; it raises only when saving the progress does. *)
Definition loop_post (cfg : config) (output_path : option string)
    (qs : list question_data) : res (list dict) → state → Prop :=
  λ r st, match r with
          | Ok processed => covered cfg qs processed st
          | Raises _ => saving output_path
          end.

(** The state after the handler has recorded [e] for the question at [i]. *)
Definition with_error_detail (i : nat) (e : exn) (st : state) : state :=
  set_answer_details st
    (<[i := Some (error_detail e (detail_handle (Z.of_nat i)))]> (answer_details st)).

End Logic.

(** ** A small instance of the collaborators

    A retrieval that knows one company, an answering service with one
    answer, and files that are always writable; the world has no state. *)
Module Demo.

Definition passages : list passage :=
  [Passage 3 "Revenue by segment"; Passage 5 "Notes to the accounts"].

Definition retrieve (company : string) : res (list passage) :=
  if String.eqb company "Acme" then Ok passages else Ok [].

Definition answer : pyval :=
  PDict [("step_by_step_analysis", PStr "The table on page 3 gives the figure.");
         ("reasoning_summary", PStr "Read from the segment table.");
         ("relevant_pages", PList [PInt 3; PInt 9]);
         ("final_answer", PInt 42)].

#[export] Instance collaborators : Collaborators := {|
  world := ();
  retrieve_all := λ _ company w, (retrieve company, w);
  retrieve_by_company_name := λ _ company _ _ _ _ w, (retrieve company, w);
  get_answer_from_rag_context := λ _ _ _ _ w, (Ok answer, w);
  processor_response_data := λ _, Ok (PDict [("model", PStr "demo")]);
  get_rephrased_questions := λ _ companies w,
    (Ok (PDict ((λ c, (c, PStr ("What is the revenue of " ++ c ++ "?")%string))
                <$> companies)), w);
  read_csv := λ _ w, (Ok [("Acme", PStr "0a1b2c"); ("Bolt", PStr "3d4e5f")], w);
  dump_debug := λ _ _ w, (Ok (), w);
  dump_submission := λ _ _ w, (Ok (), w);
  format_exc := λ e,
    ("Traceback (most recent call last): " ++ exn_type e ++ ": " ++ exn_msg e)%string
|}.

Definition legacy : config :=
  {| new_challenge_pipeline := false; subset_path := None;
     return_parent_pages := false; llm_reranking := false;
     llm_reranking_sample_size := 20; top_n_retrieval := 10;
     answering_model := "gpt-4o-2024-08-06"; parallel_requests := 10;
     full_context := false |}.

Definition challenge : config :=
  {| new_challenge_pipeline := true; subset_path := Some "subset.csv";
     return_parent_pages := false; llm_reranking := false;
     llm_reranking_sample_size := 20; top_n_retrieval := 10;
     answering_model := "gpt-4o-2024-08-06"; parallel_requests := 10;
     full_context := false |}.

(** A question that names no company between double quotes, for the legacy
    pipeline, and a question for the challenge pipeline. *)
Definition unnamed : question_data :=
  QuestionData [("question", PStr "Who is the CEO?"); ("schema", PStr "name")] (Some 0).

Definition compared : question_data :=
  QuestionData [("text", PStr "Which of Acme and Bolt had the higher revenue?");
                ("kind", PStr "name")] (Some 0).

(** Three questions for the legacy pipeline: about one company, about two,
    and about none. *)
Definition quoted (s : string) : string :=
  String dquote (s ++ String dquote EmptyString).

Definition questions : list dict :=
  [ [("question", PStr ("What was the revenue of " ++ quoted "Acme" ++ "?"));
     ("schema", PStr "number")];
    [("question", PStr ("Did " ++ quoted "Acme" ++ " outgrow " ++ quoted "Bolt" ++ "?"));
     ("schema", PStr "boolean")];
    [("question", PStr "Who is the CEO?"); ("schema", PStr "name")] ].

(** A schedule that lets the workers of a batch, and the per-company tasks
    of a question, take turns. *)
Definition taking_turns : schedules :=
  {| batch_schedule := λ _, [2; 1; 0; 0; 1; 2; 2; 2; 1; 0]%nat;
     company_schedule := λ _, [1; 0; 1; 0]%nat |}.

(** A processor whose ledger has one empty slot. *)
Definition fresh : state := State [None] None None ().

End Demo.

(** ** Further notions, for the properties beyond the specification *)

(** What the export makes of a result [q]: the text and the kind under
    either pair of names, the four keys of the submission schema in their
    order, and the key ['reasoning_process'] exactly when the handle of [q]
    leads to a truthy analysis. *)
Definition answer_shape (answer_details : ledger) (q a : dict) : Prop :=
  py_get a "question_text" = py_or (py_get q "question_text") (py_get q "question") ∧
  py_get a "kind" = py_or (py_get q "kind") (py_get q "schema") ∧
  ∃ analysis, narrative answer_details q = Ok analysis ∧
    fst <$> a = (if truthy analysis
                 then ["question_text"; "kind"; "value"; "references"; "reasoning_process"]
                 else ["question_text"; "kind"; "value"; "references"]) ∧
    (truthy analysis = true → py_get a "reasoning_process" = analysis).

(** A result whose only reference lacks its page index. *)
Definition result_without_page_index : dict :=
  [("question_text", PStr "q4"); ("kind", PStr "number"); ("value", PInt 1);
   ("references", PList [PDict [("pdf_sha1", PStr "sha")]]);
   ("answer_details", PDict [("$ref", PStr "#/answer_details/3")])].

(** The first of the three keys [_create_answer_detail_ref] reads that an
    answer lacks. *)
Definition first_missing (d : dict) : option string :=
  find (λ k, negb (dict_mem k d))
    ["step_by_step_analysis"; "reasoning_summary"; "relevant_pages"].

(** The detail record [_create_answer_detail_ref] stores at index [i]. *)
Definition stored_detail (a1 a2 a3 rd : pyval) (i : nat) : dict :=
  [("step_by_step_analysis", a1); ("reasoning_summary", a2); ("relevant_pages", a3);
   ("response_data", rd); ("self", PStr (detail_handle (Z.of_nat i)))].

(** The number of double quotes in a string. *)
Fixpoint count_quotes (s : string) : nat :=
  match s with
  | EmptyString => 0
  | String c s' => (if Ascii.eqb c dquote then 1 else 0) + count_quotes s'
  end.

(** A text made of pieces, each a separator followed by a name between
    double quotes, and a tail. *)
Fixpoint quoted_text (parts : list (string * string)) (tail : string) : string :=
  match parts with
  | [] => tail
  | (sep, name) :: parts' =>
      (sep ++ String dquote (name ++ String dquote (quoted_text parts' tail)))%string
  end.

(** A question without a text, at index 0. *)
Definition untitled : question_data :=
  QuestionData [("schema", PStr "name")] (Some 0).

(** The values of a list in the order of their first appearance, after
    those already [seen]. *)
Definition first_occurrences {A} `{EqDecision A} (seen l : list A) : list A :=
  foldl (λ seen x, if bool_decide (x ∈ seen) then seen else seen ++ [x]) seen l.

(** An evidence reference whose sha1 is a string, and the entry that
    [unique_refs] holds for it. *)
Definition string_reference (r : string * Z) : pyval :=
  evidence_reference (PStr r.1, r.2).

Definition reference_entry (r : string * Z) : (pyval * pyval) * pyval :=
  ((PStr r.1, PInt r.2), string_reference r).

(** The order of [sorted(..., key=len, reverse=True)]. *)
Definition longer_first : relation string :=
  λ a b, (String.length b ≤ String.length a)%nat.

(** A number: an integer, a truth value or a float.  Only a number compares
    equal to an integer page. *)
Definition numeric (v : pyval) : bool :=
  match v with PInt _ | PBool _ | PFloat _ => true | _ => false end.

(** A page backed by the retrieval: a number equal to one of the retrieved
    pages. *)
Definition backed (retrieved_pages : list Z) (v : pyval) : Prop :=
  numeric v = true ∧ ∃ p, p ∈ retrieved_pages ∧ py_eq (PInt p) v = true.

(** The reference [_extract_references] builds for a page. *)
Definition page_reference (company_sha1 page : pyval) : pyval :=
  PDict [("pdf_sha1", company_sha1); ("page_index", page)].

(** A reference to a page that is a number, and an answer whose references,
    if it is a dictionary, are such references. *)
Definition is_reference (v : pyval) : Prop :=
  ∃ company_sha1 page, v = page_reference company_sha1 page ∧ numeric page = true.

Definition has_references (a : pyval) : Prop :=
  ∀ d, a = PDict d →
       ∃ l, py_get_default d "references" (PList []) = PList l ∧ Forall is_reference l.

(** A processed result the export accepts: the detail handle, where there is
    one, is a string, and the references of a result that is neither an
    error nor "N/A" refer to pages that are numbers. *)
Definition exportable_result (q : dict) : Prop :=
  (∃ d h, py_get_default q "answer_details" (PDict []) = PDict d ∧
          py_get_default d "$ref" (PStr EmptyString) = PStr h) ∧
  (dict_mem "error" q = true ∨ py_eq_str (answer_value q) "N/A" = true ∨
   ∃ l, py_get_default q "references" (PList []) = PList l ∧ Forall is_reference l).

Section Frames.
Context `{Collaborators}.

(** The ledger is left as it is. *)
Definition same_ledger : relation state :=
  λ st st', answer_details st' = answer_details st.

(** The attribute [response_data], once assigned, stays assigned. *)
Definition keeps_response : relation state :=
  λ st st', is_Some (response_data st) → is_Some (response_data st').

(** The ledger keeps its length and its slot [j]. *)
Definition keeps_slot (j : nat) : relation state :=
  λ st st', length (answer_details st') = length (answer_details st) ∧
            answer_details st' !! j = answer_details st !! j.

(** Only the world of the collaborators changes. *)
Definition same_attributes : relation state :=
  λ st st', answer_details st' = answer_details st ∧
            response_data st' = response_data st ∧
            companies_df st' = companies_df st.

(** An answer comes with [response_data] assigned. *)
Definition assigned {A} : res A → state → Prop :=
  λ r st, match r with Ok _ => is_Some (response_data st) | Raises _ => True end.

(** The retrieval [get_answer_for_company] asks for (lines 134-143). *)
Definition retrieval (cfg : config) (company_name : string) (question : pyval) :
    world → res (list passage) * world :=
  if full_context cfg
  then retrieve_all (llm_reranking cfg) company_name
  else retrieve_by_company_name (llm_reranking cfg) company_name question
         (llm_reranking_sample_size cfg) (top_n_retrieval cfg)
         (return_parent_pages cfg).

(** The retrieval finds nothing for a company, whatever the question. *)
Definition no_context (cfg : config) (company : string) : Prop :=
  ∀ question w, match (retrieval cfg company question w).1 with
                | Ok rs => rs = []
                | Raises _ => True
                end.

(** An answer of the challenge pipeline for a company: its pages are what
    the validator makes of some claimed value and a non-empty retrieval for
    that company and question, every page is a number equal to a retrieved
    page, there are between one and eight of them, and the references name
    exactly these pages, in their order, with one sha1. *)
Definition retrieval_backed (cfg : config) (company : string) (question a : pyval) :
    Prop :=
  ∃ (rs : list passage) (w : world) (claimed : pyval) (pages : list pyval)
    (sha : pyval) (d : dict),
    (retrieval cfg company question w).1 = Ok rs ∧ rs ≠ [] ∧ a = PDict d ∧
    AnyPages._validate_page_references claimed rs 2 8 = Ok pages ∧
    dict_get d "relevant_pages" = Some (PList pages) ∧
    dict_get d "references" = Some (PList (page_reference sha <$> pages)) ∧
    Forall (backed (Validator.retrieved_pages rs)) pages ∧ 0 < len pages ≤ 8.

(** Every result can be exported. *)
Definition shaped : res dict → state → Prop :=
  λ r _, ∀ res, r = Ok res → exportable_result res.

Definition all_shaped : res (list dict) → state → Prop :=
  λ r _, ∀ results, r = Ok results → Forall exportable_result results.

(** A loop returns, with results that can be exported. *)
Definition returns_shaped : res (list dict) → state → Prop :=
  λ r _, ∃ results, r = Ok results ∧ Forall exportable_result results.

(** The files of the progress can always be written. *)
Definition files_writable : Prop :=
  ∀ path v w, (dump_debug path v w).1 = Ok () ∧ (dump_submission path v w).1 = Ok ().

(** [process_all_questions(output_path, team_email, submission_name,
    submission_file, pipeline_details)], on the questions [self.questions]
    that the constructor loaded. *)
Definition process_all_questions (cfg : config) (sch : schedules)
    (questions : list dict) (output_path team_email submission_name : string)
    (submission_file : bool) (pipeline_details : string) : prog output :=
  process_questions_list cfg sch (Some output_path) submission_file team_email
    submission_name pipeline_details questions.

End Frames.

(** ** Answering services with one fixed answer

    The collaborators of [Demo] with another answer of the answering
    service. *)
Module Fixed.

Definition answering (a : pyval) : Collaborators := {|
  world := ();
  retrieve_all := λ _ company w, (Demo.retrieve company, w);
  retrieve_by_company_name := λ _ company _ _ _ _ w, (Demo.retrieve company, w);
  get_answer_from_rag_context := λ _ _ _ _ w, (Ok a, w);
  processor_response_data := λ _, Ok (PDict [("model", PStr "demo")]);
  get_rephrased_questions := λ _ companies w,
    (Ok (PDict ((λ c, (c, PStr ("What is the revenue of " ++ c ++ "?")%string))
                <$> companies)), w);
  read_csv := λ _ w, (Ok [("Acme", PStr "0a1b2c"); ("Bolt", PStr "3d4e5f")], w);
  dump_debug := λ _ _ w, (Ok (), w);
  dump_submission := λ _ _ w, (Ok (), w);
  format_exc := λ e,
    ("Traceback (most recent call last): " ++ exn_type e ++ ": " ++ exn_msg e)%string
|}.

(** An answer that reports an error of the service, and one without the
    reasoning summary and the pages. *)
Definition refusal : dict := [("error", PStr "The request was refused.")].

Definition terse : dict :=
  [("step_by_step_analysis", PStr "See page 3."); ("final_answer", PInt 42)].

(** A question about one company, for the legacy pipeline, at index 0 and at
    index 5. *)
Definition named_fields : dict :=
  [("question", PStr ("What was the revenue of " ++ Demo.quoted "Acme" ++ "?"));
   ("schema", PStr "number")].

Definition named : question_data := QuestionData named_fields (Some 0).
Definition misplaced : question_data := QuestionData named_fields (Some 5).

(** A processor whose ledger has one empty slot, before and after the
    services answered. *)
Definition fresh (a : pyval) : state (H := answering a) :=
  State (H := answering a) [None] None None ().

Definition answered (a : pyval) : state (H := answering a) :=
  State (H := answering a) [None] (Some (PDict [("model", PStr "demo")])) None ().

(** Services that rephrase a comparative question for Acme only. *)
Definition forgetful : Collaborators := {|
  world := ();
  retrieve_all := λ _ company w, (Demo.retrieve company, w);
  retrieve_by_company_name := λ _ company _ _ _ _ w, (Demo.retrieve company, w);
  get_answer_from_rag_context := λ _ _ _ _ w, (Ok Demo.answer, w);
  processor_response_data := λ _, Ok (PDict [("model", PStr "demo")]);
  get_rephrased_questions := λ _ _ w,
    (Ok (PDict [("Acme", PStr "What is the revenue of Acme?")]), w);
  read_csv := λ _ w, (Ok [("Acme", PStr "0a1b2c"); ("Bolt", PStr "3d4e5f")], w);
  dump_debug := λ _ _ w, (Ok (), w);
  dump_submission := λ _ _ w, (Ok (), w);
  format_exc := λ e,
    ("Traceback (most recent call last): " ++ exn_type e ++ ": " ++ exn_msg e)%string
|}.

(** The challenge pipeline without its subset file. *)
Definition misconfigured : config :=
  {| new_challenge_pipeline := true; subset_path := None;
     return_parent_pages := false; llm_reranking := false;
     llm_reranking_sample_size := 20; top_n_retrieval := 10;
     answering_model := "gpt-4o-2024-08-06"; parallel_requests := 10;
     full_context := false |}.



(** Two questions for the challenge pipeline: about Acme, and about Acme and
    Bolt. *)
Definition challenge_questions : list dict :=
  [ [("text", PStr "What was the revenue of Acme?"); ("kind", PStr "number")];
    question_fields Demo.compared ].

Definition table_loaded : state (H := Demo.collaborators) :=
  State (H := Demo.collaborators) [None] None
    (Some [("Acme", PStr "0a1b2c"); ("Bolt", PStr "3d4e5f")]) ().

End Fixed.
(** * Properties of the reference validator *)

Module ValidatorFacts.
Import Validator.

Lemma len_app_one {A} (l : list A) (x : A) : len (l ++ [x]) = len l + 1.
Proof. unfold len. rewrite length_app. simpl. lia. Qed.

Lemma py_slice_to_prefix {A} (l : list A) (k : Z) : py_slice_to l k `prefix_of` l.
Proof. unfold py_slice_to. case_bool_decide; apply prefix_take. Qed.

Lemma py_slice_to_len {A} (l : list A) (k : Z) :
  0 ≤ k → k < len l → len (py_slice_to l k) = k.
Proof.
  intros H0 Hk. unfold py_slice_to, len in *.
  rewrite bool_decide_eq_true_2 by done. rewrite length_take. lia.
Qed.

(** The filter keeps only retrieved pages. *)
Lemma filter_claimed_retrieved claimed rs p :
  p ∈ filter_claimed claimed rs → p ∈ retrieved_pages rs.
Proof. unfold filter_claimed. rewrite list_elem_of_filter. tauto. Qed.

Lemma filter_claimed_all_valid cl rs :
  (∀ p, p ∈ cl → p ∈ retrieved_pages rs) → filter_claimed (Some cl) rs = cl.
Proof.
  intros Hv. unfold filter_claimed. simpl.
  induction cl as [|c cl IH]; [done|].
  rewrite filter_cons_True by (apply Hv; left).
  f_equal. apply IH. intros p Hp. apply Hv. by right.
Qed.

(** What the backfill loop establishes, for a set of seen pages that mirrors
    the list: the claimed part is kept in front, additions are retrieved
    pages, the loop stops at [min_pages] entries, and it stops short of that
    only when every retrieved page is already listed. *)
Lemma backfill_spec min_pages rs validated (existing : gset Z) :
  existing = list_to_set validated →
  len validated < min_pages →
  let out := backfill min_pages rs validated existing in
  validated `prefix_of` out ∧
  (∀ p, p ∈ out → p ∈ validated ∨ p ∈ retrieved_pages rs) ∧
  len out ≤ min_pages ∧
  (len out < min_pages → ∀ p, p ∈ retrieved_pages rs → p ∈ out).
Proof.
  revert validated existing.
  induction rs as [|r rs IH]; intros validated existing Hex Hlt; simpl.
  - split_and!; [done|auto|lia|]. intros _ p Hp. by apply elem_of_nil in Hp.
  - case_bool_decide as Hin.
    + case_bool_decide as Hge.
      * rewrite len_app_one in Hge.
        split_and!.
        -- by apply prefix_app_r.
        -- intros p [Hp|Hp]%elem_of_app; [by left|].
           apply list_elem_of_singleton in Hp as ->. right. unfold retrieved_pages.
           simpl. left.
        -- rewrite len_app_one. lia.
        -- rewrite len_app_one. lia.
      * rewrite len_app_one in Hge.
        destruct (IH (validated ++ [page r]) (existing ∪ {[page r]}))
          as (Hpre & Hmem & Hle & Hall).
        { subst existing. by rewrite list_to_set_snoc_L. }
        { rewrite len_app_one. lia. }
        split_and!.
        -- etrans; [|exact Hpre]. by apply prefix_app_r.
        -- intros p Hp. destruct (Hmem p Hp) as [[Hq|Hq]%elem_of_app|Hq].
           ++ by left.
           ++ apply list_elem_of_singleton in Hq as ->. right. simpl. left.
           ++ right. simpl. by right.
        -- done.
        -- intros Hshort p Hp. simpl in Hp.
           apply elem_of_cons in Hp as [->|Hp]; [|by apply Hall].
           eapply elem_of_prefix; [|exact Hpre]. apply elem_of_app. right. left.
    + destruct (IH validated existing Hex Hlt) as (Hpre & Hmem & Hle & Hall).
      split_and!; [done| |done|].
      * intros p Hp. destruct (Hmem p Hp); [by left|right; simpl; by right].
      * intros Hshort p Hp. simpl in Hp.
        apply elem_of_cons in Hp as [->|Hp]; [|by apply Hall].
        eapply elem_of_prefix; [|exact Hpre].
        subst existing. by apply elem_of_list_to_set in Hin.
Qed.

(** A list that mentions every element of a set is at least as long as the
    set is large. *)
Lemma size_list_to_set_le (l : list Z) : (size (list_to_set (C := gset Z) l) ≤ length l)%nat.
Proof.
  induction l as [|x l IH].
  - rewrite list_to_set_nil, size_empty. done.
  - rewrite list_to_set_cons, size_union_alt, size_singleton.
    pose proof (subseteq_size (list_to_set l ∖ {[x]}) (list_to_set (C := gset Z) l)) as Hs.
    simpl. specialize (Hs ltac:(set_solver)). lia.
Qed.

Lemma available_le_len rs (out : list Z) :
  (∀ p, p ∈ retrieved_pages rs → p ∈ out) → available rs ≤ len out.
Proof.
  intros Hall. unfold available, len. apply inj_le.
  etrans; [|apply size_list_to_set_le].
  apply subseteq_size. intros p Hp.
  apply elem_of_list_to_set. apply Hall. by apply elem_of_list_to_set in Hp.
Qed.

End ValidatorFacts.

Module ValidatorClaims.
Import Validator ValidatorFacts.

(** C1 (as stated, refuted): on [claimed_pages=[3,3,9]] and retrieved pages
    2,3,4,5 the validator does not return page 3 exactly once; the filter
    keeps both claimed occurrences. *)
Lemma validate_claimed_3_3_9_not_deduplicated :
  ¬ (let out := validate_default (Some [3; 3; 9]) (passages_of [2; 3; 4; 5]) in
     (9 ∉ out) ∧ occurrences 3 out = 1%nat).
Proof. vm_compute. intros [_ H]. discriminate H. Qed.

(** C1 (amended): for [claimed_pages=[3,3,9]] and any retrieval whose pages
    are 2,3,4,5 in some relevance order, with the default bounds, the output
    is [[3,3]]: page 9 is dropped, page 3 is kept once per claimed occurrence,
    and since two entries remain nothing is padded from 2,4,5. *)
Theorem validate_claimed_3_3_9 (rs : list passage) :
  retrieved_pages rs ≡ₚ [2; 3; 4; 5] →
  let out := validate_default (Some [3; 3; 9]) rs in
  out = [3; 3] ∧ (9 ∉ out) ∧ occurrences 3 out = 2%nat ∧
  out = claimed_then_backfilled (Some [3; 3; 9]) rs 2.
Proof.
  intros Hperm.
  assert (H3 : 3 ∈ retrieved_pages rs) by (rewrite Hperm; set_solver).
  assert (H9 : 9 ∉ retrieved_pages rs).
  { rewrite Hperm. rewrite !elem_of_cons, elem_of_nil. lia. }
  assert (Hf : filter_claimed (Some [3; 3; 9]) rs = [3; 3]).
  { unfold filter_claimed. simpl.
    rewrite filter_cons_True by done. rewrite filter_cons_True by done.
    rewrite filter_cons_False by done. done. }
  assert (Hb : claimed_then_backfilled (Some [3; 3; 9]) rs 2 = [3; 3]).
  { unfold claimed_then_backfilled. rewrite Hf. done. }
  assert (Ho : validate_default (Some [3; 3; 9]) rs = [3; 3]).
  { unfold validate_default, _validate_page_references. rewrite Hb. done. }
  simpl. rewrite Ho, Hb. split_and!; [done| |done|done].
  rewrite !elem_of_cons, elem_of_nil. lia.
Qed.

Lemma validate_claimed_3_3_9_witness :
  validate_default (Some [3; 3; 9]) (passages_of [2; 3; 4; 5]) = [3; 3].
Proof.
  apply (validate_claimed_3_3_9 (passages_of [2; 3; 4; 5])). reflexivity.
Defined.

(** C6: with bounds [0 ≤ max_pages] and [min_pages ≤ max_pages] (the defaults
    are 2 and 8), the output of the validator has between
    [min(min_pages, available)] and [max_pages] entries, where [available] is
    the number of distinct retrieved pages, and every entry is a retrieved
    page; given 10 claimed pages that are all retrieved and [max_pages=8], the
    output is the first 8 claimed pages, a prefix of the claimed-then-backfilled
    sequence. *)
Theorem validate_size_and_membership (claimed : option (list Z))
    (rs : list passage) (min_pages max_pages : Z) :
  0 ≤ max_pages → min_pages ≤ max_pages →
  let out := _validate_page_references claimed rs min_pages max_pages in
  (Z.min min_pages (available rs) ≤ len out ≤ max_pages) ∧
  (∀ p, p ∈ out → p ∈ retrieved_pages rs) ∧
  out `prefix_of` claimed_then_backfilled claimed rs min_pages ∧
  (∀ cl, claimed = Some cl → len cl = 10 →
         (∀ p, p ∈ cl → p ∈ retrieved_pages rs) → max_pages = 8 →
         len out = 8 ∧ out = take 8 cl).
Proof.
  intros Hmax Hmm.
  (* the sequence before the trim *)
  assert (Hcb : let cb := claimed_then_backfilled claimed rs min_pages in
            filter_claimed claimed rs `prefix_of` cb ∧
            (∀ p, p ∈ cb → p ∈ retrieved_pages rs) ∧
            Z.min min_pages (available rs) ≤ len cb).
  { unfold claimed_then_backfilled.
    destruct (bool_decide (len (filter_claimed claimed rs) < min_pages)) eqn:Hlt.
    - apply bool_decide_eq_true_1 in Hlt.
      destruct (truthy_list rs) eqn:Ht; cbn [andb].
      + destruct (backfill_spec min_pages rs (filter_claimed claimed rs)
                    (list_to_set (filter_claimed claimed rs)) eq_refl Hlt)
          as (Hpre & Hmem & Hle & Hall).
        set (bf := backfill min_pages rs (filter_claimed claimed rs)
                     (list_to_set (filter_claimed claimed rs))) in *.
        split_and!; [done| |].
        * intros p Hp. destruct (Hmem p Hp) as [Hq|Hq]; [|done].
          by apply filter_claimed_retrieved in Hq.
        * destruct (decide (len bf < min_pages)) as [Hs|Hs].
          -- etrans; [apply Z.le_min_r|]. apply available_le_len. by apply Hall.
          -- etrans; [apply Z.le_min_l|]. lia.
      + destruct rs; [|discriminate].
        split_and!; [done|apply filter_claimed_retrieved|].
        unfold available, retrieved_pages.
        rewrite fmap_nil, list_to_set_nil, size_empty. unfold len. lia.
    - apply bool_decide_eq_false_1 in Hlt. cbn [andb].
      split_and!; [done|apply filter_claimed_retrieved|].
      etrans; [apply Z.le_min_l|]. lia. }
  simpl in Hcb. destruct Hcb as (Hpre & Hmem & Hlow).
  unfold _validate_page_references. simpl.
  set (cb := claimed_then_backfilled claimed rs min_pages) in *.
  assert (Hout : (if bool_decide (len cb > max_pages) then py_slice_to cb max_pages else cb)
                 `prefix_of` cb).
  { case_bool_decide; [apply py_slice_to_prefix|done]. }
  split_and!.
  - case_bool_decide as Hgt.
    + rewrite py_slice_to_len by lia. lia.
    + lia.
  - case_bool_decide as Hgt; lia || (rewrite py_slice_to_len by lia; lia).
  - intros p Hp. apply Hmem. by eapply elem_of_prefix.
  - done.
  - intros cl -> Hten Hvalid ->.
    rewrite filter_claimed_all_valid in Hpre by done.
    assert (Hlen : 10 ≤ len cb).
    { apply prefix_length in Hpre. unfold len in *. lia. }
    rewrite bool_decide_eq_true_2 by lia.
    split; [apply py_slice_to_len; lia|].
    unfold py_slice_to. rewrite bool_decide_eq_true_2 by lia.
    destruct Hpre as [k ->]. change (Z.to_nat 8) with 8%nat.
    rewrite take_app_le; [done|]. unfold len in Hten. lia.
Qed.

Lemma validate_size_and_membership_witness :
  len (_validate_page_references (Some [1; 2; 3; 4; 5; 6; 7; 8; 9; 10])
         (passages_of [10; 9; 8; 7; 6; 5; 4; 3; 2; 1; 11]) 2 8) = 8 ∧
  _validate_page_references (Some [1; 2; 3; 4; 5; 6; 7; 8; 9; 10])
    (passages_of [10; 9; 8; 7; 6; 5; 4; 3; 2; 1; 11]) 2 8 = [1; 2; 3; 4; 5; 6; 7; 8].
Proof.
  refine (proj2 (proj2 (proj2 (validate_size_and_membership
    (Some [1; 2; 3; 4; 5; 6; 7; 8; 9; 10])
    (passages_of [10; 9; 8; 7; 6; 5; 4; 3; 2; 1; 11]) 2 8 _ _)))
    [1; 2; 3; 4; 5; 6; 7; 8; 9; 10] eq_refl eq_refl _ eq_refl);
  [lia|lia|].
  intros p Hp. vm_compute. set_solver.
Defined.

(** C10: the validator is total on its edge inputs: [claimed_pages=None]
    gives what [claimed_pages=[]] gives, and an empty retrieval result list
    gives the empty list whatever the claimed pages and bounds are. *)
Theorem validate_edge_inputs :
  (∀ rs min_pages max_pages,
     _validate_page_references None rs min_pages max_pages
     = _validate_page_references (Some []) rs min_pages max_pages) ∧
  (∀ claimed min_pages max_pages,
     _validate_page_references claimed [] min_pages max_pages = []).
Proof.
  split; [done|].
  intros claimed min_pages max_pages.
  unfold _validate_page_references, claimed_then_backfilled, filter_claimed. simpl.
  assert (Hf : filter (λ p : Z, p ∈ @nil Z) (default [] claimed) = []).
  { induction (default [] claimed) as [|c cl IH]; [done|].
    rewrite filter_cons_False; [done|]. apply not_elem_of_nil. }
  unfold retrieved_pages. simpl. rewrite Hf.
  rewrite andb_false_r. case_bool_decide; [|done].
  unfold py_slice_to. case_bool_decide; by rewrite take_nil.
Qed.

End ValidatorClaims.

(** * Statistics and submission export *)

Module ExportFacts.

Lemma res_map_Forall2 {A B} (f : A → res B) (l : list A) (out : list B) :
  res_map f l = Ok out → Forall2 (λ x y, f x = Ok y) l out.
Proof.
  revert out. induction l as [|x l IH]; intros out H; simpl in H.
  - injection H as <-. constructor.
  - destruct (f x) as [y|e] eqn:Hx; [|discriminate].
    cbn in H. destruct (res_map f l) as [ys|e] eqn:Hl; [|discriminate].
    cbn in H. injection H as <-. constructor; [done|]. by apply IH.
Qed.

Lemma res_map_returns {A B} (f : A → res B) (l : list A) :
  Forall (λ x, ∃ y, f x = Ok y) l → ∃ out, res_map f l = Ok out.
Proof.
  induction 1 as [|x l [y Hy] _ [out Hout]]; [by exists []|].
  exists (y :: out). cbn. by rewrite Hy, Hout.
Qed.

Lemma res_map_evidence (rs : list (pyval * Z)) :
  res_map zero_based (evidence_reference <$> rs)
  = Ok (evidence_reference <$> (lowered <$> rs)).
Proof.
  induction rs as [|[sha p] rs IH]; [done|].
  cbn [fmap list_fmap res_map]. rewrite IH. reflexivity.
Qed.

Lemma py_int_raises_ValueError s e : py_int s = Raises e → exn_type e = "ValueError".
Proof.
  unfold py_int.
  destruct (rstrip (lstrip s)) as [|c rest]; cbn zeta.
  - destruct (_ ≫= _); [discriminate|]. by intros [= <-].
  - destruct (Ascii.eqb c "-"); [|destruct (Ascii.eqb c "+")];
      (destruct (_ ≫= _); [discriminate|]; by intros [= <-]).
Qed.

(** Resolution of a string handle never raises. *)
Lemma resolve_step_by_step_returns (answer_details : ledger) (h : string) :
  ∃ v, resolve_step_by_step answer_details (PStr h) = Ok v.
Proof.
  unfold resolve_step_by_step.
  destruct (truthy (PStr h)); [|by eexists].
  destruct (String.prefix detail_prefix h); [|by eexists].
  destruct (py_int (last_segment h)) as [i|e] eqn:Hint.
  - destruct (_ && _); [|by eexists].
    destruct (answer_details !! Z.to_nat i) as [[d|]|]; try by eexists.
    destruct (truthy_list d); by eexists.
  - apply py_int_raises_ValueError in Hint. unfold except_matches.
    rewrite bool_decide_eq_true_2; [by eexists|]. rewrite Hint. set_solver.
Qed.

Lemma resolve_step_by_step_bad (answer_details : ledger) (h : string) :
  bad_handle answer_details h →
  resolve_step_by_step answer_details (PStr h) = Ok PNone.
Proof.
  intros Hbad. unfold resolve_step_by_step.
  destruct (truthy (PStr h)); [|done].
  destruct Hbad as [Hp|e He|i Hi Hr|i Hi Hs].
  - by rewrite Hp.
  - destruct (String.prefix detail_prefix h); [|done]. rewrite He.
    apply py_int_raises_ValueError in He. unfold except_matches.
    rewrite bool_decide_eq_true_2; [done|]. rewrite He. set_solver.
  - destruct (String.prefix detail_prefix h); [|done]. rewrite Hi.
    destruct Hr as [Hr|Hr].
    + by rewrite (bool_decide_eq_false_2 (0 ≤ i)) by lia.
    + rewrite (bool_decide_eq_false_2 (i < len answer_details)) by lia.
      by rewrite andb_false_r.
  - destruct (String.prefix detail_prefix h); [|done]. rewrite Hi, Hs.
    by destruct (_ && _).
Qed.

Lemma submission_answer_exported (answer_details : ledger) (q a : dict) :
  submission_answer answer_details q = Ok a → exported q a.
Proof.
  unfold submission_answer. intros H.
  destruct (narrative answer_details q) as [sba|e]; [|discriminate]. cbn in H.
  set (value := if dict_mem "error" q then PStr "N/A" else answer_value q) in *.
  destruct (py_eq_str value "N/A") eqn:Hna; cbn in H.
  - assert (Ha : py_get a "value" = value ∧ py_get a "references" = PList []).
    { destruct (truthy sba); injection H as <-; done. }
    destruct Ha as [Hv Hr]. unfold exported. rewrite Hv, Hr. subst value.
    destruct (dict_mem "error" q); split; try done.
    intros _. split; [done|]. split; [done|]. intros Hno. congruence.
  - destruct (py_iter (py_get_default q "references" (PList []))) as [refs|e] eqn:Hit;
      [|discriminate].
    cbn in H. destruct (res_map zero_based refs) as [out|e] eqn:Hmap; [|discriminate].
    cbn in H.
    assert (Ha : py_get a "value" = value ∧ py_get a "references" = PList out).
    { destruct (truthy sba); injection H as <-; done. }
    destruct Ha as [Hv Hr]. unfold exported. rewrite Hv, Hr. subst value.
    destruct (dict_mem "error" q); [discriminate|]. split; [done|].
    intros _. split; [done|]. split; [intros Hyes; congruence|].
    intros _ rs Hrs. rewrite Hrs in Hit. cbn in Hit. injection Hit as <-.
    rewrite res_map_evidence in Hmap. by injection Hmap as <-.
Qed.

Lemma submission_answer_returns (answer_details : ledger) (q : dict) :
  well_formed_result q → ∃ a, submission_answer answer_details q = Ok a.
Proof.
  intros [(d & h & Hd & Hh) Hrefs]. unfold submission_answer, narrative.
  rewrite Hd. cbn [py_method_get]. rewrite Hh. cbn [mbind res_bind].
  destruct (resolve_step_by_step_returns answer_details h) as [sba ->].
  cbn [mbind res_bind].
  destruct Hrefs as [He|[Hna|[rs Hrs]]].
  - rewrite He. cbn. by eexists.
  - destruct (dict_mem "error" q); [cbn; by eexists|]. rewrite Hna. cbn. by eexists.
  - destruct (py_eq_str _ "N/A"); [cbn; by eexists|].
    rewrite Hrs. cbn [py_iter mbind res_bind]. rewrite res_map_evidence. cbn. by eexists.
Qed.

(** The statistics of a list: they are returned whenever the call does not
    print, their counts add up to the length of the list, and the printing
    call returns the same record unless the list is empty. *)
Lemma statistics_of_list (processed_questions : list dict) :
  ∃ st, _calculate_statistics processed_questions false = Ok st ∧
        success_count st + error_count st + na_count st = total_questions st ∧
        total_questions st = len processed_questions ∧
        error_count st = count_if (dict_mem "error") processed_questions ∧
        na_count st
          = count_if (λ q, py_eq_str (answer_value q) "N/A") processed_questions ∧
        (processed_questions ≠ [] →
         _calculate_statistics processed_questions true = Ok st).
Proof.
  eexists. split; [reflexivity|]. cbn.
  split_and!; [lia|done|done|done|].
  intros Hne. unfold _calculate_statistics.
  rewrite (bool_decide_eq_false_2 (len processed_questions = 0)); [done|].
  destruct processed_questions; [done|]. unfold len. simpl. lia.
Qed.

End ExportFacts.

Module ExportClaims.
Import ExportFacts.

(** C7: the submission export of well-formed results returns, and for
    each result it gives an answer whose value is "N/A" if the result
    carries an error and the value of the result otherwise; whose references
    are empty if that value is "N/A", whatever references the result had;
    and whose references are otherwise the evidence references of the
    result with every page_index lowered by one (1 becomes 0). *)
Theorem submission_export (answer_details : ledger) (processed_questions : list dict) :
  Forall well_formed_result processed_questions →
  ∃ out, _post_process_submission_answers answer_details processed_questions = Ok out ∧
         Forall2 exported processed_questions out.
Proof.
  intros Hwf.
  destruct (res_map_returns (submission_answer answer_details) processed_questions)
    as [out Hout].
  { eapply Forall_impl; [exact Hwf|]. intros q. apply submission_answer_returns. }
  exists out. split; [done|]. apply res_map_Forall2 in Hout.
  eapply Forall2_impl; [exact Hout|]. intros q a. apply submission_answer_exported.
Qed.

Lemma submission_export_witness :
  _post_process_submission_answers [None; None; None] export_example
  = Ok export_example_out ∧
  ∃ out, _post_process_submission_answers [None; None; None] export_example = Ok out ∧
         Forall2 exported export_example out.
Proof.
  split; [reflexivity|].
  apply (submission_export [None; None; None] export_example).
  constructor; [split|constructor; [split|constructor; [split|constructor]]].
  - by exists [("$ref", PStr "#/answer_details/0")], "#/answer_details/0".
  - right. right. by exists [(PStr "sha", 1); (PStr "sha", 12)].
  - by exists [("$ref", PStr "#/answer_details/1")], "#/answer_details/1".
  - right. by left.
  - by exists [("$ref", PStr "#/answer_details/2")], "#/answer_details/2".
  - by left.
Defined.

(** C9: resolving a string handle never raises, and a handle that is
    malformed (it does not start with '#/answer_details/', or [int()] rejects
    what follows its last slash) or out of range (index outside the ledger,
    or an unfilled slot) resolves to [None], so that a result carrying it is
    exported without a narrative field. *)
Theorem resolve_bad_handle (answer_details : ledger) (h : string) :
  ∃ v, resolve_step_by_step answer_details (PStr h) = Ok v ∧
       (bad_handle answer_details h →
        v = PNone ∧
        ∀ q a, py_get_default q "answer_details" (PDict []) = PDict [("$ref", PStr h)] →
               submission_answer answer_details q = Ok a →
               dict_mem "reasoning_process" a = false).
Proof.
  destruct (resolve_step_by_step_returns answer_details h) as [v Hv].
  exists v. split; [done|]. intros Hbad.
  pose proof (resolve_step_by_step_bad answer_details h Hbad) as Hres.
  split; [congruence|].
  intros q a Hq. unfold submission_answer, narrative. rewrite Hq. cbn.
  rewrite Hres. cbn.
  destruct (py_eq_str _ "N/A"); cbn.
  - by intros [= <-].
  - destruct (py_iter _) as [refs|]; [|discriminate]. cbn.
    destruct (res_map zero_based refs); [|discriminate]. cbn. by intros [= <-].
Qed.

Lemma resolve_bad_handle_witness :
  resolve_step_by_step [Some [("self", PStr "#/answer_details/0")]; None]
    (PStr "#/answer_details/1") = Ok PNone ∧
  resolve_step_by_step [Some [("self", PStr "#/answer_details/0")]; None]
    (PStr "#/answer_details/7") = Ok PNone ∧
  resolve_step_by_step [Some [("self", PStr "#/answer_details/0")]; None]
    (PStr "#/answer_details/zero") = Ok PNone ∧
  resolve_step_by_step [Some [("self", PStr "#/answer_details/0")]; None]
    (PStr "answer_details/0") = Ok PNone.
Proof.
  pose (l := [Some [("self", PStr "#/answer_details/0")]; None] : ledger).
  assert (Hw : ∀ h, bad_handle l h → resolve_step_by_step l (PStr h) = Ok PNone).
  { intros h Hbad. destruct (resolve_bad_handle l h) as (v & Hv & Hnone).
    destruct (Hnone Hbad) as [-> _]. exact Hv. }
  split_and!; apply Hw.
  - by apply (unfilled_slot _ _ 1).
  - apply (bad_index _ _ 7); [done|]. right. unfold len. simpl. lia.
  - by eapply bad_suffix.
  - by apply bad_prefix.
Defined.

End ExportClaims.

(** * The program logic *)

Section LogicFacts.
Context `{Collaborators}.

Lemma run_bind {A B} (p : prog A) (k : A → prog B) (st : state) :
  run (p ≫= k) st
  = match run p st with
    | (Ok a, st') => run (k a) st'
    | (Raises e, st') => (Raises e, st')
    end.
Proof.
  revert st. induction p as [a|e|X act k' IH]; intros st; try done.
  cbn. destruct (act st) as [x st']. apply IH.
Qed.

Lemma run_try_except {A} (p : prog A) (h : exn → prog A) (st : state) :
  run (try_except p h) st
  = match run p st with
    | (Ok a, st') => (Ok a, st')
    | (Raises e, st') => run (h e) st'
    end.
Proof.
  revert st. induction p as [a|e|X act k' IH]; intros st; try done.
  cbn. destruct (act st) as [x st']. apply IH.
Qed.

Lemma run_lift {A} (r : res A) (st : state) : run (lift r) st = (r, st).
Proof. by destruct r. Qed.

Lemma bind_lift_ok {A B} (a : A) (k : A → prog B) : lift (Ok a) ≫= k = k a.
Proof. reflexivity. Qed.

Lemma bind_lift_raises {A B} (e : exn) (k : A → prog B) :
  lift (Raises e) ≫= k = Raise e.
Proof. reflexivity. Qed.


Section Rely.
Context (R : relation state) `{!PreOrder R}.

Lemma wp_mono {A} (p : prog A) (Q Q' : res A → state → Prop) st :
  (∀ r st', Q r st' → Q' r st') → wp R p Q st → wp R p Q' st.
Proof.
  intros HQ. revert st. induction p as [a|e|X act k IH]; intros st; cbn; auto.
  intros Hp st1 HR. destruct (Hp st1 HR) as [HG Hk]. split; [done|]. by apply IH.
Qed.

(** The postcondition may assume that the final state is related to the
    initial one. *)
Lemma wp_assume_rely {A} (p : prog A) (Q : res A → state → Prop) st :
  wp R p (λ r st', R st st' → Q r st') st → wp R p Q st.
Proof.
  revert st. induction p as [a|e|X act k IH]; intros st; cbn.
  - intros HQ. by apply HQ.
  - intros HQ. by apply HQ.
  - intros Hp st1 HR. destruct (Hp st1 HR) as [HG Hk]. split; [done|].
    apply IH. eapply wp_mono; [|exact Hk]. cbn. intros r st' HQ HR'.
    apply HQ. etrans; [exact HR|]. etrans; [exact HG|]. done.
Qed.

Lemma wp_rely {A} (p : prog A) (Q : res A → state → Prop) st :
  wp R p Q st → wp R p (λ r st', Q r st' ∧ R st st') st.
Proof.
  intros Hp. apply wp_assume_rely. eapply wp_mono; [|exact Hp]. cbn. auto.
Qed.

(** A specification proved for one state holds in the states interference
    leads to. *)
Lemma wp_stable {A} (p : prog A) (Q : res A → state → Prop) st st' :
  stable R Q → wp R p Q st → R st st' → wp R p Q st'.
Proof.
  intros HQ. destruct p as [a|e|X act k]; cbn.
  - intros Hp HR. by eapply HQ.
  - intros Hp HR. by eapply HQ.
  - intros Hp HR st1 HR1. apply Hp. by etrans.
Qed.

Lemma wp_bind {A B} (p : prog A) (k : A → prog B) (Q : res B → state → Prop) st :
  wp R p (λ r st', match r with
                   | Ok a => wp R (k a) Q st'
                   | Raises e => Q (Raises e) st'
                   end) st →
  wp R (p ≫= k) Q st.
Proof.
  revert st. induction p as [a|e|X act k' IH]; intros st; cbn; auto.
  intros Hp st1 HR. destruct (Hp st1 HR) as [HG Hk]. split; [done|]. by apply IH.
Qed.

Lemma wp_try_except {A} (p : prog A) (h : exn → prog A)
    (Q : res A → state → Prop) st :
  wp R p (λ r st', match r with
                   | Ok a => Q (Ok a) st'
                   | Raises e => wp R (h e) Q st'
                   end) st →
  wp R (try_except p h) Q st.
Proof.
  revert st. induction p as [a|e|X act k' IH]; intros st; cbn; auto.
  intros Hp st1 HR. destruct (Hp st1 HR) as [HG Hk]. split; [done|]. by apply IH.
Qed.

Lemma wp_lift {A} (r : res A) (Q : res A → state → Prop) st :
  Q r st → wp R (lift r) Q st.
Proof. by destruct r. Qed.

Lemma wp_atomic {A} (f : state → res A * state) (Q : res A → state → Prop) st :
  (∀ st1, R st st1 → R st1 (f st1).2 ∧ Q (f st1).1 (f st1).2) →
  wp R (atomic f) Q st.
Proof.
  intros Hf st1 HR. destruct (Hf st1 HR) as [HG HQ]. split; [done|]. by apply wp_lift.
Qed.

(** Running a program alone is one of the behaviours [wp] covers. *)
Lemma wp_run {A} (p : prog A) (Q : res A → state → Prop) st :
  wp R p Q st → Q (run p st).1 (run p st).2 ∧ R st (run p st).2.
Proof.
  revert st. induction p as [a|e|X act k IH]; intros st; cbn.
  - intros HQ. split; [done|reflexivity].
  - intros HQ. split; [done|reflexivity].
  - intros Hp. destruct (Hp st (reflexivity st)) as [HG Hk].
    destruct (act st) as [x st'] eqn:Hact. cbn in *.
    destruct (IH x st' Hk) as [HQ HR]. split; [done|]. by etrans.
Qed.

(** ** Pools *)

Lemma wp_outcome {A} (p : prog A) (Q : res A → state → Prop) st :
  wp R p Q st →
  wp R (outcome p) (λ r st', ∃ o, r = Ok o ∧ Q o st') st.
Proof.
  unfold outcome. revert st.
  induction p as [a|e|X act k IH]; intros st; cbn.
  - intros HQ. by exists (Ok a).
  - intros HQ. by exists (Raises e).
  - intros Hp st1 HR. destruct (Hp st1 HR) as [HG Hk]. split; [done|]. by apply IH.
Qed.

Lemma wp_interleave {A} (sched : list nat) (tasks : list (prog A))
    (completed : list nat) (Qs : nat → res A → state → Prop) st :
  (∀ i, stable R (Qs i)) →
  (∀ i t, tasks !! i = Some t → wp R t (Qs i) st) →
  wp R (interleave sched tasks completed)
    (λ r st', ∃ tasks' completed',
        r = Ok (tasks', completed') ∧ length tasks' = length tasks ∧
        (∀ i, i ∈ completed' → i ∈ completed ∨ (i < length tasks)%nat) ∧
        ∀ i t, tasks' !! i = Some t → wp R t (Qs i) st') st.
Proof.
  intros HQs. revert tasks completed st.
  induction sched as [|i sched IH]; intros tasks completed st Hall; cbn.
  - exists tasks, completed. split_and!; auto.
  - destruct (tasks !! i) as [[a|e|X act k]|] eqn:Hi.
    + eapply wp_mono; [|apply (IH tasks _ st Hall)]. cbn.
      intros r st' (tasks' & completed' & -> & Hlen & Hc & Hall').
      exists tasks', completed'. split_and!; try done.
      intros j Hj. destruct (Hc j Hj) as [Hj'|Hj']; [|by right].
      unfold note_completed in Hj'. case_bool_decide; [by left|].
      apply elem_of_app in Hj' as [Hj'|Hj']; [by left|].
      apply list_elem_of_singleton in Hj' as ->. right. by eapply lookup_lt_Some.
    + eapply wp_mono; [|apply (IH tasks _ st Hall)]. cbn.
      intros r st' (tasks' & completed' & -> & Hlen & Hc & Hall').
      exists tasks', completed'. split_and!; try done.
      intros j Hj. destruct (Hc j Hj) as [Hj'|Hj']; [|by right].
      unfold note_completed in Hj'. case_bool_decide; [by left|].
      apply elem_of_app in Hj' as [Hj'|Hj']; [by left|].
      apply list_elem_of_singleton in Hj' as ->. right. by eapply lookup_lt_Some.
    + intros st1 HR. pose proof (Hall i _ Hi) as Hp. cbn in Hp.
      destruct (Hp st1 HR) as [HG Hk]. split; [done|].
      eapply wp_mono; [|apply IH].
      * cbn. intros r st' (tasks' & completed' & -> & Hlen & Hc & Hall').
        exists tasks', completed'. rewrite length_insert in Hlen, Hc. by split_and!.
      * intros j t Hj. destruct (decide (i = j)) as [<-|Hne].
        -- rewrite list_lookup_insert_eq in Hj by (by eapply lookup_lt_Some).
           by injection Hj as <-.
        -- rewrite list_lookup_insert_ne in Hj by done.
           eapply wp_stable; [apply HQs|by apply Hall|]. by etrans.
    + apply (IH tasks _ st Hall).
Qed.

Lemma wp_drain {A} (tasks : list (prog A)) (Qs : nat → res A → state → Prop) st :
  (∀ i, stable R (Qs i)) →
  (∀ i t, tasks !! i = Some t → wp R t (Qs i) st) →
  wp R (drain tasks)
    (λ r st', ∃ outs, r = Ok outs ∧ length outs = length tasks ∧
                      ∀ i o, outs !! i = Some o → Qs i o st') st.
Proof.
  revert Qs st. induction tasks as [|t tasks IH]; intros Qs st HQs Hall; cbn.
  - exists []. split_and!; [done|done|]. intros i o Hi. by rewrite lookup_nil in Hi.
  - apply wp_bind. apply wp_assume_rely.
    eapply wp_mono; [|apply wp_outcome, (Hall 0%nat t eq_refl)].
    cbn. intros r st1 (o & -> & Ho) HR1.
    apply wp_bind. apply wp_assume_rely.
    eapply wp_mono; [|apply (IH (λ i, Qs (S i)) st1)].
    + cbn. intros r st2 (outs & -> & Hlen & Houts) HR2. cbn.
      exists (o :: outs). split_and!; [done|cbn; by f_equal|].
      intros [|i] o' Hi; cbn in Hi.
      * injection Hi as <-. by eapply HQs.
      * by apply Houts.
    + intros i. apply HQs.
    + intros i t' Hi. eapply wp_stable; [apply HQs|apply (Hall (S i) t' Hi)|done].
Qed.

Lemma elem_of_foldl_note_completed (l : list nat) (completed : list nat) (i : nat) :
  i ∈ foldl (λ c j, note_completed j c) completed l ↔ i ∈ completed ∨ i ∈ l.
Proof.
  revert completed. induction l as [|j l IH]; intros completed; cbn.
  - rewrite elem_of_nil. tauto.
  - rewrite IH. unfold note_completed. rewrite elem_of_cons.
    case_bool_decide as Hj.
    + split; [tauto|]. intros [?|[->|?]]; auto.
    + rewrite elem_of_app, list_elem_of_singleton. tauto.
Qed.

(** Every task of a pool meets its specification, and every future is seen
    to complete. *)
Lemma wp_run_pool {A} (sched : list nat) (tasks : list (prog A))
    (Qs : nat → res A → state → Prop) st :
  (∀ i, stable R (Qs i)) →
  (∀ i t, tasks !! i = Some t → wp R t (Qs i) st) →
  wp R (run_pool sched tasks)
    (λ r st', ∃ outs completed,
        r = Ok (outs, completed) ∧ length outs = length tasks ∧
        (∀ i o, outs !! i = Some o → Qs i o st') ∧
        (∀ i, i ∈ completed ↔ (i < length tasks)%nat)) st.
Proof.
  intros HQs Hall. unfold run_pool. apply wp_bind.
  eapply wp_mono; [|by apply (wp_interleave sched tasks [] Qs st)].
  cbn. intros r st1 (tasks' & completed' & -> & Hlen & Hc & Hall').
  apply wp_bind.
  eapply wp_mono; [|by apply (wp_drain tasks' Qs st1)].
  cbn. intros r st2 (outs & -> & Hlen2 & Houts). cbn.
  eexists _, _. split_and!; [done|congruence|done|].
  intros i. rewrite elem_of_foldl_note_completed, elem_of_seq.
  split; [|intros; right; lia].
  intros [Hi|Hi]; [|lia]. destruct (Hc i Hi) as [Hi'|Hi']; [|done].
  by apply elem_of_nil in Hi'.
Qed.

End Rely.
End LogicFacts.

(** * The pipeline leaves the ledger to the detail store *)

Section Harmless.
Context `{Collaborators}.
Context (R : relation state) `{!PreOrder R}.
Hypothesis R_ledger : ∀ st st', answer_details st' = answer_details st → R st st'.

Lemma harmless_ret {A} (a : A) : harmless R (Ret a).
Proof. by intros st. Qed.

Lemma harmless_raise {A} (e : exn) : harmless R (Raise (A := A) e).
Proof. by intros st. Qed.

Lemma harmless_lift {A} (r : res A) : harmless R (lift r).
Proof. intros st. by destruct r. Qed.

Lemma harmless_bind {A B} (p : prog A) (k : A → prog B) :
  harmless R p → (∀ a, harmless R (k a)) → harmless R (p ≫= k).
Proof.
  intros Hp Hk st. apply wp_bind.
  eapply wp_mono; [|apply Hp]. cbn. intros [a|e] st' _; [apply Hk|done].
Qed.

Lemma harmless_call {A} (f : world → res A * world) : harmless R (call f).
Proof.
  intros st. apply wp_atomic. intros st1 _.
  destruct (f (environment st1)) as [r w]. split; [by apply R_ledger|done].
Qed.

Lemma harmless_read {A} (f : state → A) : harmless R (Atom (λ st, (f st, st)) Ret).
Proof. intros st st1 _. cbn. split; [reflexivity|done]. Qed.

Lemma harmless_the_companies : harmless R the_companies.
Proof.
  intros st. apply wp_atomic. intros st1 _. cbn. split; [reflexivity|done].
Qed.

Lemma harmless_load_companies path : harmless R (load_companies path).
Proof.
  apply harmless_bind; [apply harmless_call|]. intros table st st1 _. cbn.
  split; [by apply R_ledger|done].
Qed.

Lemma harmless_copy_response_data : harmless R copy_response_data.
Proof.
  apply harmless_bind; [apply harmless_call|]. intros data st st1 _. cbn.
  split; [by apply R_ledger|done].
Qed.

Lemma harmless_run_pool {A} (sched : list nat) (tasks : list (prog A)) :
  (∀ t, t ∈ tasks → harmless R t) → harmless R (run_pool sched tasks).
Proof.
  intros Ht st. eapply wp_mono; [|apply (wp_run_pool R sched tasks (λ _ _ _, True))].
  - done.
  - by intros i r st1 st2.
  - intros i t Hi. apply Ht. by eapply list_elem_of_lookup_2.
Qed.

Ltac harmless_step :=
  first
    [ apply harmless_ret | apply harmless_raise | apply harmless_lift
    | apply harmless_call | apply harmless_read | apply harmless_copy_response_data
    | apply harmless_the_companies | apply harmless_load_companies
    | apply harmless_bind; [|intros ?]
    | match goal with
      | |- harmless _ (if ?b then _ else _) => destruct b
      | |- harmless _ (match ?x with _ => _ end) => destruct x
      end ].

Lemma harmless_get_answer_for_company cfg company question schema :
  harmless R (get_answer_for_company cfg company question schema).
Proof.
  unfold get_answer_for_company, _extract_references. repeat harmless_step.
Qed.

Lemma harmless_process_company_question cfg rephrased company :
  harmless R (process_company_question cfg rephrased company).
Proof.
  unfold process_company_question.
  repeat first [apply harmless_get_answer_for_company | harmless_step].
Qed.

Lemma harmless_process_comparative_question cfg sched question companies schema :
  harmless R (process_comparative_question cfg sched question companies schema).
Proof.
  unfold process_comparative_question.
  apply harmless_bind; [apply harmless_call|]. intros rephrased.
  apply harmless_bind.
  { apply harmless_run_pool. intros t (company & -> & _)%list_elem_of_fmap.
    apply harmless_process_company_question. }
  intros [outcomes completed]. repeat harmless_step.
Qed.

Lemma harmless_extract_companies cfg question :
  harmless R (extract_companies cfg question).
Proof.
  unfold extract_companies, _extract_companies_from_subset. repeat harmless_step.
Qed.

Lemma harmless_process_question cfg sched question schema :
  harmless R (process_question cfg sched question schema).
Proof.
  unfold process_question.
  apply harmless_bind; [apply harmless_extract_companies|].
  intros [|c [|c' l]];
    [apply harmless_raise|apply harmless_get_answer_for_company
    |apply harmless_process_comparative_question].
Qed.

Lemma harmless_save_if_path output_path submission_file team_email
    submission_name pipeline_details processed :
  harmless R (save_if_path output_path submission_file team_email
                submission_name pipeline_details processed).
Proof. unfold save_if_path, _save_progress. repeat harmless_step. Qed.

End Harmless.

(** * One question: a result and a detail record, whatever the others do *)

Section Worker.
Context `{Collaborators}.

#[global] Instance evolves_preorder : PreOrder evolves.
Proof.
  split.
  - intros st. by split.
  - intros st1 st2 st3 [Hl1 Hf1] [Hl2 Hf2]. split; [congruence|auto].
Qed.

Lemma evolves_ledger st st' : answer_details st' = answer_details st → evolves st st'.
Proof. intros Heq. unfold evolves, filled. rewrite Heq. by split. Qed.

Lemma worker_post_stable cfg q i : stable evolves (worker_post cfg q i).
Proof.
  intros r st st' (res & -> & Hres & Hf) [_ HR]. exists res. split_and!; auto.
Qed.

Lemma ledger_set_in_range (l : ledger) (i : nat) (d : dict) :
  (i < length l)%nat → ledger_set l (Z.of_nat i) d = Ok (<[i := Some d]> l).
Proof.
  intros Hi. unfold ledger_set, len.
  rewrite bool_decide_eq_true_2 by lia. by rewrite Nat2Z.id.
Qed.

Lemma evolves_store st (i : nat) (d : dict) :
  (i < length (answer_details st))%nat →
  dict_get d "self" = Some (PStr (detail_handle (Z.of_nat i))) →
  let st' := set_answer_details st (<[i := Some d]> (answer_details st)) in
  evolves st st' ∧ filled i st'.
Proof.
  intros Hi Hd. cbn. split; [split|].
  - cbn. by rewrite length_insert.
  - intros j (d' & Hj & Hd'). unfold filled. cbn.
    destruct (decide (i = j)) as [<-|Hne].
    + exists d. by rewrite list_lookup_insert_eq.
    + exists d'. by rewrite list_lookup_insert_ne.
  - exists d. cbn. by rewrite list_lookup_insert_eq.
Qed.

(** The locked write of a detail record for slot [i]. *)
Lemma wp_store_detail (detail : state → res dict) (i : nat)
    (Q : res () → state → Prop) st :
  (i < length (answer_details st))%nat →
  (∀ st0 d, detail st0 = Ok d →
            dict_get d "self" = Some (PStr (detail_handle (Z.of_nat i)))) →
  (∀ st', (i < length (answer_details st'))%nat → filled i st' → Q (Ok ()) st') →
  (∀ e st', (i < length (answer_details st'))%nat →
            (∃ st0, detail st0 = Raises e) → Q (Raises e) st') →
  wp evolves (store_detail detail (Z.of_nat i)) Q st.
Proof.
  intros Hi Hself Hok Hraise. apply wp_atomic. intros st1 [Hlen _].
  assert (Hi1 : (i < length (answer_details st1))%nat) by lia.
  destruct (detail st1) as [d|e] eqn:Hd; cbn.
  - rewrite ledger_set_in_range by done. cbn.
    destruct (evolves_store st1 i d Hi1 (Hself _ _ Hd)) as [Hev Hf].
    split; [done|]. apply Hok; [|done]. cbn. by rewrite length_insert.
  - split; [reflexivity|]. apply Hraise; [done|]. by exists st1.
Qed.

Lemma wp_preserve {A} (p : prog A) st :
  harmless evolves p → wp evolves p (λ _ st', evolves st st') st.
Proof.
  intros Hp. eapply wp_mono; [|apply (wp_rely evolves), Hp].
  cbn. by intros r st' [_ HR].
Qed.

Section Question.
Variable cfg : config.
Variable q : question_data.
Variable i : nat.
Hypothesis q_index : question_index_of q = Z.of_nat i.

Lemma error_result_of_question e :
  result_of_question cfg q i
    (error_result cfg (question_text_of cfg q) (schema_of cfg q) e
       (detail_handle (Z.of_nat i))).
Proof. unfold result_of_question, error_result. by destruct (new_challenge_pipeline cfg). Qed.

Lemma wp_handle_processing_error e st :
  (i < length (answer_details st))%nat →
  wp evolves (_handle_processing_error cfg (question_text_of cfg q) (schema_of cfg q)
                e (question_index_of q)) (worker_post cfg q i) st.
Proof.
  intros Hi. unfold _handle_processing_error. rewrite q_index. apply wp_bind.
  apply wp_store_detail; [done| | |].
  - by intros st0 d [= <-].
  - intros st' Hi' Hf. cbn. eexists. split_and!; [done| |done].
    apply error_result_of_question.
  - by intros e' st' _ [st0 ?].
Qed.

Lemma try_post_raises e st : try_post cfg q i (Raises e) st.
Proof. intros Hi. by apply wp_handle_processing_error. Qed.

Ltac handled :=
  match goal with
  | |- try_post _ _ _ (Raises ?e) ?s => exact (try_post_raises e s)
  | |- wp _ (Raise ?e) (try_post _ _ _) ?s => exact (try_post_raises e s)
  end.

Lemma wp_create_answer_detail_ref answer_dict (k : string → prog dict) st :
  (i < length (answer_details st))%nat →
  (∀ st', (i < length (answer_details st'))%nat → filled i st' →
          wp evolves (k (detail_handle (Z.of_nat i))) (try_post cfg q i) st') →
  wp evolves (_create_answer_detail_ref answer_dict (Z.of_nat i) ≫= k) (try_post cfg q i) st.
Proof.
  intros Hi Hk. unfold _create_answer_detail_ref.
  apply wp_bind. apply wp_bind. apply wp_store_detail; [done| | |].
  - intros st0 d. unfold answer_detail.
    destruct (py_getitem answer_dict "step_by_step_analysis"); [|done].
    destruct (py_getitem answer_dict "reasoning_summary"); [|done].
    destruct (py_getitem answer_dict "relevant_pages"); [|done].
    destruct (response_data st0); [|done]. by intros [= <-].
  - intros st' Hi' Hf. cbn. by apply Hk.
  - intros e st' Hi' _. cbn. handled.
Qed.

Lemma wp_try_body sched st :
  (i < length (answer_details st))%nat →
  wp evolves (try_body cfg sched q) (try_post cfg q i) st.
Proof.
  intros Hi. unfold try_body. rewrite q_index. apply wp_bind.
  eapply wp_mono; [|apply wp_preserve, harmless_process_question;
                    auto using evolves_ledger with typeclass_instances].
  intros [answer_dict|e] st1 [Hlen _]; cbv beta iota; [|handled].
  assert (Hi1 : (i < length (answer_details st1))%nat) by lia.
  destruct (py_contains_str "error" answer_dict) as [[|]|e];
    rewrite ?bind_lift_ok, ?bind_lift_raises; [| |handled].
  - apply wp_create_answer_detail_ref; [done|]. intros st2 Hi2 Hf.
    destruct (py_getitem answer_dict "error") as [error|e];
      rewrite ?bind_lift_ok, ?bind_lift_raises; [|handled].
    cbn [wp]. intros _. eexists. split_and!; [done| |done].
    unfold result_of_question. by destruct (new_challenge_pipeline cfg).
  - apply wp_create_answer_detail_ref; [done|]. intros st2 Hi2 Hf.
    destruct (py_method_get answer_dict "final_answer" PNone) as [final|e];
      rewrite ?bind_lift_ok, ?bind_lift_raises; [|handled].
    unfold result_of_question.
    destruct (new_challenge_pipeline cfg) eqn:Hnew.
    + destruct (py_method_get answer_dict "references" (PList [])) as [refs|e];
        rewrite ?bind_lift_ok, ?bind_lift_raises; [|handled].
      cbn [wp]. intros _. eexists. split_and!; [done| |done].
      unfold result_of_question. by rewrite Hnew.
    + cbn [wp]. intros _. eexists. split_and!; [done| |done].
      unfold result_of_question. by rewrite Hnew.
Qed.

(** The specification of a worker of the pool. *)
Lemma wp_process_single_question sched st :
  (i < length (answer_details st))%nat →
  wp evolves (_process_single_question cfg sched q) (worker_post cfg q i) st.
Proof.
  intros Hi. unfold _process_single_question. apply wp_try_except.
  apply (wp_assume_rely evolves).
  eapply wp_mono; [|by apply wp_try_body]. cbn.
  intros r st' Hr [Hlen _]. specialize (Hr ltac:(lia)). by destruct r.
Qed.

End Question.
End Worker.

(** * The loops of [process_questions_list] *)

Section Batches.
Context `{Collaborators}.
Variable cfg : config.
Variable sch : schedules.
Variable output_path : option string.
Variable submission_file : bool.
Variables team_email submission_name pipeline_details : string.

Lemma covered_stable done processed st st' :
  covered cfg done processed st → evolves st st' → covered cfg done processed st'.
Proof. intros (Hl & Hr & Hf) [_ HR]. split_and!; auto. Qed.

Lemma covered_nil st : covered cfg [] [] st.
Proof.
  split_and!; [done| |].
  - intros k q Hk. by rewrite lookup_nil in Hk.
  - cbn. lia.
Qed.

Lemma covered_app done batch processed results st :
  covered cfg done processed st →
  length results = length batch →
  (∀ j q, batch !! j = Some q →
     ∃ res, results !! j = Some res ∧
            result_of_question cfg q (length done + j) res ∧
            filled (length done + j) st) →
  covered cfg (done ++ batch) (processed ++ results) st.
Proof.
  intros (Hl & Hr & Hf) Hlen Hb. split_and!.
  - rewrite !length_app. lia.
  - intros k q Hk. destruct (decide (k < length done)%nat) as [Hlt|Hge].
    + rewrite lookup_app_l in Hk by done.
      destruct (Hr k q Hk) as (res & Hres & Hq). exists res.
      split; [|done]. rewrite lookup_app_l; [done|]. by eapply lookup_lt_Some.
    + rewrite lookup_app_r in Hk by lia.
      destruct (Hb _ q Hk) as (res & Hres & Hq & _). exists res.
      replace (length done + (k - length done))%nat with k in Hq by lia.
      split; [|done]. rewrite lookup_app_r by lia. by rewrite Hl.
  - intros k Hk. rewrite length_app in Hk.
    destruct (decide (k < length done)%nat) as [Hlt|Hge]; [by apply Hf|].
    destruct (lookup_lt_is_Some_2 batch (k - length done)) as [q Hq]; [lia|].
    destruct (Hb _ q Hq) as (res & _ & _ & Hfk).
    by replace (length done + (k - length done))%nat with k in Hfk by lia.
Qed.

Lemma with_index_lookup (questions_list : list dict) k q :
  with_index questions_list !! k = Some q →
  question_index_of q = Z.of_nat k ∧
  ∃ fields, questions_list !! k = Some fields ∧ question_fields q = fields.
Proof.
  unfold with_index. rewrite list_lookup_imap.
  destruct (questions_list !! k) as [fields|] eqn:Hk; [|done].
  cbn. intros [= <-]. split; [done|]. by exists fields.
Qed.

Lemma length_with_index (questions_list : list dict) :
  length (with_index questions_list) = length questions_list.
Proof. apply length_imap. Qed.

Lemma wp_save_if_path processed st :
  wp evolves (save_if_path output_path submission_file team_email submission_name
                pipeline_details processed)
    (λ r st', evolves st st' ∧ match r with Ok _ => True | Raises _ => saving output_path end)
    st.
Proof.
  apply (wp_assume_rely evolves).
  destruct output_path as [path|] eqn:Hpath; [destruct (String.eqb path EmptyString) eqn:Hp|].
  - unfold save_if_path. rewrite Hp. cbn. intros _. split; [reflexivity|done].
  - eapply wp_mono; [|apply (harmless_save_if_path evolves);
                      auto using evolves_ledger].
    cbn. intros [[]|e] st' _ HR; (split; [done|]); [done|].
    exists path. split; [done|]. intros ->. by rewrite String.eqb_refl in Hp.
  - cbn. intros _. split; [reflexivity|done].
Qed.

Section Loops.
Variable qs : list question_data.
Hypothesis qs_indexed :
  ∀ k q, qs !! k = Some q → question_index_of q = Z.of_nat k.

Lemma wp_worker k q st :
  qs !! k = Some q → length (answer_details st) = length qs →
  wp evolves (worker cfg sch q) (worker_post cfg q k) st.
Proof.
  intros Hk Hlen. unfold worker. apply wp_process_single_question.
  - by apply qs_indexed.
  - rewrite Hlen. by eapply lookup_lt_Some.
Qed.

Lemma wp_sequential_loop todo done processed st :
  qs = done ++ todo → length (answer_details st) = length qs →
  covered cfg done processed st →
  wp evolves (sequential_loop cfg sch output_path submission_file team_email
                submission_name pipeline_details todo processed)
    (loop_post cfg output_path qs) st.
Proof.
  revert done processed st.
  induction todo as [|q todo IH]; intros done processed st Hqs Hlen Hcov.
  - cbn. rewrite app_nil_r in Hqs. by subst.
  - cbn [sequential_loop]. apply wp_bind. apply (wp_assume_rely evolves).
    eapply wp_mono; [|apply (wp_worker (length done) q)]; [|by rewrite Hqs, list_lookup_middle|done].
    cbn beta. intros r st1 (res & -> & Hres & Hf) HR1. cbv beta iota.
    apply wp_bind.
    eapply wp_mono; [|apply wp_save_if_path].
    cbn beta. intros [[]|e] st2 [HR2 Hs]; cbv beta iota; [|done].
    apply (IH (done ++ [q]) (processed ++ [res])).
    + by rewrite <- app_assoc.
    + destruct HR1 as [E1 _], HR2 as [E2 _]. congruence.
    + apply covered_app; [by eapply covered_stable; [|etrans]|done|].
      intros [|j] q' Hq'; [|done].
      injection Hq' as <-. exists res. rewrite Nat.add_0_r.
      split_and!; [done|done|]. by apply HR2.
Qed.

Lemma res_map_id_all_ok {A} (outs : list (res A)) (P : nat → A → Prop) :
  (∀ j o, outs !! j = Some o → ∃ a, o = Ok a ∧ P j a) →
  ∃ results, res_map id outs = Ok results ∧ length results = length outs ∧
             ∀ j a, results !! j = Some a → P j a.
Proof.
  revert P. induction outs as [|o outs IH]; intros P Hall.
  - exists []. split_and!; [done|done|]. intros j a Hj. by rewrite lookup_nil in Hj.
  - destruct (Hall 0%nat o eq_refl) as (a & -> & Ha).
    destruct (IH (λ j, P (S j))) as (results & Hres & Hlen & Hall').
    { intros j o Hj. by apply (Hall (S j)). }
    exists (a :: results). cbn. rewrite Hres. cbn. split_and!; [done|by f_equal|].
    intros [|j] a' Hj; cbn in Hj; [by injection Hj as <-|by apply Hall'].
Qed.

(** A batch: the results come back in the order of submission, each with
    its slot filled. *)
Lemma wp_executor_map_workers sched (offset : nat) batch st :
  (∀ j q, batch !! j = Some q → qs !! (offset + j)%nat = Some q) →
  length (answer_details st) = length qs →
  wp evolves (executor_map sched (worker cfg sch <$> batch))
    (λ r st', ∃ results, r = Ok results ∧ length results = length batch ∧
       ∀ j q, batch !! j = Some q →
         ∃ res, results !! j = Some res ∧
                result_of_question cfg q (offset + j) res ∧ filled (offset + j) st')
    st.
Proof.
  intros Hbatch Hlen. unfold executor_map. apply wp_bind.
  eapply wp_mono;
    [|apply (wp_run_pool evolves sched (worker cfg sch <$> batch)
               (λ j r st', ∃ q, batch !! j = Some q ∧
                                worker_post cfg q (offset + j) r st'))].
  - cbn beta. intros r st1 (outs & completed & -> & Hlo & Houts & _). cbv beta iota.
    rewrite length_fmap in Hlo.
    destruct (res_map_id_all_ok outs
      (λ j res, ∃ q, batch !! j = Some q ∧
                     result_of_question cfg q (offset + j) res ∧ filled (offset + j) st1))
      as (results & Hres & Hlr & Hall).
    { intros j o Hj. destruct (Houts j o Hj) as (q & Hq & res & -> & Hr & Hf).
      exists res. split; [done|]. by exists q. }
    rewrite Hres. cbn. exists results. split_and!; [done|congruence|].
    intros j q Hq.
    destruct (lookup_lt_is_Some_2 results j) as [res Hj].
    { rewrite Hlr, Hlo. by eapply lookup_lt_Some. }
    destruct (Hall j res Hj) as (q' & Hq' & Hr & Hf).
    exists res. split_and!; [done| |done]. congruence.
  - intros j r st1 st2 (q & Hq & Hw) HR. exists q. split; [done|].
    by eapply worker_post_stable.
  - intros j t Hj. rewrite list_lookup_fmap in Hj.
    destruct (batch !! j) as [q|] eqn:Hq; [|done]. injection Hj as <-.
    eapply wp_mono; [|apply (wp_worker (offset + j) q)]; [|by apply Hbatch|done].
    cbn beta. intros r st' Hw. by exists q.
Qed.

Lemma wp_batch_loop (p : Z) (n k : nat) processed st :
  0 < p → (length qs ≤ (k + n) * Z.to_nat p)%nat →
  length (answer_details st) = length qs →
  covered cfg (take (k * Z.to_nat p) qs) processed st →
  wp evolves (batch_loop cfg sch output_path submission_file team_email
                submission_name pipeline_details p qs
                ((λ j, Z.of_nat j * p) <$> seq k n) processed)
    (loop_post cfg output_path qs) st.
Proof.
  intros Hp. set (P := Z.to_nat p).
  assert (HP : (0 < P)%nat) by lia.
  assert (HpP : p = Z.of_nat P) by lia.
  revert k processed st.
  induction n as [|n IH]; intros k processed st Hend Hlen Hcov.
  - cbn. rewrite take_ge in Hcov by lia. done.
  - cbn [seq fmap list_fmap batch_loop]. apply wp_bind.
    assert (Hbatch : py_slice qs (Z.of_nat k * p) (Z.of_nat k * p + p)
                     = take P (drop (k * P) qs)).
    { unfold py_slice. f_equal; [lia|]. f_equal. lia. }
    rewrite Hbatch. set (batch := take P (drop (k * P) qs)).
    assert (Hdone : length (take (k * P) qs) = Nat.min (k * P) (length qs))
      by apply length_take.
    apply (wp_assume_rely evolves).
    eapply wp_mono;
      [|apply (wp_executor_map_workers _ (length (take (k * P) qs)) batch)]; [| |done].
    + cbn beta. intros r st1 (results & -> & Hlr & Hres) HR1. cbv beta iota.
      apply wp_bind. eapply wp_mono; [|apply wp_save_if_path].
      cbn beta. intros [[]|e] st2 [HR2 Hs]; cbv beta iota; [|done].
      apply IH.
      * lia.
      * destruct HR1 as [E1 _], HR2 as [E2 _]. congruence.
      * replace (take (S k * P) qs) with (take (k * P) qs ++ batch).
        -- apply covered_app; [by eapply covered_stable; [|etrans]|done|].
           intros j q Hq. destruct (Hres j q Hq) as (res & Hj & Hr & Hf).
           exists res. split_and!; [done|done|]. by apply HR2.
        -- unfold batch. replace (S k * P)%nat with (k * P + P)%nat by lia.
           by rewrite take_take_drop.
    + intros j q Hq. unfold batch in Hq.
      rewrite lookup_take_Some in Hq. destruct Hq as [Hq HjP].
      rewrite lookup_drop in Hq.
      destruct (decide (k * P ≤ length qs)%nat) as [Hle|Hgt].
      * rewrite Hdone, Nat.min_l by done. done.
      * apply lookup_lt_Some in Hq. lia.
Qed.

End Loops.
End Batches.

(** * Handles name their slot *)

Module HandleFacts.

Lemma all_digits_string_of_uint d :
  all_digits (DecimalString.NilEmpty.string_of_uint d) = true.
Proof. induction d; cbn; auto. Qed.

Lemma is_digit_no_space c : is_digit c = true → is_py_space c = false.
Proof.
  unfold is_digit, is_py_space. intros Hd.
  apply andb_true_iff in Hd as [H1%Nat.leb_le H2%Nat.leb_le].
  apply orb_false_iff. split; apply andb_false_iff.
  - right. apply Nat.leb_gt. lia.
  - right. apply Nat.leb_gt. lia.
Qed.

Lemma is_digit_not c (x : ascii) :
  is_digit c = true → is_digit x = false → Ascii.eqb c x = false.
Proof.
  intros Hc Hx. destruct (Ascii.eqb_spec c x) as [->|]; [congruence|done].
Qed.

Lemma lstrip_digits s : all_digits s = true → lstrip s = s.
Proof.
  destruct s as [|c s]; [done|]. cbn. intros [Hc _]%andb_true_iff.
  by rewrite (is_digit_no_space c Hc).
Qed.

Lemma rstrip_digits s : all_digits s = true → rstrip s = s.
Proof.
  induction s as [|c s IH]; [done|]. cbn. intros [Hc Hs]%andb_true_iff.
  rewrite (IH Hs). destruct s; [|done]. by rewrite (is_digit_no_space c Hc).
Qed.

Lemma literal_digits_digits s b :
  all_digits s = true → s ≠ EmptyString ∨ b = true → literal_digits s b = Some s.
Proof.
  revert b. induction s as [|c s IH]; intros b Hs Hne; cbn.
  - destruct Hne as [?| ->]; done.
  - cbn in Hs. apply andb_true_iff in Hs as [Hc Hs]. rewrite Hc.
    rewrite (IH true Hs) by (by right). done.
Qed.

Lemma append_empty_r (s : string) : (s ++ EmptyString)%string = s.
Proof.
  induction s as [|a s IH]; [done|].
  change (String a (s ++ EmptyString)%string = String a s). by rewrite IH.
Qed.

Lemma append_snoc (acc : string) (c : ascii) (s : string) :
  ((acc ++ String c EmptyString) ++ s)%string = (acc ++ String c s)%string.
Proof.
  induction acc as [|a acc IH]; [done|].
  change (String a ((acc ++ String c EmptyString) ++ s)%string
          = String a (acc ++ String c s)%string).
  by rewrite IH.
Qed.

Lemma last_segment_from_digits s acc :
  all_digits s = true → last_segment_from s acc = (acc ++ s)%string.
Proof.
  revert acc. induction s as [|c s IH]; intros acc Hs; cbn.
  - by rewrite append_empty_r.
  - cbn in Hs. apply andb_true_iff in Hs as [Hc Hs].
    rewrite (is_digit_not c "/"%char Hc eq_refl). rewrite IH by done.
    apply append_snoc.
Qed.

(** [int(str(z))] is [z], for the indices of a list. *)
Lemma py_int_str (z : Z) : 0 ≤ z → py_int (py_str_int z) = Ok z.
Proof.
  intros Hz. unfold py_str_int.
  pose proof (DecimalZ.of_to z) as Hof.
  destruct (Z.to_int z) as [d|d] eqn:Hd.
  - assert (Hnn : d ≠ Decimal.Nil).
    { intros ->. by destruct z as [|p|p]. }
    cbn [DecimalString.NilZero.string_of_int].
    replace (DecimalString.NilZero.string_of_uint d)
      with (DecimalString.NilEmpty.string_of_uint d) by (by destruct d).
    pose proof (all_digits_string_of_uint d) as Hall.
    set (s := DecimalString.NilEmpty.string_of_uint d) in *.
    assert (Hs : s ≠ EmptyString) by (subst s; by destruct d).
    unfold py_int. rewrite lstrip_digits, rstrip_digits by done.
    destruct s as [|c s'] eqn:Es; [done|].
    assert (Hc : is_digit c = true) by (cbn in Hall; by apply andb_true_iff in Hall as [? _]).
    rewrite (is_digit_not c "-"%char Hc eq_refl), (is_digit_not c "+"%char Hc eq_refl).
    rewrite literal_digits_digits by (done || by left). cbn [mbind option_bind].
    rewrite <- Es. subst s. rewrite DecimalString.NilEmpty.usu.
    cbn in Hof. by rewrite Hof.
  - destruct z as [|p|p]; cbn in Hd; try discriminate. lia.
Qed.

Lemma prefix_detail_handle (z : Z) : String.prefix detail_prefix (detail_handle z) = true.
Proof.
  unfold detail_handle, detail_prefix. cbn. by destruct (py_str_int z).
Qed.

Lemma all_digits_py_str_int (z : Z) : 0 ≤ z → all_digits (py_str_int z) = true.
Proof.
  intros Hz. unfold py_str_int. destruct z as [|p|p]; [done| |lia].
  cbn. set (d := Pos.to_uint p).
  destruct d; try apply all_digits_string_of_uint; done.
Qed.

Lemma last_segment_from_append (a b acc : string) :
  last_segment_from (a ++ b) acc = last_segment_from b (last_segment_from a acc).
Proof.
  revert acc. induction a as [|c a IH]; intros acc; [done|].
  change (last_segment_from (String c (a ++ b)) acc
          = last_segment_from b (last_segment_from (String c a) acc)).
  cbn [last_segment_from]. destruct (Ascii.eqb c "/"); apply IH.
Qed.

Lemma last_segment_detail_handle (z : Z) :
  0 ≤ z → last_segment (detail_handle z) = py_str_int z.
Proof.
  intros Hz. unfold detail_handle, last_segment.
  rewrite last_segment_from_append.
  replace (last_segment_from detail_prefix EmptyString) with EmptyString
    by (by vm_compute).
  rewrite last_segment_from_digits by (by apply all_digits_py_str_int). done.
Qed.

(** A handle leads back to the slot it was made for. *)
Lemma handle_resolves (l : ledger) (i : nat) (d : dict) :
  l !! i = Some (Some d) →
  dict_get d "self" = Some (PStr (detail_handle (Z.of_nat i))) →
  String.prefix detail_prefix (detail_handle (Z.of_nat i)) = true ∧
  py_int (last_segment (detail_handle (Z.of_nat i))) = Ok (Z.of_nat i) ∧
  resolve_step_by_step l (PStr (detail_handle (Z.of_nat i)))
  = Ok (py_get d "step_by_step_analysis").
Proof.
  intros Hi Hd.
  assert (Hp := prefix_detail_handle (Z.of_nat i)).
  assert (Hint : py_int (last_segment (detail_handle (Z.of_nat i))) = Ok (Z.of_nat i)).
  { rewrite last_segment_detail_handle by lia. apply py_int_str. lia. }
  split_and!; [done|done|].
  unfold resolve_step_by_step.
  replace (truthy (PStr (detail_handle (Z.of_nat i)))) with true by done.
  rewrite Hp, Hint.
  rewrite bool_decide_eq_true_2 by lia.
  rewrite bool_decide_eq_true_2 by (unfold len; apply lookup_lt_Some in Hi; lia).
  cbn [andb]. rewrite Nat2Z.id, Hi.
  destruct d; [done|]. done.
Qed.

End HandleFacts.

(** * A full run of [process_questions_list] *)

Section Run.
Context `{Collaborators}.
Variable cfg : config.
Variable sch : schedules.
Variable output_path : option string.
Variable submission_file : bool.
Variables team_email submission_name pipeline_details : string.

Local Abbreviation the_loop :=
  (main_loop cfg sch output_path submission_file team_email submission_name
     pipeline_details).

Lemma run_process_questions_list (questions_list : list dict) (st : state) :
  run (process_questions_list cfg sch output_path submission_file team_email
         submission_name pipeline_details questions_list) st
  = match run (the_loop questions_list)
            (set_answer_details st (replicate (length questions_list) None)) with
    | (Ok processed, st1) =>
        match _calculate_statistics processed true with
        | Ok statistics =>
            (Ok (Output processed (answer_details st1) statistics), st1)
        | Raises e => (Raises e, st1)
        end
    | (Raises e, st1) => (Raises e, st1)
    end.
Proof.
  unfold process_questions_list, main_loop, with_index.
  cbn [mbind prog_mbind prog_bind run].
  rewrite run_bind.
  destruct (run _ _) as [[processed|e] st1]; [|done].
  rewrite run_bind, run_lift.
  by destruct (_calculate_statistics processed true).
Qed.

Lemma range_covers (n p : Z) :
  0 ≤ n → 1 < p →
  (Z.to_nat n ≤ (0 + Z.to_nat ((n + p - 1) `div` p)) * Z.to_nat p)%nat.
Proof.
  intros Hn Hp.
  pose proof (Z.div_mod (n + p - 1) p ltac:(lia)) as Hdm.
  pose proof (Z.mod_pos_bound (n + p - 1) p ltac:(lia)) as Hmod.
  assert (0 ≤ (n + p - 1) `div` p) by (apply Z.div_pos; lia).
  apply Nat2Z.inj_le. rewrite Nat2Z.inj_mul, Nat2Z.inj_add. rewrite !Z2Nat.id by lia.
  nia.
Qed.

Lemma wp_main_loop (questions_list : list dict) (st : state) :
  length (answer_details st) = length questions_list →
  wp evolves (the_loop questions_list) (loop_post cfg output_path (with_index questions_list)) st.
Proof.
  intros Hlen. unfold main_loop. case_bool_decide as HP.
  - apply (wp_sequential_loop cfg sch output_path submission_file team_email
             submission_name pipeline_details (with_index questions_list)) with (done := []).
    + intros k q Hq. by destruct (with_index_lookup _ _ _ Hq).
    + done.
    + by rewrite length_with_index.
    + apply covered_nil.
  - unfold py_range_step.
    apply (wp_batch_loop cfg sch output_path submission_file team_email
             submission_name pipeline_details (with_index questions_list)).
    + intros k q Hq. by destruct (with_index_lookup _ _ _ Hq).
    + lia.
    + rewrite length_with_index. unfold len.
      pose proof (range_covers (Z.of_nat (length questions_list))
                    (parallel_requests cfg) ltac:(lia) ltac:(lia)) as Hr.
      by rewrite Nat2Z.id in Hr.
    + by rewrite length_with_index.
    + cbn. apply covered_nil.
Qed.

(** What a run that returns has done, and why a run may raise. *)
Lemma run_outcome (questions_list : list dict) (st : state) :
  match run (process_questions_list cfg sch output_path submission_file team_email
               submission_name pipeline_details questions_list) st with
  | (Ok out, st') =>
      covered cfg (with_index questions_list) (out_questions out) st' ∧
      out_answer_details out = answer_details st' ∧
      length (answer_details st') = length questions_list ∧
      _calculate_statistics (out_questions out) true = Ok (out_statistics out)
  | (Raises e, _) => questions_list = [] ∨ saving output_path
  end.
Proof.
  rewrite run_process_questions_list.
  set (st0 := set_answer_details st (replicate (length questions_list) None)).
  assert (Hlen0 : length (answer_details st0) = length questions_list)
    by apply length_replicate.
  destruct (wp_run evolves _ _ _ (wp_main_loop questions_list st0 Hlen0)) as [Hpost [HR _]].
  destruct (run (the_loop questions_list) st0) as [[processed|e] st1];
    cbn [fst snd loop_post] in Hpost, HR.
  - destruct (_calculate_statistics processed true) as [statistics|e] eqn:Hstat.
    + cbn [out_questions out_answer_details out_statistics].
      split_and!; [done|done|congruence|done].
    + left. unfold _calculate_statistics in Hstat. cbn in Hstat.
      case_bool_decide as Hz; [|done].
      destruct Hpost as (Hl & _ & _). rewrite length_with_index in Hl.
      unfold len in Hz. destruct questions_list; [done|]. cbn in Hl. lia.
  - by right.
Qed.

End Run.

Module RunClaims.
Import HandleFacts ExportFacts.

(** C8: for every list of processed results the statistics are a function
    of that list alone and satisfy success_count + error_count + na_count =
    total_questions, with total_questions the length of the list; and the
    statistics a run of [process_questions_list] returns are those of the
    result list it returns. *)
Theorem statistics_counts_add_up `{Collaborators} (processed_questions : list dict) :
  (∃ st, _calculate_statistics processed_questions false = Ok st ∧
         success_count st + error_count st + na_count st = total_questions st ∧
         total_questions st = len processed_questions ∧
         (∀ print_stats st', _calculate_statistics processed_questions print_stats = Ok st' →
                             st' = st)) ∧
  (∀ cfg sch output_path submission_file team_email submission_name pipeline_details
     questions_list s out s',
     run (process_questions_list cfg sch output_path submission_file team_email
            submission_name pipeline_details questions_list) s = (Ok out, s') →
     _calculate_statistics (out_questions out) true = Ok (out_statistics out) ∧
     success_count (out_statistics out) + error_count (out_statistics out)
       + na_count (out_statistics out) = total_questions (out_statistics out) ∧
     total_questions (out_statistics out) = len (out_questions out)).
Proof.
  split.
  - destruct (statistics_of_list processed_questions) as (st & Hst & Hsum & Htot & _).
    exists st. split_and!; [done|done|done|].
    intros print_stats st' Hst'. unfold _calculate_statistics in Hst, Hst'.
    destruct (print_stats && _); [done|]. cbn in Hst, Hst'. congruence.
  - intros cfg sch output_path submission_file team_email submission_name
      pipeline_details questions_list s out s' Hrun.
    pose proof (run_outcome cfg sch output_path submission_file team_email
                  submission_name pipeline_details questions_list s) as Hout.
    rewrite Hrun in Hout. destruct Hout as (_ & _ & _ & Hstat).
    split; [done|].
    unfold _calculate_statistics in Hstat. destruct (true && _); [done|].
    cbn in Hstat. injection Hstat as <-. cbn. lia.
Qed.

(** C2 (the code at the failing input): on the empty question list
    [process_questions_list] raises ZeroDivisionError, whatever the
    parallelism and the schedule: the final statistics are printed as
    percentages of zero questions. *)
Theorem empty_question_list_raises `{Collaborators} (cfg : config) (sch : schedules)
    (output_path : option string) (submission_file : bool)
    (team_email submission_name pipeline_details : string) (st : state) :
  run (process_questions_list cfg sch output_path submission_file team_email
         submission_name pipeline_details []) st
  = (Raises ZeroDivisionError, set_answer_details st []).
Proof.
  rewrite run_process_questions_list. unfold main_loop. cbn [length replicate].
  case_bool_decide as HP; [done|].
  unfold py_range_step, len. cbn [length].
  replace ((Z.of_nat 0 + parallel_requests cfg - 1) `div` parallel_requests cfg) with 0
    by (symmetry; apply Z.div_small; lia).
  done.
Qed.

(** For a non-empty list, a run that returns delivers the results in the
    order of the questions, for every parallelism and every schedule, with
    the statistics of exactly these results; and it returns unless saving the
    progress fails. *)
Lemma results_follow_questions `{Collaborators} (cfg : config) (sch : schedules)
    (output_path : option string) (submission_file : bool)
    (team_email submission_name pipeline_details : string)
    (questions_list : list dict) (st : state) :
  match run (process_questions_list cfg sch output_path submission_file team_email
               submission_name pipeline_details questions_list) st with
  | (Ok out, _) =>
      length (out_questions out) = length questions_list ∧
      (∀ i fields, questions_list !! i = Some fields →
         ∃ res, out_questions out !! i = Some res ∧
                result_of_question cfg (QuestionData fields (Some (Z.of_nat i))) i res) ∧
      _calculate_statistics (out_questions out) true = Ok (out_statistics out)
  | (Raises e, _) => questions_list = [] ∨ saving output_path
  end.
Proof.
  pose proof (run_outcome cfg sch output_path submission_file team_email
                submission_name pipeline_details questions_list st) as Hrun.
  destruct (run _ st) as [[out|e] st']; [|done].
  destruct Hrun as ((Hl & Hres & _) & _ & _ & Hstat).
  rewrite length_with_index in Hl. split_and!; [done| |done].
  intros i fields Hi. apply Hres. unfold with_index.
  by rewrite list_lookup_imap, Hi.
Qed.

(** C4: when a run over N questions returns, the ledger it returns has N
    slots, each holding a record whose self handle is
    '#/answer_details/<i>' for its own index i, and whose handle resolves (by
    the resolution of the export) to that same record; a run raises only on
    the empty list or when saving the progress fails. *)
Theorem ledger_complete_after_run `{Collaborators} (cfg : config) (sch : schedules)
    (output_path : option string) (submission_file : bool)
    (team_email submission_name pipeline_details : string)
    (questions_list : list dict) (st : state) :
  match run (process_questions_list cfg sch output_path submission_file team_email
               submission_name pipeline_details questions_list) st with
  | (Ok out, _) =>
      length (out_answer_details out) = length questions_list ∧
      ∀ i, (i < length questions_list)%nat →
        ∃ d, out_answer_details out !! i = Some (Some d) ∧
             dict_get d "self" = Some (PStr (detail_handle (Z.of_nat i))) ∧
             String.prefix detail_prefix (detail_handle (Z.of_nat i)) = true ∧
             py_int (last_segment (detail_handle (Z.of_nat i))) = Ok (Z.of_nat i) ∧
             resolve_step_by_step (out_answer_details out)
               (PStr (detail_handle (Z.of_nat i)))
             = Ok (py_get d "step_by_step_analysis")
  | (Raises e, _) => questions_list = [] ∨ saving output_path
  end.
Proof.
  pose proof (run_outcome cfg sch output_path submission_file team_email
                submission_name pipeline_details questions_list st) as Hrun.
  destruct (run _ st) as [[out|e] st']; [|done].
  destruct Hrun as ((_ & _ & Hf) & -> & Hlen & _).
  split; [done|]. intros i Hi.
  destruct (Hf i) as (d & Hd & Hself); [by rewrite length_with_index|].
  exists d. destruct (handle_resolves _ i d Hd Hself) as (Hp & Hint & Hres).
  by split_and!.
Qed.

(** A run of the three demo questions in one batch of interleaved workers:
    one answer and two errors, in the order of the questions. *)
Example demo_run :
  match run (process_questions_list (H := Demo.collaborators) Demo.legacy
               Demo.taking_turns None false EmptyString EmptyString EmptyString
               Demo.questions) Demo.fresh with
  | (Ok out, _) =>
      out_statistics out
      = {| total_questions := 3; error_count := 2; na_count := 0; success_count := 1 |} ∧
      (λ q, (answer_value q, py_get q "error")) <$> out_questions out
      = [(PInt 42, PNone);
         (PNone, PStr "ValueError: No relevant context found");
         (PNone, PStr "ValueError: No company name found in the question.")]
  | (Raises _, _) => False
  end.
Proof. vm_compute. done. Qed.

End RunClaims.

(** * One question, run alone *)

Section Single.
Context `{Collaborators}.

#[global] Instance anything_preorder : PreOrder anything.
Proof. by split. Qed.

(** Without a constraint on the states, only the outcomes matter. *)
Lemma wp_anything {A} (p : prog A) (Q : res A → state → Prop) st :
  (∀ r st', Q r st') → wp anything p Q st.
Proof.
  intros HQ. revert st.
  induction p as [a|e|X act k IH]; intros st; cbn; [apply HQ|apply HQ|].
  intros st1 _. split; [done|]. apply IH.
Qed.

Lemma fails_raise {A} (e : exn) : fails (Raise (A := A) e).
Proof. intros st. by exists e. Qed.

Lemma fails_bind {A B} (p : prog A) (k : A → prog B) : fails p → fails (p ≫= k).
Proof.
  intros Hp st. apply wp_bind. eapply wp_mono; [|apply Hp]. cbn.
  intros r st' [e ->]. by exists e.
Qed.

Lemma fails_after {A B} (p : prog A) (k : A → prog B) :
  (∀ a, fails (k a)) → fails (p ≫= k).
Proof.
  intros Hk st. apply wp_bind. apply wp_anything.
  intros [a|e] st'; [apply Hk|by exists e].
Qed.

Lemma fails_run {A} (p : prog A) st : fails p → ∃ e st', run p st = (Raises e, st').
Proof.
  intros Hp. destruct (wp_run anything p _ st (Hp st)) as [[e He] _].
  destruct (run p st) as [r st']. cbn in He. subst r. by exists e, st'.
Qed.

Lemma collect_answers_raises completed outcomes (i : nat) e ia ar :
  i ∈ completed → outcomes !! i = Some (Raises e) →
  ∃ e', collect_answers completed outcomes ia ar = Raises e'.
Proof.
  revert ia ar. induction completed as [|j completed IH]; intros ia ar Hi Ho.
  - by apply elem_of_nil in Hi.
  - cbn [collect_answers]. destruct (decide (j = i)) as [->|Hne].
    + rewrite Ho. by exists e.
    + apply elem_of_cons in Hi as [->|Hi]; [done|].
      destruct (outcomes !! j) as [[[company answer_dict]|e']|]; [|by exists e'|by apply IH].
      destruct (py_method_get answer_dict "references" (PList [])) as [refs|e']; [|by exists e'].
      cbn. destruct (py_iter refs) as [items|e']; [|by exists e']. cbn. by apply IH.
Qed.

(** The loop over [as_completed] of a pool of two tasks, the second of
    which raised [e1]: the loop raises, and what it raises is [e1] unless
    the first task completed earlier and taking its result raised. *)
Lemma collect_answers_second completed outcomes e1 ia ar :
  length outcomes = 2%nat → 1%nat ∈ completed →
  outcomes !! 1%nat = Some (Raises e1) →
  ∃ e, collect_answers completed outcomes ia ar = Raises e ∧
       (e = e1 ∨ outcomes !! 0%nat = Some (Raises e) ∨
        ∃ company answer_dict,
          outcomes !! 0%nat = Some (Ok (company, answer_dict)) ∧
          py_method_get answer_dict "references" (PList []) ≫= py_iter = Raises e).
Proof.
  intros Hlen Hin Ho. revert ia ar.
  induction completed as [|j completed IH]; intros ia ar.
  - by apply elem_of_nil in Hin.
  - cbn [collect_answers]. destruct j as [|[|j]].
    + apply elem_of_cons in Hin as [?|Hin]; [done|].
      destruct (outcomes !! 0%nat) as [[[company answer_dict]|e0]|] eqn:H0.
      * destruct (py_method_get answer_dict "references" (PList [])) as [refs|e0] eqn:Hget.
        -- cbn [mbind res_bind]. destruct (py_iter refs) as [items|e0] eqn:Hiter.
           ++ cbn [mbind res_bind].
              destruct (IH Hin (dict_set ia company answer_dict) (ar ++ items))
                as (e & -> & Hwhich).
              exists e. split; [done|]. exact Hwhich.
           ++ exists e0. split; [done|]. right; right. exists company, answer_dict.
              split; [done|]. rewrite Hget. cbn. exact Hiter.
        -- exists e0. split; [done|]. right; right. exists company, answer_dict.
           split; [done|]. by rewrite Hget.
      * exists e0. split; [done|]. by right; left.
      * apply lookup_ge_None in H0. lia.
    + rewrite Ho. exists e1. split; [done|by left].
    + apply elem_of_cons in Hin as [?|Hin]; [done|].
      rewrite (lookup_ge_None_2 outcomes (S (S j))) by lia. by apply IH.
Qed.

(** A pool that has run has one outcome per task and has seen the future of
    every task complete. *)
Lemma run_pool_complete {A} (sched : list nat) (tasks : list (prog A)) st outs
    completed st' :
  run (run_pool sched tasks) st = (Ok (outs, completed), st') →
  length outs = length tasks ∧ ∀ i, i ∈ completed ↔ (i < length tasks)%nat.
Proof.
  intros Hrun.
  destruct (wp_run anything _ _ st
              (wp_run_pool anything sched tasks (λ _ _ _, True) st
                 (λ i r st1 st2 _ _, I)
                 (λ i t _, wp_anything t _ st (λ _ _, I))))
    as [(outs' & completed' & Heq & Hlen & _ & Hc) _].
  rewrite Hrun in Heq. cbn in Heq. injection Heq as -> ->. done.
Qed.

Section Question.
Variable cfg : config.
Variable sched : list nat.
Variable q : question_data.
Variable i : nat.
Hypothesis q_index : question_index_of q = Z.of_nat i.

Lemma run_handle_processing_error e st :
  (i < length (answer_details st))%nat →
  run (_handle_processing_error cfg (question_text_of cfg q) (schema_of cfg q) e
         (question_index_of q)) st
  = (Ok (error_result cfg (question_text_of cfg q) (schema_of cfg q) e
           (detail_handle (Z.of_nat i))),
     with_error_detail i e st).
Proof.
  intros Hi. unfold _handle_processing_error, store_detail. rewrite q_index.
  cbn. by rewrite ledger_set_in_range.
Qed.

Lemma run_try_body_evolves st :
  (i < length (answer_details st))%nat →
  length (answer_details (run (try_body cfg sched q) st).2) = length (answer_details st).
Proof.
  intros Hi.
  destruct (wp_run evolves _ _ st (wp_try_body cfg q i q_index sched st Hi))
    as [_ [Hlen _]].
  done.
Qed.

(** The outcome of [_process_single_question] when its [try] raises. *)
Lemma run_process_single_question_raises st e st1 :
  (i < length (answer_details st))%nat →
  run (try_body cfg sched q) st = (Raises e, st1) →
  run (_process_single_question cfg sched q) st
  = (Ok (error_result cfg (question_text_of cfg q) (schema_of cfg q) e
           (detail_handle (Z.of_nat i))),
     with_error_detail i e st1).
Proof.
  intros Hi Hbody. unfold _process_single_question.
  rewrite run_try_except, Hbody. apply run_handle_processing_error.
  pose proof (run_try_body_evolves st Hi) as Hlen. rewrite Hbody in Hlen.
  cbn in Hlen. lia.
Qed.

Lemma run_process_single_question_returns st :
  (i < length (answer_details st))%nat →
  ∃ res st', run (_process_single_question cfg sched q) st = (Ok res, st').
Proof.
  intros Hi.
  destruct (wp_run evolves _ _ st (wp_process_single_question cfg q i q_index sched st Hi))
    as [(res & Hres & _) _].
  destruct (run _ st) as [r st']. cbn in Hres. subst r. by exists res, st'.
Qed.

End Question.
End Single.

Module SingleClaims.

(** C3 (as stated, refuted): in the legacy pipeline the error result of a
    question whose processing raised carries no reference list at all. *)
Lemma legacy_error_result_has_no_references :
  ¬ ∃ res st',
      run (_process_single_question (H := Demo.collaborators) Demo.legacy [] Demo.unnamed)
        Demo.fresh = (Ok res, st') ∧
      dict_get res "references" = Some (PList []).
Proof. intros (res & st' & Hrun & Href). vm_compute in Hrun. by injection Hrun as <- <-. Qed.

(** C3 (amended): for a question whose index addresses a slot of the ledger,
    [_process_single_question] returns and never raises; when the body of its
    [try] raises [e], what it returns is the error result for this question:
    the error string is the class name of [e], a colon and its message, the
    value is [None], the detail handle is that of the question's index, the
    references are the empty list in the challenge pipeline and absent in the
    legacy one; and the slot of the question holds the error-shaped detail
    with the traceback and that handle. *)
Theorem single_question_captures_exceptions `{Collaborators} (cfg : config)
    (sched : list nat) (q : question_data) (i : nat) (st : state) :
  question_index_of q = Z.of_nat i →
  (i < length (answer_details st))%nat →
  ∃ res st',
    run (_process_single_question cfg sched q) st = (Ok res, st') ∧
    ∀ e st1, run (try_body cfg sched q) st = (Raises e, st1) →
      res = error_result cfg (question_text_of cfg q) (schema_of cfg q) e
              (detail_handle (Z.of_nat i)) ∧
      py_get res "error" = PStr (exn_type e ++ ": " ++ exn_msg e) ∧
      answer_value res = PNone ∧
      py_get res "answer_details" = PDict [("$ref", PStr (detail_handle (Z.of_nat i)))] ∧
      dict_get res "references"
        = (if new_challenge_pipeline cfg then Some (PList []) else None) ∧
      st' = with_error_detail i e st1 ∧
      answer_details st' !! i
        = Some (Some [("error_traceback", PStr (format_exc e));
                      ("self", PStr (detail_handle (Z.of_nat i)))]).
Proof.
  intros Hidx Hi.
  destruct (run_process_single_question_returns cfg sched q i Hidx st Hi)
    as (res & st' & Hrun).
  exists res, st'. split; [done|]. intros e st1 Hbody.
  pose proof (run_process_single_question_raises cfg sched q i Hidx st e st1 Hi Hbody)
    as Hrun'.
  rewrite Hrun in Hrun'. injection Hrun' as -> ->.
  assert (Hlen : (i < length (answer_details st1))%nat).
  { pose proof (run_try_body_evolves cfg sched q i Hidx st Hi) as Hlen.
    rewrite Hbody in Hlen. cbn in Hlen. lia. }
  split_and!; try done.
  - unfold error_result. by destruct (new_challenge_pipeline cfg).
  - unfold error_result. by destruct (new_challenge_pipeline cfg).
  - unfold error_result. by destruct (new_challenge_pipeline cfg).
  - unfold error_result. by destruct (new_challenge_pipeline cfg).
  - unfold with_error_detail. cbn. by rewrite list_lookup_insert_eq.
Qed.

Lemma single_question_captures_exceptions_witness :
  ∃ res st',
    run (_process_single_question (H := Demo.collaborators) Demo.legacy [] Demo.unnamed)
      Demo.fresh = (Ok res, st') ∧
    py_get res "error" = PStr "ValueError: No company name found in the question." ∧
    dict_get res "references" = None ∧
    answer_details st' !! 0%nat
      = Some (Some [("error_traceback",
                     PStr "Traceback (most recent call last): ValueError: No company name found in the question.");
                    ("self", PStr "#/answer_details/0")]).
Proof.
  destruct (single_question_captures_exceptions (H := Demo.collaborators)
              Demo.legacy [] Demo.unnamed 0 Demo.fresh eq_refl (le_n 1))
    as (res & st' & Hrun & Herr).
  destruct (Herr (ValueError "No company name found in the question.") Demo.fresh eq_refl)
    as (_ & He & _ & _ & Hr & _ & Hd).
  exists res, st'. split_and!; [exact Hrun|exact He|exact Hr|exact Hd].
Defined.

(** C5: a comparative question is one whose text yields the two entities A
    and B.  Take any run of it, under any interleaving of the two per-entity
    tasks, in which the rephrasing returned and the task of B raised [eB],
    be it in retrieval, in answering or anywhere else, whatever the task of A
    did.  Then the loop over the completed tasks raises an exception [e], so
    the comparative question raises [e] in the state the pool left, before
    any comparative answer is asked for, and the pipeline returns one error
    result for the combined question, built from [e], with one error-shaped
    detail record in the slot of the question; nothing is returned for A.
    The exception [e] is [eB], unless the task of A completed first and
    either raised [e] itself or returned an answer whose references could
    not be taken. *)
Theorem comparative_failure_is_one_error `{Collaborators} (cfg : config)
    (sched : list nat) (q : question_data) (i : nat) (A B : string)
    (st st0 st1 st2 : state) (rephrased_questions : pyval)
    (outcomes : list (res (string * pyval))) (completed : list nat) (eB : exn) :
  question_index_of q = Z.of_nat i →
  (i < length (answer_details st))%nat →
  run (extract_companies cfg (question_text_of cfg q)) st = (Ok [A; B], st0) →
  run (call (get_rephrased_questions (question_text_of cfg q) [A; B])) st0
  = (Ok rephrased_questions, st1) →
  run (run_pool sched (process_company_question cfg rephrased_questions <$> [A; B])) st1
  = (Ok (outcomes, completed), st2) →
  outcomes !! 1%nat = Some (Raises eB) →
  ∃ e,
    collect_answers completed outcomes [] [] = Raises e ∧
    (e = eB ∨ outcomes !! 0%nat = Some (Raises e) ∨
     ∃ company answer_dict,
       outcomes !! 0%nat = Some (Ok (company, answer_dict)) ∧
       py_method_get answer_dict "references" (PList []) ≫= py_iter = Raises e) ∧
    run (process_comparative_question cfg sched (question_text_of cfg q) [A; B]
           (schema_of cfg q)) st0
    = (Raises e, st2) ∧
    run (process_question cfg sched (question_text_of cfg q) (schema_of cfg q)) st
    = (Raises e, st2) ∧
    run (_process_single_question cfg sched q) st
    = (Ok (error_result cfg (question_text_of cfg q) (schema_of cfg q) e
             (detail_handle (Z.of_nat i))),
       with_error_detail i e st2) ∧
    py_get (error_result cfg (question_text_of cfg q) (schema_of cfg q) e
              (detail_handle (Z.of_nat i))) "error"
    = PStr (exn_type e ++ ": " ++ exn_msg e) ∧
    answer_value (error_result cfg (question_text_of cfg q) (schema_of cfg q) e
                    (detail_handle (Z.of_nat i))) = PNone ∧
    answer_details (with_error_detail i e st2) !! i
    = Some (Some [("error_traceback", PStr (format_exc e));
                  ("self", PStr (detail_handle (Z.of_nat i)))]) ∧
    environment (with_error_detail i e st2) = environment st2 ∧
    response_data (with_error_detail i e st2) = response_data st2.
Proof.
  intros Hidx Hi Hex Hreph Hpool HB.
  destruct (run_pool_complete _ _ _ _ _ _ Hpool) as [Hlen Hc]. cbn in Hlen.
  destruct (collect_answers_second completed outcomes eB [] [] Hlen) as (e & He & Hwhich);
    [apply Hc; cbn; lia|done|].
  assert (Hcmp : run (process_comparative_question cfg sched (question_text_of cfg q)
                        [A; B] (schema_of cfg q)) st0 = (Raises e, st2)).
  { unfold process_comparative_question. rewrite run_bind, Hreph, run_bind, Hpool.
    cbv beta iota. by rewrite He. }
  assert (Hq : run (process_question cfg sched (question_text_of cfg q) (schema_of cfg q)) st
               = (Raises e, st2)).
  { unfold process_question. rewrite run_bind, Hex. exact Hcmp. }
  assert (Hbody : run (try_body cfg sched q) st = (Raises e, st2)).
  { unfold try_body. by rewrite run_bind, Hq. }
  assert (Hlen2 : (i < length (answer_details st2))%nat).
  { pose proof (run_try_body_evolves cfg sched q i Hidx st Hi) as Hl.
    rewrite Hbody in Hl. cbn in Hl. lia. }
  exists e. split_and!; try done.
  - by apply run_process_single_question_raises.
  - unfold error_result. by destruct (new_challenge_pipeline cfg).
  - unfold error_result. by destruct (new_challenge_pipeline cfg).
  - unfold with_error_detail. cbn. by rewrite list_lookup_insert_eq.
Qed.

Lemma comparative_failure_is_one_error_witness :
  ∃ e,
    collect_answers [1; 0]%nat
      [Ok ("Acme",
           (PDict [("step_by_step_analysis", PStr "The table on page 3 gives the figure.");
                    ("reasoning_summary", PStr "Read from the segment table.");
                    ("relevant_pages", PList [PInt 3; PInt 5]);
                    ("final_answer", PInt 42);
                    ("references",
                     PList [PDict [("pdf_sha1", PStr "0a1b2c"); ("page_index", PInt 3)];
                            PDict [("pdf_sha1", PStr "0a1b2c"); ("page_index", PInt 5)]])]));
       Raises (ValueError "No relevant context found")]
      [] [] = Raises e ∧
    run (_process_single_question (H := Demo.collaborators) Demo.challenge
           [0; 1; 0; 1]%nat Demo.compared) Demo.fresh
    = (Ok (error_result Demo.challenge (question_text_of Demo.challenge Demo.compared)
             (schema_of Demo.challenge Demo.compared) e (detail_handle 0)),
       with_error_detail 0 e
         (State (H := Demo.collaborators) [None] (Some (PDict [("model", PStr "demo")]))
            (Some [("Acme", PStr "0a1b2c"); ("Bolt", PStr "3d4e5f")]) ())).
Proof.
  destruct (comparative_failure_is_one_error (H := Demo.collaborators)
              Demo.challenge [0; 1; 0; 1]%nat Demo.compared 0 "Acme" "Bolt" Demo.fresh
              (set_companies_df Demo.fresh
                 [("Acme", PStr "0a1b2c"); ("Bolt", PStr "3d4e5f")])
              (set_companies_df Demo.fresh
                 [("Acme", PStr "0a1b2c"); ("Bolt", PStr "3d4e5f")])
              (State (H := Demo.collaborators) [None] (Some (PDict [("model", PStr "demo")]))
                 (Some [("Acme", PStr "0a1b2c"); ("Bolt", PStr "3d4e5f")]) ())
              (PDict [("Acme", PStr "What is the revenue of Acme?");
                      ("Bolt", PStr "What is the revenue of Bolt?")])
              [Ok ("Acme",
                   (PDict [("step_by_step_analysis", PStr "The table on page 3 gives the figure.");
                    ("reasoning_summary", PStr "Read from the segment table.");
                    ("relevant_pages", PList [PInt 3; PInt 5]);
                    ("final_answer", PInt 42);
                    ("references",
                     PList [PDict [("pdf_sha1", PStr "0a1b2c"); ("page_index", PInt 3)];
                            PDict [("pdf_sha1", PStr "0a1b2c"); ("page_index", PInt 5)]])]));
               Raises (ValueError "No relevant context found")]
              [1; 0]%nat (ValueError "No relevant context found")
              eq_refl (le_n 1) eq_refl eq_refl eq_refl eq_refl)
    as (e & He & _ & _ & _ & Hrun & _).
  exists e. split; [exact He|exact Hrun].
Defined.

End SingleClaims.

(** * More on the page validator *)

Module ValidatorMore.
Import Validator ValidatorFacts.

(** The backfill appends to the validated pages; what it appends follows the
    order of the retrieval, repeats no page and no page already counted. *)
Lemma backfill_appends min_pages rs validated (existing : gset Z) :
  ∃ added, backfill min_pages rs validated existing = validated ++ added ∧
           added `sublist_of` retrieved_pages rs ∧ NoDup added ∧
           ∀ p, p ∈ added → p ∉ existing.
Proof.
  revert validated existing. induction rs as [|r rs IH]; intros v ex; simpl.
  { exists []. rewrite app_nil_r. repeat split; [constructor..|].
    intros p Hp. by apply elem_of_nil in Hp. }
  case_bool_decide as Hnew.
  - case_bool_decide as Hlen.
    + exists [page r]. split; [done|]. split; [|split].
      * apply sublist_skip, sublist_nil_l.
      * apply NoDup_singleton.
      * intros p ->%list_elem_of_singleton. done.
    + destruct (IH (v ++ [page r]) (ex ∪ {[page r]})) as (added & -> & Hsub & Hnd & Hex).
      exists (page r :: added). rewrite <- app_assoc. split; [done|]. split; [|split].
      * by apply sublist_skip.
      * constructor; [|done]. intros Hin. apply (Hex _ Hin). set_solver.
      * intros p [->|Hin]%elem_of_cons; [done|]. specialize (Hex _ Hin). set_solver.
  - destruct (IH v ex) as (added & -> & Hsub & Hnd & Hex).
    exists added. split; [done|]. split; [by apply sublist_cons|done].
Qed.

Lemma claimed_then_backfilled_appends claimed rs min_pages :
  ∃ added, claimed_then_backfilled claimed rs min_pages
           = filter_claimed claimed rs ++ added ∧
           added `sublist_of` retrieved_pages rs ∧ NoDup added ∧
           ∀ p, p ∈ added → p ∉ filter_claimed claimed rs.
Proof.
  unfold claimed_then_backfilled.
  destruct (bool_decide _ && truthy_list rs).
  - destruct (backfill_appends min_pages rs (filter_claimed claimed rs)
                (list_to_set (filter_claimed claimed rs)))
      as (added & -> & Hsub & Hnd & Hex).
    exists added. repeat split; [done..|]. intros p Hp. specialize (Hex _ Hp). set_solver.
  - exists []. rewrite app_nil_r. repeat split; [apply sublist_nil_l|constructor|].
    intros p Hp. by apply elem_of_nil in Hp.
Qed.

Lemma py_slice_to_take {A} (l : list A) (k : Z) : ∃ n, py_slice_to l k = take n l.
Proof. unfold py_slice_to. case_bool_decide; eauto. Qed.

Lemma validate_decomposition claimed rs min_pages max_pages :
  ∃ kept added,
    _validate_page_references claimed rs min_pages max_pages = kept ++ added ∧
    kept `prefix_of` filter_claimed claimed rs ∧
    added `sublist_of` retrieved_pages rs ∧ NoDup added ∧
    (∀ p, p ∈ added → p ∉ filter_claimed claimed rs).
Proof.
  unfold _validate_page_references.
  destruct (claimed_then_backfilled_appends claimed rs min_pages)
    as (added & -> & Hsub & Hnd & Hex).
  case_bool_decide.
  - destruct (py_slice_to_take (filter_claimed claimed rs ++ added) max_pages) as [n ->].
    rewrite take_app.
    exists (take n (filter_claimed claimed rs)),
           (take (n - length (filter_claimed claimed rs)) added).
    split; [done|]. split; [apply prefix_take|]. split; [|split].
    + etrans; [apply sublist_take|done].
    + eapply sublist_NoDup; [done|apply sublist_take].
    + intros p Hp. apply Hex. eapply elem_of_sublist; [done|apply sublist_take].
  - exists (filter_claimed claimed rs), added. done.
Qed.

Lemma claimed_then_backfilled_retrieved claimed rs min_pages p :
  p ∈ claimed_then_backfilled claimed rs min_pages → p ∈ retrieved_pages rs.
Proof.
  destruct (claimed_then_backfilled_appends claimed rs min_pages)
    as (added & -> & Hsub & _).
  intros [Hp|Hp]%elem_of_app.
  - by eapply filter_claimed_retrieved.
  - by eapply elem_of_sublist.
Qed.

Lemma validated_retrieved claimed rs min_pages max_pages p :
  p ∈ _validate_page_references claimed rs min_pages max_pages →
  p ∈ retrieved_pages rs.
Proof.
  unfold _validate_page_references. case_bool_decide.
  - intros Hp. apply (claimed_then_backfilled_retrieved claimed rs min_pages).
    eapply elem_of_prefix; [done|apply py_slice_to_prefix].
  - apply claimed_then_backfilled_retrieved.
Qed.

Lemma claimed_then_backfilled_saturated claimed rs min_pages :
  len (claimed_then_backfilled claimed rs min_pages) < min_pages →
  ∀ p, p ∈ retrieved_pages rs → p ∈ claimed_then_backfilled claimed rs min_pages.
Proof.
  unfold claimed_then_backfilled.
  case_bool_decide as Hlen; [|simpl; lia].
  destruct rs as [|r rs]; simpl.
  { intros _ p Hp. by apply elem_of_nil in Hp. }
  intros Hshort.
  by apply (backfill_spec min_pages (r :: rs) (filter_claimed claimed (r :: rs))).
Qed.

Lemma backfill_saturated min_pages rs v (ex : gset Z) :
  (∀ p, p ∈ retrieved_pages rs → p ∈ ex) → backfill min_pages rs v ex = v.
Proof.
  induction rs as [|r rs IH]; intros Hall; simpl; [done|].
  rewrite bool_decide_eq_false_2.
  - apply IH. intros p Hp. apply Hall. by apply elem_of_cons; right.
  - intros Hn. apply Hn, Hall. by apply elem_of_cons; left.
Qed.

Lemma claimed_again_prefix (l : list Z) rs min_pages :
  (∀ p, p ∈ l → p ∈ retrieved_pages rs) →
  ∃ added, claimed_then_backfilled (Some l) rs min_pages = l ++ added.
Proof.
  intros Hl. destruct (claimed_then_backfilled_appends (Some l) rs min_pages)
    as (added & Heq & _).
  rewrite filter_claimed_all_valid in Heq by done. eauto.
Qed.

Lemma validate_again (l : list Z) rs min_pages max_pages :
  (∀ p, p ∈ l → p ∈ retrieved_pages rs) →
  0 ≤ max_pages →
  len l = max_pages ∨
  (len l ≤ max_pages ∧ claimed_then_backfilled (Some l) rs min_pages = l) →
  _validate_page_references (Some l) rs min_pages max_pages = l.
Proof.
  intros Hvalid Hmax Hcase. unfold _validate_page_references.
  destruct Hcase as [Hlen|[Hlen ->]].
  - destruct (claimed_again_prefix l rs min_pages Hvalid) as [added ->].
    case_bool_decide as Hlong.
    + unfold py_slice_to. rewrite bool_decide_eq_true_2 by done.
      apply take_app_length'. unfold len in Hlen. lia.
    + unfold len in *. rewrite length_app in Hlong.
      destruct added; [by rewrite app_nil_r|simpl in Hlong; lia].
  - by rewrite bool_decide_eq_false_2 by lia.
Qed.

Lemma backfill_fresh min_pages rs v (ex : gset Z) :
  NoDup (retrieved_pages rs) → (∀ p, p ∈ retrieved_pages rs → p ∉ ex) →
  len v < min_pages →
  backfill min_pages rs v ex
  = v ++ take (Z.to_nat (min_pages - len v)) (retrieved_pages rs).
Proof.
  revert v ex. induction rs as [|r rs IH]; intros v ex Hnd Hfresh Hlen; simpl.
  { by rewrite take_nil, app_nil_r. }
  apply NoDup_cons in Hnd as [Hr Hnd].
  rewrite bool_decide_eq_true_2 by (apply Hfresh, elem_of_cons; by left).
  rewrite len_app_one.
  replace (Z.to_nat (min_pages - len v)) with (S (Z.to_nat (min_pages - len v - 1)))
    by lia.
  case_bool_decide as Hfull.
  - replace (Z.to_nat (min_pages - len v - 1)) with 0%nat by lia. done.
  - rewrite IH; [|done| |rewrite len_app_one; lia].
    + rewrite len_app_one, <- app_assoc. simpl. do 3 f_equal. lia.
    + intros p Hp [Hex| ->%elem_of_singleton]%elem_of_union; [|done].
      apply (Hfresh p); [apply elem_of_cons; by right|done].
Qed.

Lemma filter_claimed_none_valid claimed rs :
  (∀ p, p ∈ default [] claimed → p ∉ retrieved_pages rs) →
  filter_claimed claimed rs = [].
Proof.
  unfold filter_claimed. induction (default [] claimed) as [|p l IH]; intros Hl; [done|].
  rewrite filter_cons_False by (apply Hl, elem_of_cons; by left).
  apply IH. intros q Hq. apply Hl, elem_of_cons. by right.
Qed.

End ValidatorMore.

Module ValidatorExtras.
Import Validator ValidatorFacts ValidatorMore.

(** X1: validating a validated list changes nothing.  For a non-negative
    [max_pages], the output of [_validate_page_references], passed again as
    the claimed pages with the same retrieval and bounds, comes back
    unchanged. *)
Theorem validate_twice (claimed : option (list Z)) (rs : list passage)
    (min_pages max_pages : Z) :
  0 ≤ max_pages →
  let out := _validate_page_references claimed rs min_pages max_pages in
  _validate_page_references (Some out) rs min_pages max_pages = out.
Proof.
  intros Hmax out. apply validate_again; [apply validated_retrieved|done|].
  subst out. unfold _validate_page_references.
  set (cb := claimed_then_backfilled claimed rs min_pages).
  case_bool_decide as Hlong.
  - left. apply py_slice_to_len; lia.
  - right. split; [lia|].
    unfold claimed_then_backfilled at 1.
    rewrite filter_claimed_all_valid by apply claimed_then_backfilled_retrieved.
    case_bool_decide as Hshort; [|done]. destruct (truthy_list rs); [|done].
    simpl. apply backfill_saturated. intros p Hp.
    apply elem_of_list_to_set. by apply claimed_then_backfilled_saturated.
Qed.

Lemma validate_twice_witness :
  _validate_page_references
    (Some (_validate_page_references (Some [3; 9; 3]) (passages_of [2; 3; 4; 5]) 4 3))
    (passages_of [2; 3; 4; 5]) 4 3
  = _validate_page_references (Some [3; 9; 3]) (passages_of [2; 3; 4; 5]) 4 3.
Proof. apply (validate_twice (Some [3; 9; 3]) (passages_of [2; 3; 4; 5]) 4 3). lia. Defined.

(** X2: the output of [_validate_page_references] is a prefix of the valid
    claimed pages, in the order claimed, followed by backfilled pages; the
    backfilled pages follow the order of the retrieval, are pairwise
    distinct and are none of the valid claimed pages.  So claimed pages
    without repetition give an output without repetition. *)
Theorem validated_claimed_then_backfilled (claimed : option (list Z))
    (rs : list passage) (min_pages max_pages : Z) :
  let out := _validate_page_references claimed rs min_pages max_pages in
  (∃ kept added,
     out = kept ++ added ∧
     kept `prefix_of` filter_claimed claimed rs ∧
     added `sublist_of` retrieved_pages rs ∧ NoDup added ∧
     (∀ p, p ∈ added → p ∉ filter_claimed claimed rs)) ∧
  (NoDup (default [] claimed) → NoDup out).
Proof.
  destruct (validate_decomposition claimed rs min_pages max_pages)
    as (kept & added & Hout & Hkept & Hsub & Hnd & Hnew).
  split; [by exists kept, added|]. cbv zeta. rewrite Hout. intros Hcl.
  apply NoDup_app. split; [|split; [|done]].
  - destruct Hkept as [rest Hrest].
    assert (Hf : NoDup (filter_claimed claimed rs))
      by (unfold filter_claimed; by apply NoDup_filter).
    rewrite Hrest in Hf. by apply NoDup_app in Hf as [? _].
  - intros p Hp Hp'. apply (Hnew p Hp'). eapply elem_of_prefix; [exact Hp|exact Hkept].
Qed.

(** X3: when none of the claimed pages was retrieved and the retrieved pages
    are pairwise distinct, the output is the first [min_pages] retrieved
    pages (all of them if there are fewer), for [0 ≤ min_pages ≤ max_pages]. *)
Theorem validate_unclaimed_top_pages (claimed : option (list Z))
    (rs : list passage) (min_pages max_pages : Z) :
  (∀ p, p ∈ default [] claimed → p ∉ retrieved_pages rs) →
  NoDup (retrieved_pages rs) →
  0 ≤ min_pages ≤ max_pages →
  _validate_page_references claimed rs min_pages max_pages
  = take (Z.to_nat min_pages) (retrieved_pages rs).
Proof.
  intros Hnone Hnd Hbounds.
  assert (Hcb : claimed_then_backfilled claimed rs min_pages
                = take (Z.to_nat min_pages) (retrieved_pages rs)).
  { unfold claimed_then_backfilled. rewrite (filter_claimed_none_valid _ _ Hnone).
    case_bool_decide as Hmin; simpl.
    - destruct rs as [|r rs]; [by destruct (Z.to_nat min_pages)|].
      simpl truthy_list. cbv iota.
      rewrite backfill_fresh; [|done|set_solver|done].
      simpl. f_equal. unfold len. simpl. lia.
    - unfold len in Hmin. simpl in Hmin.
      by replace (Z.to_nat min_pages) with 0%nat by lia. }
  unfold _validate_page_references. rewrite Hcb.
  rewrite bool_decide_eq_false_2; [done|].
  unfold len. rewrite length_take. lia.
Qed.

Lemma validate_unclaimed_top_pages_witness :
  _validate_page_references (Some [9; 7]) (passages_of [2; 3; 4; 5]) 2 8 = [2; 3].
Proof.
  apply (validate_unclaimed_top_pages (Some [9; 7]) (passages_of [2; 3; 4; 5]) 2 8).
  - intros p Hp Hr. vm_compute in Hp, Hr. set_solver.
  - vm_compute. repeat constructor; set_solver.
  - lia.
Defined.

End ValidatorExtras.

(** * The validator on the values of an answer *)

Module AnyPagesFacts.
Import Validator ValidatorFacts ValidatorMore.

Lemma len_fmap {A B} (f : A → B) (l : list A) : len (f <$> l) = len l.
Proof. unfold len. by rewrite length_fmap. Qed.

Lemma py_eq_int_numeric p v : py_eq (PInt p) v = true → numeric v = true.
Proof. by destruct v. Qed.

Lemma page_in_int pages z : AnyPages.page_in pages (PInt z) = true ↔ z ∈ pages.
Proof.
  unfold AnyPages.page_in. rewrite existsb_exists. split.
  - intros (p & Hp & ->%Z.eqb_eq). by apply list_elem_of_In.
  - intros Hz. exists z. split; [by apply list_elem_of_In|apply Z.eqb_refl].
Qed.

Lemma page_in_backed pages v : AnyPages.page_in pages v = true → backed pages v.
Proof.
  unfold AnyPages.page_in. rewrite existsb_exists. intros (p & Hp & Heq).
  split; [by eapply py_eq_int_numeric|]. exists p. split; [by apply list_elem_of_In|done].
Qed.

Lemma counted_ints e p : AnyPages.counted (PInt <$> e) p = true ↔ p ∈ e.
Proof.
  unfold AnyPages.counted. rewrite existsb_exists. split.
  - intros (v & Hv & Heq). apply list_elem_of_In, list_elem_of_fmap in Hv as (z & -> & Hz).
    by apply Z.eqb_eq in Heq as ->.
  - intros Hp. exists (PInt p). split; [|apply Z.eqb_refl].
    apply list_elem_of_In, list_elem_of_fmap. by exists p.
Qed.

Lemma filter_ints pages (cl : list Z) :
  filter (λ v, AnyPages.page_in pages v = true) (PInt <$> cl)
  = PInt <$> filter (λ p, p ∈ pages) cl.
Proof.
  induction cl as [|z cl IH]; [done|].
  rewrite fmap_cons, !filter_cons, IH.
  destruct (decide (z ∈ pages)) as [Hz|Hz].
  - rewrite decide_True by (by apply page_in_int). done.
  - rewrite decide_False; [done|]. by rewrite page_in_int.
Qed.

Lemma hashable_ints (l : list Z) : ∃ out, res_map py_hashable (PInt <$> l) = Ok out.
Proof.
  induction l as [|z l [out IH]]; [by exists []|].
  exists (() :: out). rewrite fmap_cons. cbn [res_map py_hashable mbind res_bind].
  by rewrite IH.
Qed.

Lemma backfill_ints min_pages rs (v e : list Z) (ex : gset Z) :
  (∀ p, p ∈ ex ↔ p ∈ e) →
  AnyPages.backfill min_pages rs (PInt <$> v) (PInt <$> e)
  = PInt <$> backfill min_pages rs v ex.
Proof.
  revert v e ex. induction rs as [|r rs IH]; intros v e ex Hex; [done|].
  cbn [AnyPages.backfill backfill].
  destruct (AnyPages.counted (PInt <$> e) (page r)) eqn:Hc; cbn [negb].
  - rewrite (bool_decide_eq_false_2 (page r ∉ ex)); [by apply IH|].
    apply counted_ints, Hex in Hc. tauto.
  - rewrite (bool_decide_eq_true_2 (page r ∉ ex)).
    2:{ intros Hin. apply Hex, counted_ints in Hin. congruence. }
    change [PInt (page r)] with (PInt <$> [page r]). rewrite <- !fmap_app.
    rewrite len_fmap. case_bool_decide; [done|].
    apply IH. intros p. rewrite elem_of_union, elem_of_app, Hex. set_solver.
Qed.

Lemma py_slice_to_fmap {A B} (f : A → B) (l : list A) (k : Z) :
  py_slice_to (f <$> l) k = f <$> py_slice_to l k.
Proof.
  unfold py_slice_to. rewrite length_fmap. case_bool_decide; by rewrite fmap_take.
Qed.

Lemma validate_ints (cl : list Z) rs min_pages max_pages :
  AnyPages._validate_page_references (PList (PInt <$> cl)) rs min_pages max_pages
  = Ok (PInt <$> _validate_page_references (Some cl) rs min_pages max_pages).
Proof.
  set (f := filter (λ p, p ∈ retrieved_pages rs) cl).
  set (cb := if bool_decide (len f < min_pages) && truthy_list rs
             then backfill min_pages rs f (list_to_set f) else f).
  change (_validate_page_references (Some cl) rs min_pages max_pages)
    with (if bool_decide (len cb > max_pages) then py_slice_to cb max_pages else cb).
  unfold AnyPages._validate_page_references.
  cbn [py_iter mbind res_bind]. rewrite filter_ints. fold f.
  assert (Hhash : ∃ u, (if bool_decide (len (PInt <$> f) < len (PInt <$> cl))
                        then _ ← res_map py_hashable (PInt <$> cl);
                             _ ← res_map py_hashable (PInt <$> f); Ok ()
                        else Ok ()) = Ok u).
  { case_bool_decide; [|by eexists].
    destruct (hashable_ints cl) as [o1 ->]. cbn [mbind res_bind].
    destruct (hashable_ints f) as [o2 ->]. by eexists. }
  destruct Hhash as [u ->]. cbn [mbind res_bind]. f_equal.
  rewrite !len_fmap.
  rewrite (backfill_ints min_pages rs f f (list_to_set f)) by set_solver.
  assert (Hcb : (if bool_decide (len f < min_pages) && truthy_list rs
                 then PInt <$> backfill min_pages rs f (list_to_set f)
                 else PInt <$> f) = PInt <$> cb).
  { subst cb. by destruct (_ && _). }
  rewrite Hcb, len_fmap. clear Hcb. clearbody cb.
  destruct (bool_decide (len cb > max_pages)); [by rewrite py_slice_to_fmap|done].
Qed.

Lemma validate_none rs min_pages max_pages :
  AnyPages._validate_page_references PNone rs min_pages max_pages
  = Ok (PInt <$> _validate_page_references None rs min_pages max_pages).
Proof.
  exact (validate_ints [] rs min_pages max_pages).
Qed.

Lemma any_backfill_prefix min_pages rs v e :
  v `prefix_of` AnyPages.backfill min_pages rs v e.
Proof.
  revert v e. induction rs as [|r rs IH]; intros v e; cbn [AnyPages.backfill]; [done|].
  destruct (negb _); [|apply IH].
  case_bool_decide; [by apply prefix_app_r|].
  etrans; [|apply IH]. by apply prefix_app_r.
Qed.

Lemma any_backfill_backed pages min_pages rs v e :
  (∀ p, p ∈ retrieved_pages rs → p ∈ pages) →
  Forall (backed pages) v → Forall (backed pages) (AnyPages.backfill min_pages rs v e).
Proof.
  revert v e. induction rs as [|r rs IH]; intros v e Hrs Hv; cbn [AnyPages.backfill];
    [done|].
  assert (Hrest : ∀ p, p ∈ retrieved_pages rs → p ∈ pages).
  { intros p Hp. apply Hrs, elem_of_cons. by right. }
  assert (Hnew : Forall (backed pages) (v ++ [PInt (page r)])).
  { apply Forall_app. split; [done|]. constructor; [|constructor].
    split; [done|]. exists (page r). split; [|apply Z.eqb_refl].
    apply Hrs, elem_of_cons. by left. }
  destruct (negb _); [|by apply IH].
  case_bool_decide; [done|by apply IH].
Qed.

Lemma any_backfill_nonempty min_pages r rs v :
  0 < len (AnyPages.backfill min_pages (r :: rs) v v).
Proof.
  cbn [AnyPages.backfill].
  destruct (AnyPages.counted v (page r)) eqn:Hc; cbn [negb].
  - pose proof (prefix_length _ _ (any_backfill_prefix min_pages rs v v)) as Hle.
    destruct v; [done|]. unfold len in *. simpl in *. lia.
  - assert (Hone : 0 < len (v ++ [PInt (page r)]))
      by (unfold len; rewrite length_app; simpl; lia).
    case_bool_decide; [done|].
    pose proof (prefix_length _ _ (any_backfill_prefix min_pages rs
                  (v ++ [PInt (page r)]) (v ++ [PInt (page r)]))) as Hle.
    unfold len in *. lia.
Qed.

Lemma validate_any_spec claimed rs min_pages max_pages out :
  AnyPages._validate_page_references claimed rs min_pages max_pages = Ok out →
  Forall (backed (retrieved_pages rs)) out ∧
  (0 ≤ max_pages → len out ≤ max_pages) ∧
  (rs ≠ [] → 0 < min_pages → 0 < max_pages → 0 < len out).
Proof.
  unfold AnyPages._validate_page_references.
  destruct (match claimed with PNone => Ok [] | v => py_iter v end) as [items|e];
    [|done].
  cbn [mbind res_bind].
  set (f := filter (λ v, AnyPages.page_in (retrieved_pages rs) v = true) items).
  destruct (if bool_decide (len f < len items) then _ else _) as [u|e]; [|done].
  cbn [mbind res_bind].
  set (cb := if bool_decide (len f < min_pages) && truthy_list rs
             then AnyPages.backfill min_pages rs f f else f).
  intros [= <-].
  assert (Hf : Forall (backed (retrieved_pages rs)) f).
  { apply Forall_forall. intros v [Hv _]%list_elem_of_filter. by apply page_in_backed. }
  assert (Hcb : Forall (backed (retrieved_pages rs)) cb).
  { subst cb. destruct (_ && _); [|done]. by apply any_backfill_backed. }
  assert (Hne : rs ≠ [] → 0 < min_pages → 0 < len cb).
  { intros Hrs Hmin. subst cb. case_bool_decide as Hshort; cbn [andb].
    - destruct rs as [|r rs]; [done|]. apply any_backfill_nonempty.
    - lia. }
  clearbody cb. split; [|split].
  - destruct (bool_decide (len cb > max_pages)); [|done].
    apply Forall_forall. intros v Hv. rewrite Forall_forall in Hcb. apply Hcb.
    eapply elem_of_prefix; [done|apply py_slice_to_prefix].
  - intros Hmax. case_bool_decide; [|lia]. rewrite py_slice_to_len; lia.
  - intros Hrs Hmin Hmax. case_bool_decide; [|by apply Hne].
    rewrite py_slice_to_len; lia.
Qed.

End AnyPagesFacts.

Module AnyPagesExtras.

(** X30: the validator as [get_answer_for_company] calls it, on whatever
    value the answer holds under relevant_pages.  On [None] and on a list of
    integers it returns what [_validate_page_references] returns on the
    typed pages.  On any value, if it returns, every page it returns is a
    number equal to a retrieved page, and with a bound that is not negative
    there are at most that many pages.  A float equal to a retrieved page is
    kept as it is and a string is dropped; a value that cannot be iterated,
    and a claimed page that cannot be hashed when a page was dropped, raise
    a TypeError. *)
Theorem validator_on_answer_values (rs : list passage) (min_pages max_pages : Z) :
  (∀ claimed : option (list Z),
     AnyPages._validate_page_references
       (match claimed with Some l => PList (PInt <$> l) | None => PNone end)
       rs min_pages max_pages
     = Ok (PInt <$> Validator._validate_page_references claimed rs min_pages max_pages)) ∧
  (∀ claimed out,
     AnyPages._validate_page_references claimed rs min_pages max_pages = Ok out →
     Forall (backed (Validator.retrieved_pages rs)) out ∧
     (0 ≤ max_pages → len out ≤ max_pages)) ∧
  AnyPages._validate_page_references (PList [PFloat 3; PStr "7"]) Demo.passages 2 8
  = Ok [PFloat 3; PInt 5] ∧
  AnyPages._validate_page_references (PInt 3) Demo.passages 2 8
  = Raises (TypeError "'int' object is not iterable") ∧
  AnyPages._validate_page_references (PList [PList []]) Demo.passages 2 8
  = Raises (TypeError "unhashable type: 'list'").
Proof.
  split_and!; [| |reflexivity..].
  - intros [cl|]; [apply AnyPagesFacts.validate_ints|apply AnyPagesFacts.validate_none].
  - intros claimed out Hout.
    destruct (AnyPagesFacts.validate_any_spec claimed rs min_pages max_pages out Hout)
      as (Hb & Hmax & _).
    done.
Qed.

End AnyPagesExtras.

(** * More on the statistics, the export and the handles *)

Module ExportMore.
Import ExportFacts HandleFacts.

Lemma count_if_cons {A} (test : A → bool) (x : A) (l : list A) :
  count_if test (x :: l) = (if test x then 1 else 0) + count_if test l.
Proof.
  unfold count_if, len. rewrite filter_cons. case_decide as Hx.
  - rewrite Hx. simpl length. lia.
  - destruct (test x); [done|]. lia.
Qed.

Lemma count_if_app {A} (test : A → bool) (l1 l2 : list A) :
  count_if test (l1 ++ l2) = count_if test l1 + count_if test l2.
Proof.
  unfold count_if, len. rewrite filter_app, length_app. lia.
Qed.

Lemma count_if_bounds {A} (test : A → bool) (l : list A) :
  0 ≤ count_if test l ≤ len l.
Proof.
  unfold count_if, len. pose proof (length_filter (λ q, test q = true) l). lia.
Qed.

Lemma count_if_split {A} (t1 t2 : A → bool) (l : list A) :
  len l - count_if t1 l - count_if t2 l
  = count_if (λ q, negb (t1 q) && negb (t2 q)) l - count_if (λ q, t1 q && t2 q) l.
Proof.
  induction l as [|x l IH]; [done|].
  rewrite !count_if_cons. unfold len in *. simpl length.
  destruct (t1 x), (t2 x); simpl; lia.
Qed.

Lemma count_if_none {A} (test : A → bool) (l : list A) :
  (∀ q, q ∈ l → test q = false) → count_if test l = 0.
Proof.
  induction l as [|x l IH]; intros Hl; [done|].
  rewrite count_if_cons, Hl by (apply elem_of_cons; by left).
  rewrite IH; [done|]. intros q Hq. apply Hl, elem_of_cons. by right.
Qed.


Lemma res_map_length {A B} (f : A → res B) (l : list A) (out : list B) :
  res_map f l = Ok out → length out = length l.
Proof. intros Hm%res_map_Forall2. symmetry. by eapply Forall2_length. Qed.

Lemma res_map_first_failure {A B} (f : A → res B) (l1 : list A) (x : A)
    (l2 : list A) (e : exn) :
  Forall (λ y, ∃ b, f y = Ok b) l1 → f x = Raises e →
  res_map f (l1 ++ x :: l2) = Raises e.
Proof.
  intros Hl1 Hx. induction Hl1 as [|y l1 [b Hy] _ IH]; simpl.
  - by rewrite Hx.
  - by rewrite Hy, IH.
Qed.

Lemma submission_answer_shape (answer_details : ledger) (q a : dict) :
  submission_answer answer_details q = Ok a → answer_shape answer_details q a.
Proof.
  unfold submission_answer.
  destruct (narrative answer_details q) as [analysis|e] eqn:Hn; [|done].
  cbn -[py_get py_or dict_set].
  match goal with
  | |- context [mbind _ ?m] => destruct m as [refs|e]; [|done]
  end.
  cbn -[py_get py_or dict_set]. intros [= <-].
  destruct (truthy analysis) eqn:Ht; repeat split; try done;
    exists analysis; by rewrite Ht.
Qed.


Lemma to_int_proper (z : Z) :
  Z.to_int z ≠ Decimal.Pos Decimal.Nil ∧ Z.to_int z ≠ Decimal.Neg Decimal.Nil.
Proof.
  destruct z as [|p|p]; simpl; split; try done;
    intros [= Hp]; by apply Unsigned.to_uint_nonnil in Hp.
Qed.

Lemma py_str_int_inj (a b : Z) : py_str_int a = py_str_int b → a = b.
Proof.
  unfold py_str_int. intros Heq. apply DecimalZ.to_int_inj.
  destruct (to_int_proper a) as [Ha1 Ha2], (to_int_proper b) as [Hb1 Hb2].
  pose proof (NilZero.isi _ Ha1 Ha2) as Ha. pose proof (NilZero.isi _ Hb1 Hb2) as Hb.
  rewrite Heq in Ha. congruence.
Qed.

End ExportMore.

Module ExportExtras.
Import ExportFacts HandleFacts ExportMore.

(** X4: in the statistics of a result list, [error_count] and [na_count]
    lie between 0 and [total_questions], and [success_count] is the number
    of results that are neither an error nor "N/A" minus the number of those
    that are both.  When no result is both, [success_count] is the number of
    results that are neither, and lies between 0 and [total_questions]. *)
Theorem statistics_counts_meaning (processed_questions : list dict) :
  let is_error := dict_mem "error" in
  let is_na := λ q, py_eq_str (answer_value q) "N/A" in
  ∃ st, _calculate_statistics processed_questions false = Ok st ∧
        0 ≤ error_count st ≤ total_questions st ∧
        0 ≤ na_count st ≤ total_questions st ∧
        success_count st
        = count_if (λ q, negb (is_error q) && negb (is_na q)) processed_questions
          - count_if (λ q, is_error q && is_na q) processed_questions ∧
        ((∀ q, q ∈ processed_questions → is_error q && is_na q = false) →
         success_count st
         = count_if (λ q, negb (is_error q) && negb (is_na q)) processed_questions ∧
         0 ≤ success_count st ≤ total_questions st).
Proof.
  intros is_error is_na. eexists. split; [reflexivity|]. cbn.
  split; [apply count_if_bounds|]. split; [apply count_if_bounds|].
  split; [apply (count_if_split is_error is_na)|].
  intros Hnone. rewrite (count_if_split is_error is_na).
  rewrite (count_if_none (λ q, is_error q && is_na q)) by done.
  split; [lia|].
  pose proof (count_if_bounds (λ q, negb (is_error q) && negb (is_na q))
                processed_questions). lia.
Qed.

(** X5: the statistics of two result lists put together are the sums of
    their statistics, count by count: the statistics saved after a batch
    extend those saved before it. *)
Theorem statistics_of_concatenation (l1 l2 : list dict) :
  ∃ s1 s2 s,
    _calculate_statistics l1 false = Ok s1 ∧
    _calculate_statistics l2 false = Ok s2 ∧
    _calculate_statistics (l1 ++ l2) false = Ok s ∧
    total_questions s = total_questions s1 + total_questions s2 ∧
    error_count s = error_count s1 + error_count s2 ∧
    na_count s = na_count s1 + na_count s2 ∧
    success_count s = success_count s1 + success_count s2.
Proof.
  do 3 eexists. do 3 (split; [reflexivity|]). cbn.
  rewrite !count_if_app. unfold len. rewrite length_app. lia.
Qed.

(** X6: when the submission export returns, it returns one answer per
    result, in order; each answer has the keys question_text, kind, value
    and references in this order, its text and kind read from the result
    under the names of either pipeline, and the key reasoning_process, last,
    exactly when the handle of the result leads to a truthy analysis, which
    is then its value. *)
Theorem submission_answers_shape (answer_details : ledger)
    (processed_questions out : list dict) :
  _post_process_submission_answers answer_details processed_questions = Ok out →
  length out = length processed_questions ∧
  Forall2 (answer_shape answer_details) processed_questions out.
Proof.
  intros Hout. split; [by eapply res_map_length|].
  apply res_map_Forall2 in Hout.
  eapply Forall2_impl; [done|]. intros q a. apply submission_answer_shape.
Qed.

Lemma submission_answers_shape_witness :
  length export_example_out = length export_example ∧
  Forall2 (answer_shape [None; None; None]) export_example export_example_out.
Proof.
  apply (submission_answers_shape [None; None; None] export_example export_example_out).
  reflexivity.
Defined.

(** X7: the export is all or nothing.  If the results before [q] are well
    formed and the export of [q] raises [e], for instance a [KeyError]
    because a reference lacks its page index, the export of the whole list
    raises [e], whatever follows [q]. *)
Theorem submission_export_first_failure (answer_details : ledger)
    (before : list dict) (q : dict) (after : list dict) (e : exn) :
  Forall well_formed_result before →
  submission_answer answer_details q = Raises e →
  _post_process_submission_answers answer_details (before ++ q :: after) = Raises e.
Proof.
  intros Hbefore Hq. apply res_map_first_failure; [|done].
  eapply Forall_impl; [done|]. intros x. apply submission_answer_returns.
Qed.

Lemma submission_export_first_failure_witness :
  _post_process_submission_answers [None; None; None; None]
    (take 1 export_example ++ result_without_page_index :: drop 1 export_example)
  = Raises (KeyError "page_index").
Proof.
  apply (submission_export_first_failure [None; None; None; None]
           (take 1 export_example) result_without_page_index (drop 1 export_example)).
  - constructor; [|constructor]. split.
    + by exists [("$ref", PStr "#/answer_details/0")], "#/answer_details/0"%string.
    + right. right. by exists [(PStr "sha", 1); (PStr "sha", 12)].
  - reflexivity.
Defined.

(** X8: the handle of a detail record names one index only: two indices
    have the same handle exactly when they are equal. *)
Theorem detail_handle_names_one_index (i j : Z) :
  detail_handle i = detail_handle j ↔ i = j.
Proof.
  split; [|by intros ->].
  unfold detail_handle, detail_prefix. intros Heq. apply py_str_int_inj.
  by injection Heq.
Qed.

End ExportExtras.

(** * What the pipeline leaves alone *)

Section Frame.
Context `{Collaborators}.
Context (R : relation state) `{!PreOrder R}.
Hypothesis R_frame :
  ∀ st st', answer_details st' = answer_details st →
            (is_Some (response_data st) → is_Some (response_data st')) → R st st'.

Lemma frame_call {A} (f : world → res A * world) : harmless R (call f).
Proof.
  intros st. apply wp_atomic. intros st1 _.
  destruct (f (environment st1)) as [r w]. split; [by apply R_frame|done].
Qed.

Lemma frame_read {A} (f : state → A) : harmless R (Atom (λ st, (f st, st)) Ret).
Proof. intros st st1 _. cbn. split; [reflexivity|done]. Qed.

Lemma frame_the_companies : harmless R the_companies.
Proof.
  intros st. apply wp_atomic. intros st1 _. cbn. split; [reflexivity|done].
Qed.

Lemma frame_load_companies path : harmless R (load_companies path).
Proof.
  apply harmless_bind; [apply frame_call|]. intros table st st1 _. cbn.
  split; [by apply R_frame|done].
Qed.

Lemma frame_copy_response_data : harmless R copy_response_data.
Proof.
  apply harmless_bind; [apply frame_call|]. intros data st st1 _. cbn.
  split; [by apply R_frame|done].
Qed.

Ltac frame_step :=
  first
    [ apply harmless_ret | apply harmless_raise | apply harmless_lift
    | apply frame_call | apply frame_read | apply frame_copy_response_data
    | apply frame_the_companies | apply frame_load_companies
    | apply harmless_bind; [|intros ?]
    | match goal with
      | |- harmless _ (if ?b then _ else _) => destruct b
      | |- harmless _ (match ?x with _ => _ end) => destruct x
      end ].

Lemma frame_extract_references cfg pages company :
  harmless R (_extract_references cfg pages company).
Proof. unfold _extract_references. repeat frame_step. Qed.

Lemma frame_get_answer_for_company cfg company question schema :
  harmless R (get_answer_for_company cfg company question schema).
Proof.
  unfold get_answer_for_company.
  repeat first [apply frame_extract_references | frame_step].
Qed.

Lemma frame_process_company_question cfg rephrased company :
  harmless R (process_company_question cfg rephrased company).
Proof.
  unfold process_company_question.
  repeat first [apply frame_get_answer_for_company | frame_step].
Qed.

Lemma frame_process_comparative_question cfg sched question companies schema :
  harmless R (process_comparative_question cfg sched question companies schema).
Proof.
  unfold process_comparative_question.
  apply harmless_bind; [apply frame_call|]. intros rephrased.
  apply harmless_bind.
  { apply (harmless_run_pool R _). intros t (company & -> & _)%list_elem_of_fmap.
    apply frame_process_company_question. }
  intros [outcomes completed]. repeat frame_step.
Qed.

Lemma frame_extract_companies cfg question :
  harmless R (extract_companies cfg question).
Proof.
  unfold extract_companies, _extract_companies_from_subset. repeat frame_step.
Qed.

Lemma frame_process_question cfg sched question schema :
  harmless R (process_question cfg sched question schema).
Proof.
  unfold process_question.
  apply harmless_bind; [apply frame_extract_companies|].
  intros [|c [|c' l]];
    [apply harmless_raise|apply frame_get_answer_for_company
    |apply frame_process_comparative_question].
Qed.

Lemma frame_save_progress processed path submission_file team_email
    submission_name pipeline_details :
  harmless R (_save_progress processed path submission_file team_email
                submission_name pipeline_details).
Proof. unfold _save_progress. repeat frame_step. Qed.

(** What a program within [R] does between two states when run alone. *)
Lemma frame_run {A} (p : prog A) st : harmless R p → R st (run p st).2.
Proof. intros Hp. by apply (wp_run R p (λ _ _, True)). Qed.

End Frame.

(** * The response data is there when an answer is *)

Section Response.
Context `{Collaborators}.

#[global] Instance same_ledger_preorder : PreOrder same_ledger.
Proof.
  split; [intros st; by unfold same_ledger|].
  intros st1 st2 st3 H12 H23. unfold same_ledger in *. congruence.
Qed.

#[global] Instance keeps_response_preorder : PreOrder keeps_response.
Proof.
  split; [intros st; by unfold keeps_response|].
  intros st1 st2 st3 H12 H23 Hs. auto.
Qed.

#[global] Instance keeps_slot_preorder j : PreOrder (keeps_slot j).
Proof.
  split; [intros st; by unfold keeps_slot|].
  intros st1 st2 st3 [H12 H12'] [H23 H23']. split; congruence.
Qed.

Lemma same_ledger_frame st st' :
  answer_details st' = answer_details st →
  (is_Some (response_data st) → is_Some (response_data st')) → same_ledger st st'.
Proof. by intros Hl _. Qed.

Lemma keeps_response_frame st st' :
  answer_details st' = answer_details st →
  (is_Some (response_data st) → is_Some (response_data st')) → keeps_response st st'.
Proof. by intros _ Hr. Qed.

Lemma keeps_slot_frame j st st' :
  answer_details st' = answer_details st →
  (is_Some (response_data st) → is_Some (response_data st')) → keeps_slot j st st'.
Proof. intros Hl _. unfold keeps_slot. by rewrite Hl. Qed.

Lemma wp_copy_response_data st :
  wp keeps_response copy_response_data assigned st.
Proof.
  unfold copy_response_data. apply wp_bind, wp_atomic. intros st1 _.
  cbn. split; [by unfold keeps_response|].
  destruct (processor_response_data (environment st1)) as [data|e]; [|done].
  cbn. intros st2 _. cbn. split; [by intros _|done].
Qed.

Lemma wp_keeps {A} (p : prog A) st :
  harmless keeps_response p → is_Some (response_data st) →
  wp keeps_response p assigned st.
Proof.
  intros Hp Hs. eapply wp_mono; [|apply (wp_rely keeps_response), (Hp st)].
  intros [a|e] st' [_ HR]; [by apply HR|done].
Qed.

Lemma wp_after {A B} (p : prog A) (k : A → prog B) (Q : res B → state → Prop) st :
  harmless keeps_response p →
  (∀ e st', Q (Raises e) st') → (∀ a st', wp keeps_response (k a) Q st') →
  wp keeps_response (p ≫= k) Q st.
Proof.
  intros Hp He Hk. apply wp_bind. eapply wp_mono; [|apply (Hp st)].
  intros [a|e] st' _; [apply Hk|apply He].
Qed.

Lemma wp_response_get_answer_for_company cfg company question schema st :
  wp keeps_response (get_answer_for_company cfg company question schema) assigned st.
Proof.
  unfold get_answer_for_company.
  apply wp_after; [destruct (full_context cfg); apply (frame_call keeps_response keeps_response_frame)|done|].
  intros rs st1. destruct (negb (truthy_list rs)); [done|].
  apply wp_after; [apply (frame_call keeps_response keeps_response_frame)|done|].
  intros answer_dict st2. apply wp_bind.
  eapply wp_mono; [|apply wp_copy_response_data].
  intros [[]|e] st3 Hs; [|done]. apply wp_keeps; [|done].
  destruct (new_challenge_pipeline cfg); [|apply harmless_ret].
  repeat first [ apply harmless_lift | apply harmless_bind; [|intros ?]
               | apply (frame_extract_references keeps_response keeps_response_frame) ].
Qed.

Lemma wp_response_process_comparative_question cfg sched question companies schema st :
  wp keeps_response (process_comparative_question cfg sched question companies schema)
    assigned st.
Proof.
  unfold process_comparative_question.
  apply wp_after; [apply (frame_call keeps_response keeps_response_frame)|done|].
  intros rephrased st1. apply wp_after; [|done|].
  { apply (harmless_run_pool keeps_response _).
    intros t (company & -> & _)%list_elem_of_fmap.
    apply (frame_process_company_question keeps_response keeps_response_frame). }
  intros [outcomes completed] st2.
  apply wp_after; [apply harmless_lift|done|]. intros [ia ar] st3.
  apply wp_after; [apply harmless_lift|done|]. intros refs st4.
  apply wp_after; [apply (frame_call keeps_response keeps_response_frame)|done|].
  intros answer st5. apply wp_bind.
  eapply wp_mono; [|apply wp_copy_response_data].
  intros [[]|e] st6 Hs; [|done]. by destruct (py_setitem _ _ _).
Qed.

Lemma wp_response_process_question cfg sched question schema st :
  wp keeps_response (process_question cfg sched question schema) assigned st.
Proof.
  unfold process_question.
  apply wp_after; [apply (frame_extract_companies keeps_response keeps_response_frame)|done|].
  intros [|c [|c' l]] st1;
    [done|apply wp_response_get_answer_for_company
    |apply wp_response_process_comparative_question].
Qed.

Lemma run_process_question_assigned cfg sched question schema st a st1 :
  run (process_question cfg sched question schema) st = (Ok a, st1) →
  is_Some (response_data st1).
Proof.
  intros Hrun.
  pose proof (wp_run keeps_response _ _ _ (wp_response_process_question cfg sched question schema st)) as [Hq _].
  by rewrite Hrun in Hq.
Qed.

Lemma run_process_question_ledger cfg sched question schema st :
  answer_details (run (process_question cfg sched question schema) st).2
  = answer_details st.
Proof.
  apply (frame_run same_ledger).
  apply (frame_process_question same_ledger same_ledger_frame).
Qed.

End Response.

(** * A question processed alone, path by path *)

Section SingleMore.
Context `{Collaborators}.

Lemma run_atomic {A} (f : state → res A * state) st :
  run (atomic f) st = f st.
Proof. unfold atomic. cbn. destruct (f st) as [r st']. apply run_lift. Qed.

Lemma run_store_detail detail i st :
  run (store_detail detail i) st
  = match (d ← detail st; ledger_set (answer_details st) i d) with
    | Ok l => (Ok (), set_answer_details st l)
    | Raises e => (Raises e, st)
    end.
Proof. unfold store_detail. by rewrite run_atomic. Qed.

Lemma ledger_set_outside (l : ledger) (i : Z) (d : dict) :
  ¬ (- len l ≤ i < len l) →
  ledger_set l i d = Raises (IndexError "list assignment index out of range").
Proof.
  intros Hi. unfold ledger_set.
  rewrite !bool_decide_eq_false_2; [done|unfold len in *; lia..].
Qed.

Lemma run_create_outside answer_dict i st :
  ¬ (- len (answer_details st) ≤ i < len (answer_details st)) →
  ∃ e, run (_create_answer_detail_ref answer_dict i) st = (Raises e, st).
Proof.
  intros Hi. unfold _create_answer_detail_ref. rewrite run_bind, run_store_detail.
  destruct (answer_detail st answer_dict (detail_handle i)) as [d|e]; cbn.
  - rewrite ledger_set_outside by done. eauto.
  - eauto.
Qed.

Lemma run_handle_outside cfg question_text schema err i st :
  ¬ (- len (answer_details st) ≤ i < len (answer_details st)) →
  run (_handle_processing_error cfg question_text schema err i) st
  = (Raises (IndexError "list assignment index out of range"), st).
Proof.
  intros Hi. unfold _handle_processing_error. rewrite run_bind, run_store_detail.
  cbn. by rewrite ledger_set_outside.
Qed.

Lemma run_create_in_range d (i : nat) st a1 a2 a3 rd :
  (i < length (answer_details st))%nat →
  dict_get d "step_by_step_analysis" = Some a1 →
  dict_get d "reasoning_summary" = Some a2 →
  dict_get d "relevant_pages" = Some a3 →
  response_data st = Some rd →
  run (_create_answer_detail_ref (PDict d) (Z.of_nat i)) st
  = (Ok (detail_handle (Z.of_nat i)),
     set_answer_details st
       (<[i := Some (stored_detail a1 a2 a3 rd i)]> (answer_details st))).
Proof.
  intros Hi H1 H2 H3 Hrd. unfold _create_answer_detail_ref.
  rewrite run_bind, run_store_detail. unfold answer_detail, py_getitem, dict_item.
  rewrite H1, H2, H3, Hrd. cbn. by rewrite ledger_set_in_range.
Qed.

Lemma run_create_missing d i st k :
  first_missing d = Some k →
  run (_create_answer_detail_ref (PDict d) i) st = (Raises (KeyError k), st).
Proof.
  intros Hk. unfold _create_answer_detail_ref.
  rewrite run_bind, run_store_detail. unfold answer_detail, py_getitem, dict_item.
  unfold first_missing, dict_mem in Hk. simpl in Hk.
  destruct (dict_get d "step_by_step_analysis"); simpl in Hk;
    [|by injection Hk as <-].
  destruct (dict_get d "reasoning_summary"); simpl in Hk;
    [|by injection Hk as <-].
  destruct (dict_get d "relevant_pages"); simpl in Hk; [done|by injection Hk as <-].
Qed.

End SingleMore.

(** * A worker and the slots of the others *)

Section Slots.
Context `{Collaborators}.

Lemma harmless_try_except (R : relation state) {A} (p : prog A) (h : exn → prog A) :
  harmless R p → (∀ e, harmless R (h e)) → harmless R (try_except p h).
Proof.
  intros Hp Hh st. apply wp_try_except.
  eapply wp_mono; [|apply (Hp st)]. intros [a|e] st' _; [done|apply Hh].
Qed.

Lemma slot_store_detail detail (i j : nat) :
  i ≠ j → harmless (keeps_slot j) (store_detail detail (Z.of_nat i)).
Proof.
  intros Hij st. apply wp_atomic. intros st1 _.
  destruct (detail st1) as [d|e]; cbn; [|split; [by unfold keeps_slot|done]].
  unfold ledger_set. case_bool_decide as Hin.
  - cbn. split; [|done]. unfold keeps_slot. cbn.
    rewrite length_insert, Nat2Z.id. split; [done|].
    by apply list_lookup_insert_ne.
  - rewrite bool_decide_eq_false_2 by lia. split; [by unfold keeps_slot|done].
Qed.

Lemma slot_process_single_question cfg sched q (i j : nat) :
  question_index_of q = Z.of_nat i → i ≠ j →
  harmless (keeps_slot j) (_process_single_question cfg sched q).
Proof.
  intros Hq Hij. unfold _process_single_question.
  assert (Hstore : ∀ detail, harmless (keeps_slot j) (store_detail detail (Z.of_nat i)))
    by (intros detail; by apply slot_store_detail).
  apply harmless_try_except.
  - unfold try_body, _create_answer_detail_ref. rewrite Hq.
    apply harmless_bind;
      [apply (frame_process_question (keeps_slot j) (keeps_slot_frame j))|].
    intros a.
    repeat first
      [ apply harmless_ret | apply harmless_lift | apply Hstore
      | apply harmless_bind; [|intros ?]
      | match goal with
        | |- harmless _ (if ?b then _ else _) => destruct b
        end ].
  - intros e. unfold _handle_processing_error. rewrite Hq.
    apply harmless_bind; [apply Hstore|]. intros _. apply harmless_ret.
Qed.

End Slots.

Module SingleExtras.

(** X9: when [process_question] returns an answer, the attribute
    [response_data] is assigned: in every interleaving with threads that
    never unassign it, and in particular when it runs alone.  So the read of
    [self.response_data] in [_create_answer_detail_ref] finds the attribute. *)
Theorem response_data_assigned `{Collaborators} (cfg : config) (sched : list nat)
    (question schema : pyval) (st : state) :
  wp keeps_response (process_question cfg sched question schema) assigned st ∧
  (∀ a st', run (process_question cfg sched question schema) st = (Ok a, st') →
            is_Some (response_data st')).
Proof.
  split; [apply wp_response_process_question|].
  intros a st'. apply run_process_question_assigned.
Qed.

(** X10: [_process_single_question] called for an index outside the ledger
    raises [IndexError] and leaves the ledger as it was, whatever the
    pipeline did: the write of the error handler is itself unprotected.  A
    processor that has run nothing has an empty ledger, so there every call
    raises. *)
Theorem single_question_outside_ledger `{Collaborators} (cfg : config)
    (sched : list nat) (q : question_data) (st : state) :
  ¬ (- len (answer_details st) ≤ question_index_of q < len (answer_details st)) →
  ∃ st', run (_process_single_question cfg sched q) st
         = (Raises (IndexError "list assignment index out of range"), st') ∧
         answer_details st' = answer_details st.
Proof.
  intros Hi. unfold _process_single_question, try_body.
  rewrite run_try_except, run_bind.
  pose proof (run_process_question_ledger cfg sched (question_text_of cfg q)
                (schema_of cfg q) st) as Hl.
  destruct (run (process_question _ _ _ _) st) as [[a|e] st1]. simpl in Hl.
  2:{ simpl in Hl. rewrite run_handle_outside by (by rewrite Hl). eauto. }
  rewrite <- Hl in Hi.
  rewrite run_bind, run_lift.
  destruct (py_contains_str "error" a) as [[|]|e].
  - rewrite run_bind.
    destruct (run_create_outside
                (PDict [("step_by_step_analysis", PNone); ("reasoning_summary", PNone);
                        ("relevant_pages", PNone)]) _ st1 Hi) as [e ->].
    rewrite run_handle_outside by done. eauto.
  - rewrite run_bind.
    destruct (run_create_outside a _ st1 Hi) as [e ->].
    rewrite run_handle_outside by done. eauto.
  - rewrite run_handle_outside by done. eauto.
Qed.

Lemma single_question_outside_ledger_witness :
  ∃ st', run (_process_single_question (H := Demo.collaborators) Demo.legacy []
                Fixed.misplaced) Demo.fresh
         = (Raises (IndexError "list assignment index out of range"), st') ∧
         answer_details st' = answer_details Demo.fresh.
Proof.
  apply (single_question_outside_ledger (H := Demo.collaborators) Demo.legacy []
           Fixed.misplaced Demo.fresh).
  vm_compute. intros [_ Hlt]. discriminate Hlt.
Defined.

(** X11: an answer of the pipeline that is a dictionary with the key error
    becomes an error result with that error as it is, not prefixed by a
    class name, and with no value; slot [i] of the ledger takes a detail
    record whose three reasoning fields are [None]. *)
Theorem answer_with_error_key `{Collaborators} (cfg : config) (sched : list nat)
    (q : question_data) (i : nat) (st st1 : state) (d : dict) (err : pyval) :
  question_index_of q = Z.of_nat i →
  (i < length (answer_details st))%nat →
  run (process_question cfg sched (question_text_of cfg q) (schema_of cfg q)) st
  = (Ok (PDict d), st1) →
  dict_get d "error" = Some err →
  ∃ rd, response_data st1 = Some rd ∧
    run (_process_single_question cfg sched q) st
    = (Ok (if new_challenge_pipeline cfg then
             [("question_text", question_text_of cfg q); ("kind", schema_of cfg q);
              ("value", PNone); ("references", PList []); ("error", err);
              ("answer_details", PDict [("$ref", PStr (detail_handle (Z.of_nat i)))])]
           else
             [("question", question_text_of cfg q); ("schema", schema_of cfg q);
              ("answer", PNone); ("error", err);
              ("answer_details", PDict [("$ref", PStr (detail_handle (Z.of_nat i)))])]),
       set_answer_details st1
         (<[i := Some (stored_detail PNone PNone PNone rd i)]> (answer_details st1))).
Proof.
  intros Hq Hi Hrun Herr.
  destruct (run_process_question_assigned _ _ _ _ _ _ _ Hrun) as [rd Hrd].
  exists rd. split; [done|].
  pose proof (run_process_question_ledger cfg sched (question_text_of cfg q)
                (schema_of cfg q) st) as Hl.
  rewrite Hrun in Hl. simpl in Hl.
  unfold _process_single_question, try_body.
  rewrite run_try_except, run_bind, Hrun, run_bind, run_lift.
  cbn [py_contains_str]. unfold dict_mem. rewrite Herr.
  rewrite run_bind, Hq.
  rewrite (run_create_in_range _ i st1 PNone PNone PNone rd) by (done || by rewrite Hl).
  rewrite run_bind, run_lift. cbn [py_getitem]. unfold dict_item. rewrite Herr.
  by destruct (new_challenge_pipeline cfg).
Qed.

Lemma answer_with_error_key_witness :
  ∃ rd, response_data (Fixed.answered (PDict Fixed.refusal)) = Some rd ∧
    run (_process_single_question (H := Fixed.answering (PDict Fixed.refusal))
           Demo.legacy [] Fixed.named) (Fixed.fresh (PDict Fixed.refusal))
    = (Ok [("question", question_text_of Demo.legacy Fixed.named);
           ("schema", schema_of Demo.legacy Fixed.named);
           ("answer", PNone); ("error", PStr "The request was refused.");
           ("answer_details", PDict [("$ref", PStr (detail_handle 0))])],
       set_answer_details (Fixed.answered (PDict Fixed.refusal))
         [Some (stored_detail PNone PNone PNone rd 0)]).
Proof.
  apply (answer_with_error_key (H := Fixed.answering (PDict Fixed.refusal)) Demo.legacy
           [] Fixed.named 0 (Fixed.fresh (PDict Fixed.refusal))
           (Fixed.answered (PDict Fixed.refusal)) Fixed.refusal
           (PStr "The request was refused."));
    [reflexivity|simpl; lia|reflexivity|reflexivity].
Defined.

(** X12: an answer of the pipeline that is a dictionary without the key
    error and with the three reasoning fields becomes a result whose value
    is the answer's final_answer, [None] if there is none, and, in the
    challenge pipeline, whose references are the answer's; slot [i] of the
    ledger takes the three reasoning fields, the response data and the
    handle of [i], and nothing else of the ledger changes. *)
Theorem answer_becomes_result `{Collaborators} (cfg : config) (sched : list nat)
    (q : question_data) (i : nat) (st st1 : state) (d : dict) (a1 a2 a3 : pyval) :
  question_index_of q = Z.of_nat i →
  (i < length (answer_details st))%nat →
  run (process_question cfg sched (question_text_of cfg q) (schema_of cfg q)) st
  = (Ok (PDict d), st1) →
  dict_get d "error" = None →
  dict_get d "step_by_step_analysis" = Some a1 →
  dict_get d "reasoning_summary" = Some a2 →
  dict_get d "relevant_pages" = Some a3 →
  ∃ rd, response_data st1 = Some rd ∧
    run (_process_single_question cfg sched q) st
    = (Ok (if new_challenge_pipeline cfg then
             [("question_text", question_text_of cfg q); ("kind", schema_of cfg q);
              ("value", py_get d "final_answer");
              ("references", py_get_default d "references" (PList []));
              ("answer_details", PDict [("$ref", PStr (detail_handle (Z.of_nat i)))])]
           else
             [("question", question_text_of cfg q); ("schema", schema_of cfg q);
              ("answer", py_get d "final_answer");
              ("answer_details", PDict [("$ref", PStr (detail_handle (Z.of_nat i)))])]),
       set_answer_details st1
         (<[i := Some (stored_detail a1 a2 a3 rd i)]> (answer_details st1))).
Proof.
  intros Hq Hi Hrun Herr H1 H2 H3.
  destruct (run_process_question_assigned _ _ _ _ _ _ _ Hrun) as [rd Hrd].
  exists rd. split; [done|].
  pose proof (run_process_question_ledger cfg sched (question_text_of cfg q)
                (schema_of cfg q) st) as Hl.
  rewrite Hrun in Hl. simpl in Hl.
  unfold _process_single_question, try_body.
  rewrite run_try_except, run_bind, Hrun, run_bind, run_lift.
  cbn [py_contains_str]. unfold dict_mem. rewrite Herr.
  rewrite run_bind, Hq.
  rewrite (run_create_in_range _ i st1 a1 a2 a3 rd) by (done || by rewrite Hl).
  rewrite run_bind, run_lift. cbn [py_method_get].
  destruct (new_challenge_pipeline cfg); [|done].
  by rewrite run_bind, run_lift.
Qed.

Lemma answer_becomes_result_witness :
  ∃ rd, response_data (Fixed.answered Demo.answer) = Some rd ∧
    run (_process_single_question (H := Fixed.answering Demo.answer)
           Demo.legacy [] Fixed.named) (Fixed.fresh Demo.answer)
    = (Ok [("question", question_text_of Demo.legacy Fixed.named);
           ("schema", schema_of Demo.legacy Fixed.named);
           ("answer", PInt 42);
           ("answer_details", PDict [("$ref", PStr (detail_handle 0))])],
       set_answer_details (Fixed.answered Demo.answer)
         [Some (stored_detail (PStr "The table on page 3 gives the figure.")
                  (PStr "Read from the segment table.") (PList [PInt 3; PInt 9]) rd 0)]).
Proof.
  apply (answer_becomes_result (H := Fixed.answering Demo.answer) Demo.legacy
           [] Fixed.named 0 (Fixed.fresh Demo.answer) (Fixed.answered Demo.answer)
           [("step_by_step_analysis", PStr "The table on page 3 gives the figure.");
            ("reasoning_summary", PStr "Read from the segment table.");
            ("relevant_pages", PList [PInt 3; PInt 9]);
            ("final_answer", PInt 42)]);
    [reflexivity|simpl; lia|reflexivity..].
Defined.

(** X13: an answer of the pipeline that is a dictionary without the key
    error and without one of the keys step_by_step_analysis,
    reasoning_summary and relevant_pages becomes an error result, whatever
    its final_answer: the error is the [KeyError] of the first key that is
    missing, and slot [i] takes the error detail. *)
Theorem answer_without_reasoning_fields `{Collaborators} (cfg : config)
    (sched : list nat) (q : question_data) (i : nat) (st st1 : state) (d : dict)
    (k : string) :
  question_index_of q = Z.of_nat i →
  (i < length (answer_details st))%nat →
  run (process_question cfg sched (question_text_of cfg q) (schema_of cfg q)) st
  = (Ok (PDict d), st1) →
  dict_get d "error" = None →
  first_missing d = Some k →
  run (_process_single_question cfg sched q) st
  = (Ok (error_result cfg (question_text_of cfg q) (schema_of cfg q) (KeyError k)
           (detail_handle (Z.of_nat i))),
     with_error_detail i (KeyError k) st1) ∧
  py_get (error_result cfg (question_text_of cfg q) (schema_of cfg q) (KeyError k)
            (detail_handle (Z.of_nat i))) "error"
  = PStr ("KeyError: '" ++ k ++ "'").
Proof.
  intros Hq Hi Hrun Herr Hk. split.
  2:{ unfold error_result. by destruct (new_challenge_pipeline cfg). }
  apply (run_process_single_question_raises cfg sched q i Hq); [done|].
  unfold try_body.
  rewrite run_bind, Hrun, run_bind, run_lift.
  cbn [py_contains_str]. unfold dict_mem. rewrite Herr.
  rewrite run_bind. by rewrite (run_create_missing _ _ _ k).
Qed.

Lemma answer_without_reasoning_fields_witness :
  run (_process_single_question (H := Fixed.answering (PDict Fixed.terse))
         Demo.legacy [] Fixed.named) (Fixed.fresh (PDict Fixed.terse))
  = (Ok (error_result Demo.legacy (question_text_of Demo.legacy Fixed.named)
           (schema_of Demo.legacy Fixed.named) (KeyError "reasoning_summary")
           (detail_handle 0)),
     with_error_detail 0 (KeyError "reasoning_summary")
       (Fixed.answered (PDict Fixed.terse))) ∧
  py_get (error_result Demo.legacy (question_text_of Demo.legacy Fixed.named)
            (schema_of Demo.legacy Fixed.named) (KeyError "reasoning_summary")
            (detail_handle 0)) "error"
  = PStr "KeyError: 'reasoning_summary'".
Proof.
  apply (answer_without_reasoning_fields (H := Fixed.answering (PDict Fixed.terse))
           Demo.legacy [] Fixed.named 0 (Fixed.fresh (PDict Fixed.terse))
           (Fixed.answered (PDict Fixed.terse)) Fixed.terse "reasoning_summary");
    [reflexivity|simpl; lia|reflexivity..].
Defined.

(** X14: a worker writes no slot but its own.  For a question at index [i]
    and another slot [j], every action of [_process_single_question] keeps
    the length of the ledger and the content of slot [j], in every
    interleaving with threads that do the same; run alone, it ends with
    slot [j] as it found it. *)
Theorem worker_writes_own_slot `{Collaborators} (cfg : config) (sched : list nat)
    (q : question_data) (i j : nat) :
  question_index_of q = Z.of_nat i → i ≠ j →
  harmless (keeps_slot j) (_process_single_question cfg sched q) ∧
  ∀ st, length (answer_details (run (_process_single_question cfg sched q) st).2)
        = length (answer_details st) ∧
        answer_details (run (_process_single_question cfg sched q) st).2 !! j
        = answer_details st !! j.
Proof.
  intros Hq Hij.
  pose proof (slot_process_single_question cfg sched q i j Hq Hij) as Hslot.
  split; [done|]. intros st. by apply (frame_run (keeps_slot j)).
Qed.

Lemma worker_writes_own_slot_witness :
  harmless (H := Demo.collaborators) (keeps_slot 1)
    (_process_single_question Demo.legacy [] Fixed.named) ∧
  ∀ st, length (answer_details
                  (run (_process_single_question (H := Demo.collaborators) Demo.legacy []
                          Fixed.named) st).2)
        = length (answer_details st) ∧
        answer_details
          (run (_process_single_question (H := Demo.collaborators) Demo.legacy []
                  Fixed.named) st).2 !! 1%nat
        = answer_details st !! 1%nat.
Proof.
  apply (worker_writes_own_slot (H := Demo.collaborators) Demo.legacy [] Fixed.named
           0 1); [reflexivity|lia].
Defined.

End SingleExtras.

(** * Batches, and the names between quotes *)

Section BatchesMore.

Lemma concat_chunks {A} (l : list A) (P m : nat) :
  concat ((λ k, take P (drop (k * P) l)) <$> seq 0 m) = take (m * P) l.
Proof.
  induction m as [|m IH]; [done|].
  rewrite seq_S, fmap_app, concat_app, IH. simpl. rewrite app_nil_r.
  rewrite take_take_drop. f_equal. lia.
Qed.

Lemma py_slice_chunk {A} (l : list A) (p : Z) (k : nat) :
  0 < p →
  py_slice l (Z.of_nat k * p) (Z.of_nat k * p + p)
  = take (Z.to_nat p) (drop (k * Z.to_nat p) l).
Proof.
  intros Hp. unfold py_slice. f_equal; [f_equal; lia|f_equal; nia].
Qed.

Lemma range_count (n p : Z) :
  0 ≤ n → 0 < p →
  let m := (n + p - 1) `div` p in
  0 ≤ m ∧ n ≤ m * p ∧ (m - 1) * p < n.
Proof.
  intros Hn Hp m.
  pose proof (Z.div_mod (n + p - 1) p ltac:(lia)) as Hdm.
  pose proof (Z.mod_pos_bound (n + p - 1) p Hp) as Hmod.
  fold m in Hdm. assert (0 ≤ m) by (apply Z.div_pos; lia). nia.
Qed.

End BatchesMore.

Section Quotes.

Lemma findall_quoted_count s inside :
  length (findall_quoted_from s inside)
  = Nat.div2 (count_quotes s + match inside with Some _ => 1 | None => 0 end).
Proof.
  revert inside. induction s as [|c s IH]; intros inside.
  - by destruct inside.
  - cbn [findall_quoted_from count_quotes].
    destruct inside as [acc|]; destruct (Ascii.eqb c dquote);
      cbn [length]; rewrite IH.
    + replace (1 + count_quotes s + 1)%nat with (S (S (count_quotes s + 0))) by lia.
      done.
    + done.
    + f_equal. lia.
    + done.
Qed.

Lemma findall_quoted_outside (sep rest : string) :
  count_quotes sep = 0%nat →
  findall_quoted_from (sep ++ rest) None = findall_quoted_from rest None.
Proof.
  induction sep as [|c sep IH]; [done|]. simpl.
  destruct (Ascii.eqb c dquote); [done|]. apply IH.
Qed.

Lemma findall_quoted_inside (name rest acc : string) :
  count_quotes name = 0%nat →
  findall_quoted_from (name ++ String dquote rest) (Some acc)
  = (acc ++ name)%string :: findall_quoted_from rest None.
Proof.
  revert acc. induction name as [|c name IH]; intros acc Hq.
  - cbn. by rewrite HandleFacts.append_empty_r.
  - simpl in Hq.
    change (String c name ++ String dquote rest)%string
      with (String c (name ++ String dquote rest)).
    cbn [findall_quoted_from]. destruct (Ascii.eqb c dquote); [done|].
    rewrite IH by done. by rewrite HandleFacts.append_snoc.
Qed.

End Quotes.

Module BatchExtras.

(** X15: for a positive number of parallel requests [p], the batches that
    [process_questions_list] cuts (the slices from [i] to [i + p] for [i] in
    the range from 0 to the number of questions by steps of [p]) put
    together give the question list back; every batch has at least one and
    at most [p] questions, and every batch but the last has exactly [p]. *)
Theorem batches_cover_questions {A} (l : list A) (p : Z) :
  0 < p →
  let batches := (λ i, py_slice l i (i + p)) <$> py_range_step (len l) p in
  concat batches = l ∧
  (∀ k b, batches !! k = Some b →
          0 < len b ≤ p ∧ ((S k < length batches)%nat → len b = p)).
Proof.
  intros Hp batches.
  destruct (range_count (len l) p) as (Hm0 & Hm1 & Hm2); [unfold len; lia|done|].
  set (m := (len l + p - 1) `div` p) in *.
  assert (Hb : batches = (λ k, take (Z.to_nat p) (drop (k * Z.to_nat p) l))
                         <$> seq 0 (Z.to_nat m)).
  { subst batches. unfold py_range_step. rewrite <- list_fmap_compose.
    apply list_fmap_ext. intros _ k _. simpl. by apply py_slice_chunk. }
  rewrite Hb. split.
  - rewrite concat_chunks. apply take_ge. unfold len in *. nia.
  - intros k b Hk. rewrite length_fmap, length_seq.
    rewrite list_lookup_fmap in Hk.
    destruct (seq 0 (Z.to_nat m) !! k) as [k'|] eqn:Hseq; [|done].
    apply lookup_seq in Hseq as [-> Hlt]. simpl in Hk. injection Hk as <-.
    unfold len in *. rewrite length_take, length_drop. nia.
Qed.

Lemma batches_cover_questions_witness :
  (λ i, py_slice [1; 2; 3; 4; 5; 6; 7] i (i + 3)) <$> py_range_step 7 3
  = [[1; 2; 3]; [4; 5; 6]; [7]] ∧
  concat ((λ i, py_slice [1; 2; 3; 4; 5; 6; 7] i (i + 3)) <$> py_range_step 7 3)
  = [1; 2; 3; 4; 5; 6; 7].
Proof.
  split; [reflexivity|].
  apply (batches_cover_questions [1; 2; 3; 4; 5; 6; 7] 3). lia.
Defined.

(** X16: a run without saving cannot fail on a question.  For a non-empty
    question list and no output path (or an empty one),
    [process_questions_list] returns, whatever the collaborators do or
    raise, for every parallelism and every schedule: one result per
    question, one ledger slot per question, and statistics whose error count
    is the number of results with an error. *)
Theorem run_survives_failures `{Collaborators} (cfg : config) (sch : schedules)
    (output_path : option string) (submission_file : bool)
    (team_email submission_name pipeline_details : string)
    (questions_list : list dict) (st : state) :
  questions_list ≠ [] →
  default EmptyString output_path = EmptyString →
  ∃ out st',
    run (process_questions_list cfg sch output_path submission_file team_email
           submission_name pipeline_details questions_list) st = (Ok out, st') ∧
    length (out_questions out) = length questions_list ∧
    length (out_answer_details out) = length questions_list ∧
    total_questions (out_statistics out) = len questions_list ∧
    error_count (out_statistics out) = count_if (dict_mem "error") (out_questions out).
Proof.
  intros Hne Hpath.
  pose proof (run_outcome cfg sch output_path submission_file team_email
                submission_name pipeline_details questions_list st) as Hrun.
  destruct (run _ st) as [[out|e] st'].
  - destruct Hrun as ((Hlen & _ & _) & Hdetails & Hslots & Hstats).
    exists out, st'. split; [done|].
    rewrite length_with_index in Hlen. rewrite Hdetails.
    split; [done|]. split; [done|].
    unfold _calculate_statistics in Hstats.
    destruct (_ && _); [done|]. injection Hstats as <-. cbn.
    unfold len. by rewrite Hlen.
  - destruct Hrun as [->|(path & -> & Hpath')]; [done|]. by simpl in Hpath.
Qed.

Lemma run_survives_failures_witness :
  ∃ out st',
    run (process_questions_list (H := Demo.collaborators) Demo.legacy Demo.taking_turns
           None false EmptyString EmptyString EmptyString Demo.questions) Demo.fresh
    = (Ok out, st') ∧
    length (out_questions out) = length Demo.questions ∧
    length (out_answer_details out) = length Demo.questions ∧
    total_questions (out_statistics out) = len Demo.questions ∧
    error_count (out_statistics out) = count_if (dict_mem "error") (out_questions out).
Proof.
  apply (run_survives_failures (H := Demo.collaborators) Demo.legacy Demo.taking_turns
           None false EmptyString EmptyString EmptyString Demo.questions Demo.fresh);
    [discriminate|reflexivity].
Defined.

End BatchExtras.

Module QuoteExtras.

(** X17: the legacy pipeline reads the company names between double quotes.
    From a text made of pieces, each a separator followed by a name between
    double quotes, where separators and names contain no double quote and
    what follows the last name contains at most one, it extracts exactly the
    names, in order and with repetitions. *)
Theorem quoted_names_extracted (parts : list (string * string)) (tail : string) :
  Forall (λ part, count_quotes part.1 = 0%nat ∧ count_quotes part.2 = 0%nat) parts →
  (count_quotes tail < 2)%nat →
  findall_quoted (PStr (quoted_text parts tail)) = Ok (snd <$> parts).
Proof.
  intros Hparts Htail. cbn [findall_quoted]. f_equal.
  induction Hparts as [|[sep name] parts [Hsep Hname] _ IH].
  - simpl. pose proof (findall_quoted_count tail None) as Hlen. simpl in Hlen.
    rewrite Nat.add_0_r in Hlen.
    destruct (count_quotes tail) as [|[|n]]; [| |lia];
      by destruct (findall_quoted_from tail None).
  - simpl in *. rewrite findall_quoted_outside by done.
    cbn [findall_quoted_from]. rewrite Ascii.eqb_refl.
    rewrite findall_quoted_inside by done. by rewrite IH.
Qed.

Lemma quoted_names_extracted_witness :
  findall_quoted (PStr (quoted_text [("Did ", "Acme"); (" outgrow ", "Bolt")] "?"))
  = Ok ["Acme"; "Bolt"]%string.
Proof.
  apply (quoted_names_extracted [("Did ", "Acme"); (" outgrow ", "Bolt")]%string "?").
  - repeat constructor.
  - simpl. lia.
Defined.

(** X18: in the legacy pipeline a question whose text has fewer than two
    double quotes names no company: [_process_single_question] returns the
    error result of the [ValueError] of line 191 and records its detail in
    slot [i], and nothing else of the state changes, so that no collaborator
    has been called. *)
Theorem unquoted_question_is_an_error `{Collaborators} (cfg : config)
    (sched : list nat) (q : question_data) (i : nat) (s : string) (st : state) :
  new_challenge_pipeline cfg = false →
  question_text_of cfg q = PStr s →
  (count_quotes s < 2)%nat →
  question_index_of q = Z.of_nat i →
  (i < length (answer_details st))%nat →
  run (_process_single_question cfg sched q) st
  = (Ok (error_result cfg (PStr s) (schema_of cfg q)
           (ValueError "No company name found in the question.")
           (detail_handle (Z.of_nat i))),
     with_error_detail i (ValueError "No company name found in the question.") st).
Proof.
  intros Hlegacy Htext Hquotes Hq Hi. rewrite <- Htext.
  apply (run_process_single_question_raises cfg sched q i Hq); [done|].
  unfold try_body, process_question, extract_companies.
  rewrite Hlegacy, Htext. cbn [findall_quoted].
  pose proof (findall_quoted_count s None) as Hlen. rewrite Nat.add_0_r in Hlen.
  destruct (findall_quoted_from s None) as [|c l]; [done|].
  destruct (count_quotes s) as [|[|n]]; [done..|lia].
Qed.

Lemma unquoted_question_is_an_error_witness :
  run (_process_single_question (H := Demo.collaborators) Demo.legacy [] Demo.unnamed)
    Demo.fresh
  = (Ok (error_result Demo.legacy (PStr "Who is the CEO?")
           (schema_of Demo.legacy Demo.unnamed)
           (ValueError "No company name found in the question.") (detail_handle 0)),
     with_error_detail 0 (ValueError "No company name found in the question.")
       Demo.fresh).
Proof.
  apply (unquoted_question_is_an_error (H := Demo.collaborators) Demo.legacy []
           Demo.unnamed 0 "Who is the CEO?" Demo.fresh);
    [reflexivity|reflexivity|simpl; lia|reflexivity|simpl; lia].
Defined.

(** X19: in the legacy pipeline a question whose text is not a string, as
    when the record has no key question and the text is [None], becomes the
    error result of the [TypeError] of [re.findall], and no collaborator is
    called. *)
Theorem question_without_text_is_an_error `{Collaborators} (cfg : config)
    (sched : list nat) (q : question_data) (i : nat) (st : state) :
  new_challenge_pipeline cfg = false →
  (∀ s, question_text_of cfg q ≠ PStr s) →
  question_index_of q = Z.of_nat i →
  (i < length (answer_details st))%nat →
  let err := TypeError ("expected string or bytes-like object, got '"
                        ++ type_name (question_text_of cfg q) ++ "'") in
  run (_process_single_question cfg sched q) st
  = (Ok (error_result cfg (question_text_of cfg q) (schema_of cfg q) err
           (detail_handle (Z.of_nat i))),
     with_error_detail i err st).
Proof.
  intros Hlegacy Htext Hq Hi err.
  apply (run_process_single_question_raises cfg sched q i Hq); [done|].
  unfold try_body, process_question, extract_companies.
  rewrite Hlegacy. destruct (question_text_of cfg q) as [| | | |s| |]; try done.
  by destruct (Htext s).
Qed.

Lemma question_without_text_is_an_error_witness :
  run (_process_single_question (H := Demo.collaborators) Demo.legacy [] untitled)
    Demo.fresh
  = (Ok (error_result Demo.legacy PNone (PStr "name")
           (TypeError "expected string or bytes-like object, got 'NoneType'")
           (detail_handle 0)),
     with_error_detail 0
       (TypeError "expected string or bytes-like object, got 'NoneType'") Demo.fresh).
Proof.
  apply (question_without_text_is_an_error (H := Demo.collaborators) Demo.legacy []
           untitled 0 Demo.fresh);
    [reflexivity|intros s; discriminate|reflexivity|simpl; lia].
Defined.

End QuoteExtras.

(** * The pipeline: failures, references and company names *)

Section FailsMore.
Context `{Collaborators}.

Lemma retrieval_call cfg company question :
  (if full_context cfg
   then call (retrieve_all (llm_reranking cfg) company)
   else call (retrieve_by_company_name (llm_reranking cfg) company question
                (llm_reranking_sample_size cfg) (top_n_retrieval cfg)
                (return_parent_pages cfg)))
  = call (retrieval cfg company question).
Proof. unfold retrieval. by destruct (full_context cfg). Qed.

Lemma fails_get_answer_no_context cfg company question schema :
  no_context cfg company →
  fails (get_answer_for_company cfg company question schema).
Proof.
  intros Hno st. unfold get_answer_for_company. rewrite retrieval_call.
  apply wp_bind, wp_atomic. intros st1 _. split; [done|].
  specialize (Hno question (environment st1)).
  destruct (retrieval cfg company question (environment st1)) as [[rs|e] w];
    simpl in *; [|by exists e].
  subst rs. cbn. eauto.
Qed.

Lemma fails_process_company_question_any cfg rephrased company :
  (∀ sub_question, fails (get_answer_for_company cfg company sub_question (PStr "number"))) →
  fails (process_company_question cfg rephrased company).
Proof.
  intros Hc. unfold process_company_question.
  destruct (py_method_get rephrased company PNone) as [sub|e]; [|apply fails_raise].
  rewrite bind_lift_ok. destruct (negb (truthy sub)); [apply fails_raise|].
  apply fails_bind, Hc.
Qed.

Lemma fails_process_company_question_missing cfg rephrased company :
  (∀ sub, py_method_get rephrased company PNone = Ok sub → truthy sub = false) →
  fails (process_company_question cfg rephrased company).
Proof.
  intros Hc. unfold process_company_question.
  destruct (py_method_get rephrased company PNone) as [sub|e]; [|apply fails_raise].
  rewrite bind_lift_ok. rewrite (Hc sub eq_refl). apply fails_raise.
Qed.

Lemma fails_comparative_member cfg sched question companies schema company :
  company ∈ companies →
  (∀ w rephrased, (get_rephrased_questions question companies w).1 = Ok rephrased →
                  fails (process_company_question cfg rephrased company)) →
  fails (process_comparative_question cfg sched question companies schema).
Proof.
  intros [n Hn]%list_elem_of_lookup Hc st. unfold process_comparative_question.
  apply wp_bind, wp_atomic. intros st1 _. split; [done|].
  specialize (Hc (environment st1)).
  destruct (get_rephrased_questions question companies (environment st1))
    as [[rephrased|e] w]; simpl in *; [|by exists e].
  specialize (Hc rephrased eq_refl).
  apply wp_bind.
  eapply wp_mono;
    [|apply (wp_run_pool anything sched _ (λ i r _, i = n → ∃ e, r = Raises e))].
  - cbn beta. intros r st2 (outs & completed & -> & Hlen & Houts & Hdone). cbv beta iota.
    rewrite length_fmap in Hlen.
    assert (Hlt : (n < length companies)%nat) by (by eapply lookup_lt_Some).
    destruct (lookup_lt_is_Some_2 outs n) as [o Ho]; [lia|].
    destruct (Houts n o Ho eq_refl) as [e ->].
    destruct (collect_answers_raises completed outs n e [] []) as [e' He'];
      [apply Hdone; by rewrite length_fmap|done|].
    rewrite He', bind_lift_raises. by exists e'.
  - by intros i r st2 st3.
  - intros i t Ht. destruct (decide (i = n)) as [->|Hne].
    + rewrite list_lookup_fmap, Hn in Ht. injection Ht as <-.
      eapply wp_mono; [|apply Hc]. cbn. auto.
    + apply wp_anything. by intros r st'.
Qed.

Lemma fails_get_answer_without_subset cfg company question schema :
  new_challenge_pipeline cfg = true → subset_path cfg = None →
  fails (get_answer_for_company cfg company question schema).
Proof.
  intros Hnew Hsub. unfold get_answer_for_company.
  apply fails_after. intros rs. destruct (negb (truthy_list rs)); [apply fails_raise|].
  apply fails_after. intros answer_dict. apply fails_after. intros _.
  rewrite Hnew. do 3 (apply fails_after; intros ?).
  unfold _extract_references. rewrite Hsub. apply fails_raise.
Qed.

Lemma fails_process_question_without_subset cfg sched question schema :
  new_challenge_pipeline cfg = true → subset_path cfg = None →
  fails (process_question cfg sched question schema).
Proof.
  intros Hnew Hsub. unfold process_question. apply fails_after.
  intros [|c [|c' l]]; [apply fails_raise|by apply fails_get_answer_without_subset|].
  apply (fails_comparative_member _ _ _ _ _ c); [by left|].
  intros w rephrased _. apply fails_process_company_question_any.
  intros sub. by apply fails_get_answer_without_subset.
Qed.

End FailsMore.

Section Backed.
Context `{Collaborators}.

Lemma dict_get_set_eq (d : dict) (k : string) (v : pyval) :
  dict_get (dict_set d k v) k = Some v.
Proof.
  induction d as [|[k' v'] d IH]; simpl.
  - by rewrite String.eqb_refl.
  - destruct (String.eqb k' k) eqn:Hk; simpl.
    + by rewrite String.eqb_refl.
    + by rewrite Hk.
Qed.

Lemma dict_get_set_ne (d : dict) (k k' : string) (v : pyval) :
  k ≠ k' → dict_get (dict_set d k v) k' = dict_get d k'.
Proof.
  intros Hne. induction d as [|[k0 v0] d IH]; simpl.
  - by rewrite (proj2 (String.eqb_neq k k')).
  - destruct (String.eqb k0 k) eqn:Hk; simpl.
    + apply String.eqb_eq in Hk as ->. by rewrite (proj2 (String.eqb_neq k k')).
    + by rewrite IH.
Qed.

Lemma wp_any_after {A B} (p : prog A) (k : A → prog B) (Q : res B → state → Prop) st :
  (∀ a st', wp anything (k a) Q st') → (∀ e st', Q (Raises e) st') →
  wp anything (p ≫= k) Q st.
Proof.
  intros Hk He. apply wp_bind, wp_anything. intros [a|e] st'; [apply Hk|apply He].
Qed.

Lemma wp_retrieval_backed cfg company question schema st :
  new_challenge_pipeline cfg = true →
  wp anything (get_answer_for_company cfg company question schema)
    (λ r _, ∀ a, r = Ok a → retrieval_backed cfg company question a) st.
Proof.
  intros Hnew. unfold get_answer_for_company. rewrite retrieval_call, Hnew.
  apply wp_bind, wp_atomic. intros st1 _. split; [done|].
  destruct (retrieval cfg company question (environment st1)) as [[rs|e] w] eqn:Hr;
    cbn [fst snd]; [|done].
  destruct (negb (truthy_list rs)) eqn:Hrs; [done|].
  apply wp_any_after; [|done]. intros answer_dict st2.
  apply wp_any_after; [|done]. intros _ st3.
  destruct (py_method_get answer_dict "relevant_pages" (PList [])) as [claimed|e] eqn:Hp;
    [|done].
  rewrite bind_lift_ok.
  destruct (AnyPages._validate_page_references claimed rs 2 8) as [pages|e] eqn:Hv;
    [|done].
  rewrite bind_lift_ok.
  destruct answer_dict as [| | | | | |d]; try done.
  cbn [py_setitem]. rewrite bind_lift_ok.
  unfold _extract_references. destruct (subset_path cfg) as [path|]; [|done].
  apply wp_bind. apply wp_any_after; [|done]. intros _ st4.
  apply wp_any_after; [|done]. intros table st5. cbn.
  intros a [= <-].
  set (sha := match find _ table with Some row => row.2 | None => PStr EmptyString end).
  destruct (AnyPagesFacts.validate_any_spec claimed rs 2 8 pages Hv)
    as (Hbacked & Hmax & Hmin).
  exists rs, (environment st1), claimed, pages, sha,
    (dict_set (dict_set d "relevant_pages" (PList pages)) "references"
       (PList (page_reference sha <$> pages))).
  split; [by rewrite Hr|]. split; [by destruct rs|]. split; [done|].
  split; [done|]. split; [|split; [|split; [done|]]].
  - rewrite dict_get_set_ne by done. apply dict_get_set_eq.
  - by rewrite dict_get_set_eq.
  - split; [|lia]. apply Hmin; [by destruct rs|lia|lia].
Qed.

End Backed.

Section Dedup.

Lemma first_occurrences_spec {A} `{EqDecision A} (seen l : list A) :
  NoDup seen →
  ∃ new, first_occurrences seen l = seen ++ new ∧ new `sublist_of` l ∧
         NoDup (seen ++ new) ∧ ∀ x, x ∈ seen ++ new ↔ x ∈ seen ∨ x ∈ l.
Proof.
  revert seen. induction l as [|x l IH]; intros seen Hnd.
  2: change (first_occurrences seen (x :: l))
       with (first_occurrences (if bool_decide (x ∈ seen) then seen else seen ++ [x]) l).
  - exists []. rewrite app_nil_r. split; [done|]. split; [done|]. split; [done|].
    intros y. rewrite elem_of_nil. tauto.
  - case_bool_decide as Hx.
    + destruct (IH seen Hnd) as (new & -> & Hsub & Hnd' & Hel).
      exists new. split; [done|]. split; [by apply sublist_cons|]. split; [done|].
      intros y. rewrite Hel, elem_of_cons. naive_solver.
    + destruct (IH (seen ++ [x])) as (new & Heq & Hsub & Hnd' & Hel).
      { apply NoDup_app. split; [done|]. split; [|apply NoDup_singleton].
        intros y Hy ->%list_elem_of_singleton. done. }
      exists (x :: new). rewrite Heq, <- app_assoc.
      split; [done|]. split; [by apply sublist_skip|].
      rewrite <- app_assoc in Hnd', Hel. split; [done|].
      intros y. rewrite Hel, elem_of_app, list_elem_of_singleton, elem_of_cons. tauto.
Qed.

Lemma unique_first_occurrences (l : list string) : unique l = first_occurrences [] l.
Proof. done. Qed.

Lemma unique_set_evidence (acc : list (string * Z)) (r : string * Z) :
  unique_set (reference_entry <$> acc) (PStr r.1, PInt r.2) (string_reference r)
  = reference_entry <$> (if bool_decide (r ∈ acc) then acc else acc ++ [r]).
Proof.
  induction acc as [|a acc IH].
  - done.
  - cbn [fmap list_fmap unique_set reference_entry fst snd py_eq].
    destruct (String.eqb a.1 r.1 && (a.2 =? r.2)) eqn:Heq.
    + apply andb_true_iff in Heq as [H1%String.eqb_eq H2%Z.eqb_eq].
      assert (a = r) as -> by (destruct a, r; simpl in *; congruence).
      rewrite bool_decide_eq_true_2 by (by left). done.
    + assert (a ≠ r).
      { intros ->. rewrite String.eqb_refl, Z.eqb_refl in Heq. done. }
      rewrite IH.
      case_bool_decide as Hin.
      * rewrite bool_decide_eq_true_2 by (by right). done.
      * rewrite bool_decide_eq_false_2; [done|].
        intros [->|Hin']%elem_of_cons; done.
Qed.

Lemma unique_references_evidence (rs acc : list (string * Z)) :
  unique_references (string_reference <$> rs) (reference_entry <$> acc)
  = Ok (string_reference <$> first_occurrences acc rs).
Proof.
  revert acc. induction rs as [|r rs IH]; intros acc.
  - cbn. f_equal. rewrite <- list_fmap_compose. done.
  - cbn [fmap list_fmap unique_references]. cbn [string_reference evidence_reference py_method_get py_get_default dict_get fst snd].
    cbn. fold (string_reference r).
    rewrite unique_set_evidence. rewrite IH. done.
Qed.

End Dedup.

Section Scan.
Context `{Collaborators}.

Lemma scan_companies_sublist names text : scan_companies names text `sublist_of` names.
Proof.
  revert text. induction names as [|c names IH]; intros text; simpl; [done|].
  destruct (search_company c text); [by apply sublist_skip|by apply sublist_cons].
Qed.

Lemma insert_by_len_perm x l : insert_by_len x l ≡ₚ x :: l.
Proof.
  induction l as [|y l IH]; simpl; [done|].
  destruct (_ <? _)%nat; [|done]. rewrite IH. apply Permutation_swap.
Qed.

Lemma sorted_by_len_desc_perm l : sorted_by_len_desc l ≡ₚ l.
Proof.
  induction l as [|x l IH]; [done|].
  unfold sorted_by_len_desc in *. simpl. by rewrite insert_by_len_perm, IH.
Qed.

Lemma insert_by_len_sorted x l :
  StronglySorted longer_first l → StronglySorted longer_first (insert_by_len x l).
Proof.
  induction 1 as [|y l Hl IH Hy]; simpl.
  - repeat constructor.
  - destruct (String.length x <? String.length y)%nat eqn:Hlen.
    + apply Nat.ltb_lt in Hlen. constructor; [done|].
      rewrite insert_by_len_perm. constructor; [unfold longer_first; lia|done].
    + apply Nat.ltb_ge in Hlen. constructor; [by constructor|].
      constructor; [done|]. eapply Forall_impl; [done|].
      unfold longer_first. intros z. simpl. lia.
Qed.

Lemma sorted_by_len_desc_sorted l : StronglySorted longer_first (sorted_by_len_desc l).
Proof.
  induction l as [|x l IH]; [constructor|].
  unfold sorted_by_len_desc in *. simpl. by apply insert_by_len_sorted.
Qed.

Lemma StronglySorted_sublist' {A} (R : relation A) (l1 l2 : list A) :
  l1 `sublist_of` l2 → StronglySorted R l2 → StronglySorted R l1.
Proof.
  induction 1 as [|x l1 l2 Hsub IH|x l1 l2 Hsub IH]; intros Hs; [done| |].
  - apply StronglySorted_inv in Hs as [Hs Hx]. constructor; [by apply IH|].
    apply Forall_forall. intros y Hy. rewrite Forall_forall in Hx.
    apply Hx. by eapply elem_of_sublist.
  - apply StronglySorted_inv in Hs as [Hs _]. by apply IH.
Qed.

Lemma found_companies_sublist names question found :
  found_companies names question = Ok found → found `sublist_of` names.
Proof.
  unfold found_companies. destruct names as [|c names].
  - by intros [= <-].
  - destruct question as [| | | |s| |]; try done. intros [= <-].
    apply (scan_companies_sublist (c :: names) s).
Qed.

Lemma run_read {A} (f : state → A) st :
  run (Atom (λ st, (f st, st)) Ret) st = (Ok (f st), st).
Proof. done. Qed.

Lemma run_the_companies st :
  run the_companies st
  = (match companies_df st with
     | Some table => Ok table
     | None => Raises (AttributeError
         "'QuestionsProcessor' object has no attribute 'companies_df'")
     end, st).
Proof. unfold the_companies. by rewrite run_atomic. Qed.

Lemma run_call {A} (f : world → res A * world) st :
  run (call f) st
  = ((f (environment st)).1, set_environment st (f (environment st)).2).
Proof. unfold call. rewrite run_atomic. by destruct (f (environment st)). Qed.

Lemma run_load_companies path st :
  run (load_companies path) st
  = match read_csv path (environment st) with
    | (Ok table, w) => (Ok (), set_companies_df (set_environment st w) table)
    | (Raises e, w) => (Raises e, set_environment st w)
    end.
Proof.
  unfold load_companies. rewrite run_bind, run_call.
  by destruct (read_csv path (environment st)) as [[table|e] w].
Qed.

Lemma run_extract_companies_from_subset cfg question st found st' :
  run (_extract_companies_from_subset cfg question) st = (Ok found, st') →
  ∃ table, companies_df st' = Some table ∧
    found_companies (sorted_by_len_desc (unique (fst <$> table))) question = Ok found ∧
    (∀ table0, companies_df st = Some table0 → st' = st ∧ table = table0).
Proof.
  unfold _extract_companies_from_subset. rewrite run_bind, run_read.
  destruct (companies_df st) as [table0|] eqn:Hdf.
  - rewrite run_bind. cbn [run]. rewrite run_bind, run_the_companies, Hdf, run_lift.
    intros [= Hf <-]. exists table0. split; [done|]. split; [done|].
    by intros ? [= <-].
  - destruct (subset_path cfg) as [path|]; [|by rewrite run_bind].
    rewrite run_bind, run_load_companies.
    destruct (read_csv path (environment st)) as [[table|e] w]; [|done].
    rewrite run_bind, run_the_companies. cbn [companies_df set_companies_df].
    rewrite run_lift. intros [= Hf <-]. exists table. by split.
Qed.

End Scan.

Section Save.
Context `{Collaborators}.

#[global] Instance same_attributes_preorder : PreOrder same_attributes.
Proof.
  split; [intros st; by unfold same_attributes|].
  intros st1 st2 st3 (? & ? & ?) (? & ? & ?). unfold same_attributes. split_and!; congruence.
Qed.

Lemma attributes_call {A} (f : world → res A * world) : harmless same_attributes (call f).
Proof.
  intros st. apply wp_atomic. intros st1 _.
  destruct (f (environment st1)) as [r w]. split; [by unfold same_attributes|done].
Qed.

Lemma attributes_read {A} (f : state → A) :
  harmless same_attributes (Atom (λ st, (f st, st)) Ret).
Proof. intros st st1 _. cbn. split; [by unfold same_attributes|done]. Qed.

Lemma attributes_save_progress processed path submission_file team_email
    submission_name pipeline_details :
  harmless same_attributes (_save_progress processed path submission_file team_email
                              submission_name pipeline_details).
Proof.
  unfold _save_progress.
  repeat first
    [ apply harmless_ret | apply harmless_lift | apply attributes_call
    | apply attributes_read | apply harmless_bind; [|intros ?]
    | match goal with
      | |- harmless _ (if ?b then _ else _) => destruct b
      end ].
Qed.

End Save.

Module PipelineExtras.



(** X21: the references of a comparative answer are deduplicated by sha1
    and page.  For evidence references whose sha1 is a string,
    [unique_references] returns references that are pairwise distinct, are
    exactly those that occur in its input, and stand in the order of the
    input. *)
Theorem comparative_references_deduplicated (rs : list (string * Z)) :
  ∃ out, unique_references (string_reference <$> rs) [] = Ok (string_reference <$> out) ∧
         NoDup out ∧ (∀ r, r ∈ out ↔ r ∈ rs) ∧ out `sublist_of` rs.
Proof.
  destruct (first_occurrences_spec [] rs) as (out & Heq & Hsub & Hnd & Hel);
    [constructor|].
  exists out. split; [|split; [done|split; [|done]]].
  - pose proof (unique_references_evidence rs []) as Hu. simpl in Heq.
    by rewrite Heq in Hu.
  - intros r. rewrite (Hel r), elem_of_nil. tauto.
Qed.

(** X22: [_save_progress] changes nothing of the processor.  Every action
    of it leaves the ledger, the response data and the company table as they
    are, so that only the collaborators' files change; and with an empty
    output path it does nothing at all. *)
Theorem save_progress_writes_files_only `{Collaborators} (processed : list dict)
    (path : string) (submission_file : bool)
    (team_email submission_name pipeline_details : string) (st : state) :
  harmless same_attributes (_save_progress processed path submission_file team_email
                              submission_name pipeline_details) ∧
  (let st' := (run (_save_progress processed path submission_file team_email
                      submission_name pipeline_details) st).2 in
   answer_details st' = answer_details st ∧ response_data st' = response_data st ∧
   companies_df st' = companies_df st) ∧
  run (_save_progress processed EmptyString submission_file team_email
         submission_name pipeline_details) st = (Ok (), st).
Proof.
  pose proof (attributes_save_progress processed path submission_file team_email
                submission_name pipeline_details) as Hsave.
  split; [done|]. split; [|done].
  by apply (frame_run same_attributes).
Qed.

(** X23: a company without context fails.  If the retrieval returns nothing
    for a company (or raises), [get_answer_for_company] for it never returns,
    and neither does a comparative question among whose companies it is, in
    whatever position, however many the companies and however the tasks are
    interleaved. *)
Theorem company_without_context_fails `{Collaborators} (cfg : config)
    (company : string) :
  no_context cfg company →
  (∀ question schema, fails (get_answer_for_company cfg company question schema)) ∧
  (∀ sched question companies schema,
     company ∈ companies →
     fails (process_comparative_question cfg sched question companies schema)).
Proof.
  intros Hno. split.
  - intros question schema. by apply fails_get_answer_no_context.
  - intros sched question companies schema Hin.
    apply (fails_comparative_member _ _ _ _ _ company Hin).
    intros w rephrased _. apply fails_process_company_question_any.
    intros sub. by apply fails_get_answer_no_context.
Qed.

Lemma company_without_context_fails_witness :
  (∀ question schema,
     fails (get_answer_for_company (H := Demo.collaborators) Demo.legacy "Bolt"
              question schema)) ∧
  (∀ sched question companies schema,
     "Bolt"%string ∈ companies →
     fails (process_comparative_question (H := Demo.collaborators) Demo.legacy sched
              question companies schema)).
Proof.
  apply (company_without_context_fails (H := Demo.collaborators) Demo.legacy "Bolt").
  intros question w. reflexivity.
Defined.

(** X24: the companies the challenge pipeline finds in a question are
    companies of the subset table, each at most once, the longer names
    first: they are a sublist of the distinct names of the table sorted by
    decreasing length.  A table already loaded is used as it is, without
    reading the file again. *)
Theorem found_companies_of_the_table `{Collaborators} (cfg : config)
    (question : pyval) (st st' : state) (found : list string) :
  run (_extract_companies_from_subset cfg question) st = (Ok found, st') →
  ∃ table, companies_df st' = Some table ∧
    found `sublist_of` sorted_by_len_desc (unique (fst <$> table)) ∧
    NoDup found ∧ (∀ c, c ∈ found → c ∈ fst <$> table) ∧
    StronglySorted longer_first found ∧
    (∀ table0, companies_df st = Some table0 → st' = st ∧ table = table0).
Proof.
  intros Hrun.
  destruct (run_extract_companies_from_subset cfg question st found st' Hrun)
    as (table & Hdf & Hfound & Hcached).
  apply found_companies_sublist in Hfound.
  destruct (first_occurrences_spec [] (fst <$> table)) as (names & Heq & _ & Hnd & Hel);
    [constructor|].
  rewrite <- unique_first_occurrences in Heq. simpl in Heq, Hnd, Hel.
  exists table. split; [done|]. split; [done|]. split; [|split; [|split; [|done]]].
  - eapply sublist_NoDup; [|done]. by rewrite sorted_by_len_desc_perm, Heq.
  - intros c Hc. eapply elem_of_sublist in Hc; [|done].
    rewrite sorted_by_len_desc_perm, Heq in Hc. apply Hel in Hc as [Hc|Hc]; [|done].
    by apply elem_of_nil in Hc.
  - eapply StronglySorted_sublist'; [done|]. apply sorted_by_len_desc_sorted.
Qed.

Lemma found_companies_of_the_table_witness :
  ∃ table, companies_df Fixed.table_loaded = Some table ∧
    ["Acme"; "Bolt"]%string `sublist_of` sorted_by_len_desc (unique (fst <$> table)) ∧
    NoDup ["Acme"; "Bolt"]%string ∧
    (∀ c, c ∈ ["Acme"; "Bolt"]%string → c ∈ fst <$> table) ∧
    StronglySorted longer_first ["Acme"; "Bolt"]%string ∧
    (∀ table0, companies_df Demo.fresh = Some table0 →
               Fixed.table_loaded = Demo.fresh ∧ table = table0).
Proof.
  apply (found_companies_of_the_table (H := Demo.collaborators) Demo.challenge
           (PStr "Which of Acme and Bolt had the higher revenue?")
           Demo.fresh Fixed.table_loaded ["Acme"; "Bolt"]%string).
  reflexivity.
Defined.

(** X25: an incomplete decomposition fails the comparison.  If the
    rephrasing service returns no sub-question, or an empty one, for one of
    the companies, the comparative question never returns, however the tasks
    of the other companies go. *)
Theorem comparison_without_sub_question_fails `{Collaborators} (cfg : config)
    (sched : list nat) (question : pyval) (companies : list string) (schema : pyval)
    (company : string) :
  company ∈ companies →
  (∀ w rephrased sub,
     (get_rephrased_questions question companies w).1 = Ok rephrased →
     py_method_get rephrased company PNone = Ok sub → truthy sub = false) →
  fails (process_comparative_question cfg sched question companies schema).
Proof.
  intros Hin Hmissing.
  apply (fails_comparative_member _ _ _ _ _ company Hin).
  intros w rephrased Hcall. apply fails_process_company_question_missing.
  intros sub. by apply (Hmissing w).
Qed.

Lemma comparison_without_sub_question_fails_witness :
  fails (process_comparative_question (H := Fixed.forgetful) Demo.legacy [1; 0]%nat
           (PStr "Did Acme outgrow Bolt?") ["Acme"; "Bolt"]%string (PStr "boolean")).
Proof.
  apply (comparison_without_sub_question_fails (H := Fixed.forgetful) Demo.legacy
           [1; 0]%nat (PStr "Did Acme outgrow Bolt?") ["Acme"; "Bolt"]%string
           (PStr "boolean") "Bolt").
  - apply elem_of_cons. right. apply elem_of_cons. by left.
  - intros w rephrased sub [= <-] [= <-]. reflexivity.
Defined.

(** X26: the challenge pipeline needs its subset file.  With
    [new_challenge_pipeline] set and no [subset_path], [process_question]
    never returns, whatever the question, the state and the collaborators:
    every question of a run becomes an error. *)
Theorem challenge_without_subset_fails `{Collaborators} (cfg : config)
    (sched : list nat) (question schema : pyval) :
  new_challenge_pipeline cfg = true → subset_path cfg = None →
  fails (process_question cfg sched question schema) ∧
  ∀ st, ∃ e st', run (process_question cfg sched question schema) st = (Raises e, st').
Proof.
  intros Hnew Hsub.
  pose proof (fails_process_question_without_subset cfg sched question schema Hnew Hsub)
    as Hfails.
  split; [done|]. intros st. by apply fails_run.
Qed.

Lemma challenge_without_subset_fails_witness :
  fails (process_question (H := Demo.collaborators) Fixed.misconfigured []
           (PStr "What was the revenue of Acme?") (PStr "number")) ∧
  ∀ st, ∃ e st',
    run (process_question (H := Demo.collaborators) Fixed.misconfigured []
           (PStr "What was the revenue of Acme?") (PStr "number")) st = (Raises e, st').
Proof.
  apply (challenge_without_subset_fails (H := Demo.collaborators) Fixed.misconfigured []
           (PStr "What was the revenue of Acme?") (PStr "number")); reflexivity.
Defined.

End PipelineExtras.

(** * The results of a run, and when a run returns *)

Section Shapes.
Context `{Collaborators}.

Lemma retrieval_backed_references cfg company question a :
  retrieval_backed cfg company question a → has_references a.
Proof.
  intros (rs & w & claimed & pages & sha & d & _ & _ & -> & _ & _ & Hrefs & Hb & _) d' [= <-].
  unfold py_get_default. rewrite Hrefs. eexists. split; [done|].
  apply Forall_fmap. eapply Forall_impl; [exact Hb|].
  intros page [Hnum _]. by exists sha, page.
Qed.

Lemma unique_set_values u key ref x :
  x ∈ snd <$> unique_set u key ref → x = ref ∨ x ∈ snd <$> u.
Proof.
  induction u as [|[key' ref'] u IH]; simpl.
  - intros ->%list_elem_of_singleton. by left.
  - destruct (_ && _); simpl.
    + intros [->|Hx]%elem_of_cons; [by left|right; by right].
    + intros [->|Hx]%elem_of_cons; [right; by left|].
      destruct (IH Hx) as [->|Hu]; [by left|right; by right].
Qed.

Lemma unique_references_subset refs u out x :
  unique_references refs u = Ok out → x ∈ out → x ∈ refs ∨ x ∈ snd <$> u.
Proof.
  revert u. induction refs as [|ref refs IH]; intros u; simpl.
  - intros [= <-]. by right.
  - destruct (py_method_get ref "pdf_sha1" PNone) as [sha|e]; [|done]. cbn.
    destruct (py_method_get ref "page_index" PNone) as [idx|e]; [|done]. cbn.
    destruct (py_hashable sha); [|done]. cbn. destruct (py_hashable idx); [|done]. cbn.
    intros Hout Hx. destruct (IH _ Hout Hx) as [Hr|Hu]; [left; by right|].
    apply unique_set_values in Hu as [->|Hu]; [left; by left|by right].
Qed.

Lemma collect_answers_references completed outcomes ia ar ia' ar' :
  (∀ i c a, outcomes !! i = Some (Ok (c, a)) → has_references a) →
  Forall is_reference ar →
  collect_answers completed outcomes ia ar = Ok (ia', ar') →
  Forall is_reference ar'.
Proof.
  intros Houts. revert ia ar.
  induction completed as [|i completed IH]; intros ia ar Har; cbn [collect_answers].
  - by intros [= _ <-].
  - destruct (outcomes !! i) as [[[c a]|e]|] eqn:Hi; [|done|by apply IH].
    specialize (Houts i c a Hi).
    destruct a as [| | | | | |d]; try done. cbn [py_method_get]. cbn.
    destruct (Houts d eq_refl) as (l & -> & Hl). cbn.
    apply IH. by apply Forall_app.
Qed.

Lemma wp_references_process_company_question cfg rephrased company st :
  new_challenge_pipeline cfg = true →
  wp anything (process_company_question cfg rephrased company)
    (λ r _, ∀ ca, r = Ok ca → has_references ca.2) st.
Proof.
  intros Hnew. unfold process_company_question.
  destruct (py_method_get rephrased company PNone) as [sub|e]; [|done].
  rewrite bind_lift_ok. destruct (negb (truthy sub)); [done|].
  apply wp_bind. eapply wp_mono; [|by apply wp_retrieval_backed].
  intros [a|e] st' Ha; [|done]. cbn. intros ca [= <-].
  eapply retrieval_backed_references. by apply Ha.
Qed.

Lemma wp_references_process_comparative_question cfg sched question companies schema st :
  new_challenge_pipeline cfg = true →
  wp anything (process_comparative_question cfg sched question companies schema)
    (λ r _, ∀ a, r = Ok a → has_references a) st.
Proof.
  intros Hnew. unfold process_comparative_question.
  apply wp_any_after; [|done]. intros rephrased st1. apply wp_bind.
  eapply wp_mono;
    [|apply (wp_run_pool anything sched _ (λ _ r _, ∀ ca, r = Ok ca → has_references ca.2))].
  - cbn beta. intros r st2 (outs & completed & -> & _ & Houts & _). cbv beta iota.
    destruct (collect_answers completed outs [] []) as [[ia ar]|e] eqn:Hcollect;
      [|done].
    rewrite bind_lift_ok.
    assert (Har : Forall is_reference ar).
    { eapply collect_answers_references; [|constructor|done].
      intros i c a Hi. by apply (Houts i _ Hi (c, a)). }
    destruct (unique_references ar []) as [agg|e] eqn:Hunique; [|done].
    rewrite bind_lift_ok.
    assert (Hagg : Forall is_reference agg).
    { apply Forall_forall. intros x Hx.
      destruct (unique_references_subset _ _ _ x Hunique Hx) as [Hin|Hin].
      - by eapply Forall_forall in Har.
      - by apply elem_of_nil in Hin. }
    apply wp_any_after; [|done]. intros answer st3.
    apply wp_any_after; [|done]. intros _ st4.
    destruct answer as [| | | | | |d]; try done. cbn.
    intros a [= <-] d' [= <-]. unfold py_get_default. rewrite dict_get_set_eq.
    by exists agg.
  - by intros i r st2 st3.
  - intros i t (company & -> & _)%list_lookup_fmap_Some.
    by apply wp_references_process_company_question.
Qed.

Lemma wp_references_process_question cfg sched question schema st :
  wp anything (process_question cfg sched question schema)
    (λ r _, ∀ a, r = Ok a → new_challenge_pipeline cfg = true → has_references a) st.
Proof.
  unfold process_question. apply wp_any_after; [|done].
  intros [|c [|c' l]] st1; [done| |].
  - destruct (new_challenge_pipeline cfg) eqn:Hnew.
    + eapply wp_mono; [|by apply wp_retrieval_backed].
      intros r st' Hr a -> _. eapply retrieval_backed_references. by apply Hr.
    + by apply wp_anything.
  - destruct (new_challenge_pipeline cfg) eqn:Hnew.
    + eapply wp_mono; [|by apply wp_references_process_comparative_question].
      intros r st' Hr a -> _. by apply Hr.
    + by apply wp_anything.
Qed.

End Shapes.

Section Shaped.
Context `{Collaborators}.

Lemma well_formed_exportable q : well_formed_result q → exportable_result q.
Proof.
  intros [Hh Hrefs]. split; [done|].
  destruct Hrefs as [?|[?|[rs Hrs]]]; [by left|by right; left|].
  right; right. eexists. split; [done|].
  apply Forall_fmap, Forall_forall. intros [sha p] _. by exists sha, (PInt p).
Qed.

Lemma zero_based_returns ref : is_reference ref → ∃ out, zero_based ref = Ok out.
Proof.
  intros (sha & page & -> & Hnum). unfold zero_based, page_reference.
  cbn [py_getitem dict_item dict_get String.eqb Ascii.eqb Bool.eqb mbind res_bind].
  destruct page; try done; cbn; by eexists.
Qed.

Lemma exportable_answer_returns (answer_details : ledger) (q : dict) :
  exportable_result q → ∃ a, submission_answer answer_details q = Ok a.
Proof.
  intros [(d & h & Hd & Hh) Hrefs]. unfold submission_answer, narrative.
  rewrite Hd. cbn [py_method_get]. rewrite Hh. cbn [mbind res_bind].
  destruct (ExportFacts.resolve_step_by_step_returns answer_details h) as [sba ->].
  cbn [mbind res_bind].
  destruct Hrefs as [He|[Hna|(l & Hl & Hrefs)]].
  - rewrite He. cbn. by eexists.
  - destruct (dict_mem "error" q); [cbn; by eexists|]. rewrite Hna. cbn. by eexists.
  - destruct (py_eq_str _ "N/A"); [cbn; by eexists|].
    rewrite Hl. cbn [py_iter mbind res_bind].
    destruct (ExportFacts.res_map_returns zero_based l) as [out ->].
    { eapply Forall_impl; [exact Hrefs|]. apply zero_based_returns. }
    cbn. by eexists.
Qed.

Lemma exportable_error_result cfg question_text schema e ref :
  exportable_result (error_result cfg question_text schema e ref).
Proof.
  unfold error_result. destruct (new_challenge_pipeline cfg); split;
    first [by eexists _, _ | by left].
Qed.

Lemma wp_shaped_handle cfg question_text schema e i st :
  wp anything (_handle_processing_error cfg question_text schema e i) shaped st.
Proof.
  unfold _handle_processing_error. apply wp_any_after; [|done].
  intros _ st' res [= <-]. apply exportable_error_result.
Qed.

Lemma wp_shaped_process_single_question cfg sched q st :
  wp anything (_process_single_question cfg sched q) shaped st.
Proof.
  unfold _process_single_question. apply wp_try_except.
  set (Q := λ (r : res dict) st', match r with
                                  | Ok a => shaped (Ok a) st'
                                  | Raises e =>
                                      wp anything
                                        (_handle_processing_error cfg (question_text_of cfg q)
                                           (schema_of cfg q) e (question_index_of q))
                                        shaped st'
                                  end).
  assert (Hraise : ∀ e st', Q (Raises e) st') by (intros e st'; apply wp_shaped_handle).
  unfold try_body. apply wp_bind.
  eapply wp_mono; [|apply wp_references_process_question].
  intros [a|e] st1 Ha; [|apply Hraise]. specialize (Ha a eq_refl).
  destruct (py_contains_str "error" a) as [has_error|e] eqn:Herr; [|apply Hraise].
  rewrite bind_lift_ok. destruct has_error.
  - apply wp_any_after; [|done]. intros ref st2.
    destruct (py_getitem a "error") as [err|e] eqn:Hget; [|apply Hraise].
    rewrite bind_lift_ok. intros res [= <-].
    destruct (new_challenge_pipeline cfg); split;
      first [by eexists _, _ | by left].
  - apply wp_any_after; [|done]. intros ref st2.
    destruct (py_method_get a "final_answer" PNone) as [final|e] eqn:Hfinal;
      [|apply Hraise].
    rewrite bind_lift_ok.
    destruct (new_challenge_pipeline cfg) eqn:Hnew.
    + destruct a as [| | | | | |d]; try done. cbn [py_method_get]. rewrite bind_lift_ok.
      intros res [= <-]. split; [by eexists _, _|]. right. right.
      destruct (Ha eq_refl d eq_refl) as (l & Hl & Hrefs). exists l. cbn. done.
    + intros res [= <-]. split; [by eexists _, _|]. right. right. by exists [].
Qed.

Lemma res_map_id_Forall {A} (P : A → Prop) (outs : list (res A)) (results : list A) :
  (∀ i o, outs !! i = Some o → ∀ a, o = Ok a → P a) →
  res_map id outs = Ok results → Forall P results.
Proof.
  revert results. induction outs as [|o outs IH]; intros results Houts; simpl.
  - intros [= <-]. constructor.
  - destruct o as [a|e]; [|done]. cbn.
    destruct (res_map id outs) as [rest|e] eqn:Hrest; [|done]. cbn.
    intros [= <-]. constructor.
    + by apply (Houts 0%nat (Ok a)).
    + apply IH; [|done]. intros i o. apply (Houts (S i)).
Qed.

Section Loops.
Variable cfg : config.
Variable sch : schedules.
Variable output_path : option string.
Variable submission_file : bool.
Variables team_email submission_name pipeline_details : string.

Lemma wp_shaped_sequential_loop todo processed st :
  Forall exportable_result processed →
  wp anything (sequential_loop cfg sch output_path submission_file team_email
                 submission_name pipeline_details todo processed) all_shaped st.
Proof.
  revert processed st. induction todo as [|q todo IH]; intros processed st Hp.
  - by intros results [= <-].
  - cbn [sequential_loop]. apply wp_bind.
    eapply wp_mono; [|apply wp_shaped_process_single_question].
    intros [res|e] st1 Hres; [|done].
    apply wp_any_after; [|done]. intros _ st2. apply IH.
    apply Forall_app. split; [done|]. constructor; [by apply Hres|constructor].
Qed.

Lemma wp_shaped_executor_map sched batch st :
  wp anything (executor_map sched (worker cfg sch <$> batch)) all_shaped st.
Proof.
  unfold executor_map. apply wp_bind.
  eapply wp_mono; [|apply (wp_run_pool anything sched _ (λ _, shaped))].
  - cbn beta. intros r st1 (outs & completed & -> & _ & Houts & _). cbv beta iota.
    destruct (res_map id outs) as [results|e] eqn:Hmap; [|done].
    intros results' [= <-]. eapply res_map_id_Forall; [|done].
    intros i o Hi a ->. by apply (Houts i _ Hi).
  - by intros i r st1 st2.
  - intros i t (q & -> & _)%list_lookup_fmap_Some.
    apply wp_shaped_process_single_question.
Qed.

Lemma wp_shaped_batch_loop p qs starts processed st :
  Forall exportable_result processed →
  wp anything (batch_loop cfg sch output_path submission_file team_email
                 submission_name pipeline_details p qs starts processed) all_shaped st.
Proof.
  revert processed st. induction starts as [|i starts IH]; intros processed st Hp.
  - by intros results [= <-].
  - cbn [batch_loop]. apply wp_bind.
    eapply wp_mono; [|apply wp_shaped_executor_map].
    intros [results|e] st1 Hres; [|done].
    apply wp_any_after; [|done]. intros _ st2. apply IH.
    apply Forall_app. split; [done|]. by apply Hres.
Qed.

Lemma run_results_exportable questions_list st out st' :
  run (process_questions_list cfg sch output_path submission_file team_email
         submission_name pipeline_details questions_list) st = (Ok out, st') →
  Forall exportable_result (out_questions out).
Proof.
  rewrite run_process_questions_list.
  set (st0 := set_answer_details st _).
  assert (Hloop : wp anything (main_loop cfg sch output_path submission_file team_email
                                 submission_name pipeline_details questions_list)
                    all_shaped st0).
  { unfold main_loop. case_bool_decide.
    - by apply wp_shaped_sequential_loop.
    - by apply wp_shaped_batch_loop. }
  apply (wp_run anything) in Hloop as [Hq _].
  destruct (run _ st0) as [[processed|e] st1]; [|done].
  destruct (_calculate_statistics processed true); [|done].
  intros [= <- _]. by apply Hq.
Qed.

End Loops.
End Shaped.

Section Total.
Context `{Collaborators}.

Lemma wp_conj {A} (p : prog A) (Q1 Q2 : res A → state → Prop) st :
  wp evolves p Q1 st → wp anything p Q2 st →
  wp evolves p (λ r st', Q1 r st' ∧ Q2 r st') st.
Proof.
  revert st. induction p as [a|e|X act k IH]; intros st; cbn; [done..|].
  intros H1 H2 st1 HR. destruct (H1 st1 HR) as [Hg Hk1].
  destruct (H2 st1 I) as [_ Hk2]. split; [done|]. by apply IH.
Qed.

Lemma wp_call_evolves {A} (f : world → res A * world) (Q : res A → state → Prop) st :
  (∀ st1, Q (f (environment st1)).1 (set_environment st1 (f (environment st1)).2)) →
  wp evolves (call f) Q st.
Proof.
  intros HQ. apply wp_atomic. intros st1 _.
  specialize (HQ st1). destruct (f (environment st1)) as [r w].
  split; [by apply evolves_ledger|done].
Qed.

Section Loops.
Variable cfg : config.
Variable sch : schedules.
Variable output_path : option string.
Variable submission_file : bool.
Variables team_email submission_name pipeline_details : string.
Hypothesis writable : files_writable.

Lemma wp_save_returns processed st :
  Forall exportable_result processed →
  wp evolves (save_if_path output_path submission_file team_email submission_name
                pipeline_details processed)
    (λ r st', evolves st st' ∧ r = Ok ()) st.
Proof.
  intros Hwf. apply (wp_assume_rely evolves).
  eapply wp_mono with (Q := λ r _, r = Ok ()); [by intros r st' -> ?|].
  unfold save_if_path. destruct output_path as [path|]; [|done].
  destruct (negb (String.eqb path EmptyString)) eqn:Hpath; [|done].
  unfold _save_progress. rewrite Hpath.
  destruct (ExportFacts.statistics_of_list processed) as (s & -> & _).
  rewrite bind_lift_ok. intros st1 _. split; [reflexivity|]. cbn [fst snd].
  apply wp_bind, wp_call_evolves. intros st2.
  rewrite (proj1 (writable _ _ _)).
  destruct submission_file; [|done].
  intros st3 _. split; [reflexivity|]. cbn [fst snd].
  destruct (ExportFacts.res_map_returns (submission_answer (answer_details st3)) processed)
    as [answers Hanswers].
  { eapply Forall_impl; [done|]. intros q. apply exportable_answer_returns. }
  cbn [prog_mbind prog_bind]. unfold _post_process_submission_answers.
  rewrite Hanswers, bind_lift_ok.
  apply wp_call_evolves. intros st4. by rewrite (proj2 (writable _ _ _)).
Qed.

Section Questions.
Variable qs : list question_data.
Hypothesis qs_indexed :
  ∀ k q, qs !! k = Some q → question_index_of q = Z.of_nat k.

Lemma wp_total_sequential_loop todo done processed st :
  qs = done ++ todo → length (answer_details st) = length qs →
  Forall exportable_result processed →
  wp evolves (sequential_loop cfg sch output_path submission_file team_email
                submission_name pipeline_details todo processed) returns_shaped st.
Proof.
  revert done processed st.
  induction todo as [|q todo IH]; intros done processed st Hqs Hlen Hwf.
  - by exists processed.
  - cbn [sequential_loop]. apply wp_bind. apply (wp_assume_rely evolves).
    eapply wp_mono;
      [|apply wp_conj;
        [apply (wp_worker cfg sch qs qs_indexed (length done) q)
        |apply wp_shaped_process_single_question]];
      [|by rewrite Hqs, list_lookup_middle|done].
    cbn beta. intros r st1 [(res & -> & _) Hres] HR1. cbv beta iota.
    assert (Hwf' : Forall exportable_result (processed ++ [res])).
    { apply Forall_app. split; [done|]. constructor; [by apply Hres|constructor]. }
    apply wp_bind. eapply wp_mono; [|by apply wp_save_returns].
    cbn beta. intros r st2 [HR2 ->]. cbv beta iota.
    apply (IH (done ++ [q])); [by rewrite <- app_assoc| |done].
    destruct HR1 as [E1 _], HR2 as [E2 _]. congruence.
Qed.

Lemma wp_total_batch_loop (p : Z) (n k : nat) processed st :
  0 < p → length (answer_details st) = length qs →
  Forall exportable_result processed →
  wp evolves (batch_loop cfg sch output_path submission_file team_email
                submission_name pipeline_details p qs
                ((λ j, Z.of_nat j * p) <$> seq k n) processed) returns_shaped st.
Proof.
  intros Hp. revert k processed st.
  induction n as [|n IH]; intros k processed st Hlen Hwf.
  - by exists processed.
  - cbn [seq fmap list_fmap batch_loop]. apply wp_bind.
    rewrite py_slice_chunk by done.
    set (batch := take (Z.to_nat p) (drop (k * Z.to_nat p) qs)).
    apply (wp_assume_rely evolves).
    eapply wp_mono;
      [|apply wp_conj;
        [apply (wp_executor_map_workers cfg sch qs qs_indexed _ (k * Z.to_nat p) batch)
        |apply wp_shaped_executor_map]]; [| |done].
    + cbn beta. intros r st1 [(results & -> & _) Hres] HR1. cbv beta iota.
      assert (Hwf' : Forall exportable_result (processed ++ results)).
      { apply Forall_app. split; [done|]. by apply Hres. }
      apply wp_bind. eapply wp_mono; [|by apply wp_save_returns].
      cbn beta. intros r st2 [HR2 ->]. cbv beta iota.
      apply IH; [|done].
      destruct HR1 as [E1 _], HR2 as [E2 _]. congruence.
    + intros j q Hq. unfold batch in Hq.
      rewrite lookup_take_Some in Hq. destruct Hq as [Hq _].
      by rewrite lookup_drop in Hq.
Qed.

End Questions.

Lemma wp_total_main_loop (questions_list : list dict) (st : state) :
  length (answer_details st) = length questions_list →
  wp evolves (main_loop cfg sch output_path submission_file team_email
                submission_name pipeline_details questions_list) returns_shaped st.
Proof.
  intros Hlen. unfold main_loop. fold (with_index questions_list).
  assert (Hidx : ∀ k q, with_index questions_list !! k = Some q →
                        question_index_of q = Z.of_nat k).
  { intros k q Hq. by apply with_index_lookup in Hq as [? _]. }
  case_bool_decide as HP.
  - apply (wp_total_sequential_loop _ Hidx _ []); [done| |done].
    by rewrite length_with_index.
  - unfold py_range_step.
    apply (wp_total_batch_loop _ Hidx); [lia| |done]. by rewrite length_with_index.
Qed.

Lemma run_returns (questions_list : list dict) (st : state) :
  questions_list ≠ [] →
  ∃ out st',
    run (process_questions_list cfg sch output_path submission_file team_email
           submission_name pipeline_details questions_list) st = (Ok out, st').
Proof.
  intros Hne. rewrite run_process_questions_list.
  set (st0 := set_answer_details st _).
  assert (Hlen : length (answer_details st0) = length questions_list)
    by (subst st0; cbn; by rewrite length_replicate).
  pose proof (wp_total_main_loop questions_list st0 Hlen) as Htotal.
  apply (wp_run evolves) in Htotal as [(processed & Hrun & _) _].
  pose proof (wp_main_loop cfg sch output_path submission_file team_email
                submission_name pipeline_details questions_list st0 Hlen) as Hloop.
  apply (wp_run evolves) in Hloop as [Hcov _].
  destruct (run _ st0) as [r st1]. cbn in Hrun, Hcov. subst r.
  destruct Hcov as (Hlp & _). rewrite length_with_index in Hlp.
  destruct (ExportFacts.statistics_of_list processed) as (s & _ & _ & _ & _ & _ & Hs).
  rewrite Hs; [by eauto|]. intros ->. by destruct questions_list.
Qed.

End Loops.
End Total.

Section Format.

Lemma string_app_assoc (a b c : string) : ((a ++ b) ++ c = a ++ (b ++ c))%string.
Proof.
  induction a as [|x a IH]; [done|].
  change (String x ((a ++ b) ++ c) = String x (a ++ (b ++ c)))%string. by rewrite IH.
Qed.

Lemma concat_app (sep : string) (l1 l2 : list string) :
  l1 ≠ [] → l2 ≠ [] →
  String.concat sep (l1 ++ l2)
  = (String.concat sep l1 ++ sep ++ String.concat sep l2)%string.
Proof.
  intros H1 H2. induction l1 as [|x [|y l1] IH]; [done| |].
  - destruct l2; [done|]. done.
  - change (String.concat sep ((x :: y :: l1) ++ l2))
      with (x ++ sep ++ String.concat sep ((y :: l1) ++ l2))%string.
    rewrite IH by done.
    change (String.concat sep (x :: y :: l1))
      with (x ++ sep ++ String.concat sep (y :: l1))%string.
    by rewrite !string_app_assoc.
Qed.

End Format.

Module RunExtras.

(** X27: what a run returns can be exported.  The results of a run of
    [process_questions_list], in either pipeline and for every parallelism
    and schedule, whatever the answering service returns, each have a string
    handle, and each is an error, has the value N/A, or has for references
    only dictionaries of a sha1 and a page index that is a number.  So the
    submission export of these results with the ledger of the run does not
    raise: it returns one answer per question, each as the export specifies
    it. *)
Theorem run_results_can_be_exported `{Collaborators} (cfg : config) (sch : schedules)
    (output_path : option string) (submission_file : bool)
    (team_email submission_name pipeline_details : string)
    (questions_list : list dict) (st st' : state) (out : output) :
  run (process_questions_list cfg sch output_path submission_file team_email
         submission_name pipeline_details questions_list) st = (Ok out, st') →
  Forall exportable_result (out_questions out) ∧
  ∃ answers,
    _post_process_submission_answers (out_answer_details out) (out_questions out)
    = Ok answers ∧
    Forall2 exported (out_questions out) answers ∧
    length answers = length questions_list.
Proof.
  intros Hrun.
  pose proof (run_results_exportable _ _ _ _ _ _ _ _ _ _ _ Hrun) as Hwf.
  split; [done|].
  destruct (ExportFacts.res_map_returns (submission_answer (out_answer_details out))
              (out_questions out)) as [answers Hanswers].
  { eapply Forall_impl; [done|]. intros q. apply exportable_answer_returns. }
  exists answers. split; [done|].
  apply ExportFacts.res_map_Forall2 in Hanswers.
  split.
  - eapply Forall2_impl; [done|]. intros q a. apply ExportFacts.submission_answer_exported.
  - apply Forall2_length in Hanswers. rewrite <- Hanswers.
    pose proof (run_outcome cfg sch output_path submission_file team_email
                  submission_name pipeline_details questions_list st) as Hout.
    rewrite Hrun in Hout. destruct Hout as ((Hlen & _) & _).
    by rewrite length_with_index in Hlen.
Qed.

Lemma run_results_can_be_exported_witness :
  match run (process_questions_list (H := Demo.collaborators) Demo.challenge
               Demo.taking_turns None true EmptyString EmptyString EmptyString
               Fixed.challenge_questions) Demo.fresh with
  | (Ok out, _) =>
      ∃ answers,
        _post_process_submission_answers (out_answer_details out) (out_questions out)
        = Ok answers ∧ length answers = 2%nat
  | (Raises _, _) => False
  end.
Proof.
  pose proof (run_results_can_be_exported (H := Demo.collaborators) Demo.challenge
                Demo.taking_turns None true EmptyString EmptyString EmptyString
                Fixed.challenge_questions Demo.fresh) as Hexport.
  destruct (run _ Demo.fresh) as [[out|e] st'] eqn:Hrun.
  - destruct (Hexport st' out eq_refl) as (_ & answers & Hanswers & _ & Hlen).
    by exists answers.
  - vm_compute in Hrun. discriminate Hrun.
Defined.

(** X28: a run returns when the files can be written.  If the two file
    writes of [_save_progress] never fail, [process_questions_list] over at
    least one question returns, with or without an output path, whatever the
    other collaborators do or raise, for every parallelism and schedule;
    and so does [process_all_questions] on the questions of the processor. *)
Theorem run_returns_when_files_are_writable `{Collaborators} (cfg : config)
    (sch : schedules) (output_path : option string) (submission_file : bool)
    (team_email submission_name pipeline_details : string)
    (questions_list : list dict) (st : state) :
  files_writable → questions_list ≠ [] →
  (∃ out st',
     run (process_questions_list cfg sch output_path submission_file team_email
            submission_name pipeline_details questions_list) st = (Ok out, st')) ∧
  (∀ path, ∃ out st',
     run (process_all_questions cfg sch questions_list path team_email submission_name
            submission_file pipeline_details) st = (Ok out, st')).
Proof.
  intros Hw Hne. split; [by apply run_returns|].
  intros path. unfold process_all_questions. by apply run_returns.
Qed.

Lemma run_returns_when_files_are_writable_witness :
  (∃ out st',
     run (process_questions_list (H := Demo.collaborators) Demo.legacy Demo.taking_turns
            (Some "answers.json"%string) true EmptyString EmptyString EmptyString
            Demo.questions) Demo.fresh = (Ok out, st')) ∧
  (∀ path, ∃ out st',
     run (process_all_questions (H := Demo.collaborators) Demo.legacy Demo.taking_turns
            Demo.questions path EmptyString EmptyString true EmptyString) Demo.fresh
     = (Ok out, st')).
Proof.
  apply (run_returns_when_files_are_writable (H := Demo.collaborators) Demo.legacy
           Demo.taking_turns (Some "answers.json"%string) true EmptyString EmptyString
           EmptyString Demo.questions Demo.fresh).
  - intros path v w. split; reflexivity.
  - discriminate.
Defined.

(** X29: the context of the answering service is built passage by passage.
    For two non-empty lists of passages, the context of the two put
    together is the context of the first, the separator line of three
    dashes between two empty lines, and the context of the second. *)
Theorem context_of_concatenation (l1 l2 : list passage) :
  l1 ≠ [] → l2 ≠ [] →
  _format_retrieval_results (l1 ++ l2)
  = (_format_retrieval_results l1
     ++ (newline ++ newline ++ "---" ++ newline ++ newline)
     ++ _format_retrieval_results l2)%string.
Proof.
  intros H1 H2. unfold _format_retrieval_results.
  destruct l1 as [|r1 l1]; [done|]. destruct l2 as [|r2 l2]; [done|].
  cbn [app truthy_list negb]. cbv iota.
  rewrite fmap_cons, fmap_app, !fmap_cons.
  by apply (concat_app _ (_ :: _) (_ :: _)).
Qed.

Lemma context_of_concatenation_witness :
  _format_retrieval_results (take 1 Demo.passages ++ drop 1 Demo.passages)
  = (_format_retrieval_results (take 1 Demo.passages)
     ++ (newline ++ newline ++ "---" ++ newline ++ newline)
     ++ _format_retrieval_results (drop 1 Demo.passages))%string.
Proof.
  apply (context_of_concatenation (take 1 Demo.passages) (drop 1 Demo.passages));
    discriminate.
Defined.

End RunExtras.
